(** * Reference service: parser (crf.py) and resolver (authors.py, common.py)

    A shallow embedding of the parts of [referencesrv/parser/crf.py],
    [referencesrv/resolver/authors.py] and [referencesrv/resolver/common.py]
    that the specification makes claims about, and the proofs that settle
    those claims.

    Conventions of the embedding.
    - Python strings are [string] (sequences of 8-bit characters); the text
      is taken to be ASCII, so that [\w] is [[A-Za-z0-9_]], [\d] is [[0-9]]
      and [\s] (as [str.strip] and [str.split]) is the six ASCII white-space
      characters.
    - Python exceptions are values of [exn]; a computation that may raise
      has type [result A].
    - Python floats that are only compared, stored and clamped are rational
      numbers ([Q]); the float literal [0.90] is the rational that the
      double nearest to 0.9 denotes.
    - [filter(None, xs)] and [dict.keys()] are lists, as the indexing the
      source applies to them requires.
    - The regular-expression library is modelled by a backtracking matcher
      ([rmatch]) with the library's leftmost, greedy, first-alternative-first
      semantics; every pattern of the source that is evaluated here is
      written out as a [regex] term next to the function that uses it.  Where
      a pattern is quoted in a comment, a star that is followed by a closing
      parenthesis is set apart from it by a space. *)

From Stdlib Require Import ZArith QArith Ascii String List Bool Lia.
From stdpp Require Import base option list gmap strings.

Local Open Scope string_scope.
Local Open Scope list_scope.

(** ** Exceptions *)

Inductive exn : Type :=
| IndexError
| KeyError
| TypeError
| ValueError
| StopIteration
| AttributeError
| AssertionError
| NotImplementedError
| Undecidable (reason : string).

Inductive result (A : Type) : Type :=
| Ok (a : A)
| Raise (e : exn).
Arguments Ok {A} a.
Arguments Raise {A} e.

Definition rbind {A B : Type} (m : result A) (f : A -> result B) : result B :=
  match m with
  | Ok a => f a
  | Raise e => Raise e
  end.

Notation "'do' x <- m ; k" := (rbind m (fun x => k))
  (at level 10, x name, m at level 100, k at level 200).

(** [[e1, e2, ...]]: the elements of a list display are evaluated from left
    to right and the first exception aborts the display. *)
Fixpoint rsequence {A : Type} (ms : list (result A)) : result (list A) :=
  match ms with
  | [] => Ok []
  | m :: ms' => do a <- m; do rest <- rsequence ms'; Ok (a :: rest)
  end.

Definition is_ok {A : Type} (m : result A) : bool :=
  match m with Ok _ => true | Raise _ => false end.

(** ** Characters *)

Module Char.

Definition code (c : ascii) : N := N_of_ascii c.

Definition between (lo hi c : ascii) : bool :=
  (code lo <=? code c)%N && (code c <=? code hi)%N.

Definition same (a c : ascii) : bool := (code a =? code c)%N.

Definition one_of (s : string) (c : ascii) : bool :=
  existsb (same c) (list_ascii_of_string s).

Definition upper : ascii -> bool := between "A" "Z".
Definition lower : ascii -> bool := between "a" "z".
Definition digit : ascii -> bool := between "0" "9".
Definition alpha (c : ascii) : bool := upper c || lower c.
Definition alnum (c : ascii) : bool := alpha c || digit c.
(** [\w] *)
Definition word (c : ascii) : bool := alnum c || same "_" c.
(** [\s]: space, \t, \n, \v, \f, \r *)
Definition space (c : ascii) : bool :=
  same " " c || between (ascii_of_nat 9) (ascii_of_nat 13) c.
Definition newline : ascii := ascii_of_nat 10.

Definition to_lower (c : ascii) : ascii :=
  if upper c then ascii_of_N (code c + 32) else c.

End Char.

(** ** Python string methods *)

Module Str.

Fixpoint startswith (p s : string) : bool :=
  match p, s with
  | EmptyString, _ => true
  | String a p', String b s' => Char.same a b && startswith p' s'
  | String _ _, EmptyString => false
  end.

Fixpoint drop (n : nat) (s : string) : string :=
  match n, s with
  | O, _ => s
  | S n', String _ s' => drop n' s'
  | S _, EmptyString => EmptyString
  end.

Fixpoint take (n : nat) (s : string) : string :=
  match n, s with
  | O, _ => EmptyString
  | S n', String c s' => String c (take n' s')
  | S _, EmptyString => EmptyString
  end.

Definition len (s : string) : nat := String.length s.

Definition eqb (a b : string) : bool := String.eqb a b.

(** [s.find(sub)]: index of the first occurrence, [None] for -1. *)
Fixpoint find_from (sub s : string) (pos : nat) : option nat :=
  if startswith sub s then Some pos
  else match s with
       | EmptyString => None
       | String _ s' => find_from sub s' (S pos)
       end.

Definition find (sub s : string) : option nat := find_from sub s 0.

(** [sub in s] *)
Definition contains (sub s : string) : bool :=
  match find sub s with Some _ => true | None => false end.

(** [s.split(sep, 1)[0]] *)
Definition before_first (sep s : string) : string :=
  match find sep s with
  | Some i => take i s
  | None => s
  end.

Definition rev (s : string) : string :=
  string_of_list_ascii (List.rev (list_ascii_of_string s)).

Definition endswith (p s : string) : bool := startswith (rev p) (rev s).

(** [s[:-1]] *)
Definition drop_last (s : string) : string := take (len s - 1) s.

Definition lower (s : string) : string :=
  string_of_list_ascii (map Char.to_lower (list_ascii_of_string s)).

Fixpoint lstrip (s : string) : string :=
  match s with
  | String c s' => if Char.space c then lstrip s' else s
  | EmptyString => EmptyString
  end.

Definition rstrip (s : string) : string := rev (lstrip (rev s)).
Definition strip (s : string) : string := rstrip (lstrip s).

(** [s.replace(old, new)]: every non-overlapping occurrence, left to right.
    An empty [old] with an empty [new] leaves the string as it is, the only
    use the source makes of an empty [old]. *)
Fixpoint replace_fuel (fuel : nat) (old new s : string) : string :=
  match fuel with
  | O => s
  | S fuel' =>
      match s with
      | EmptyString => EmptyString
      | String c s' =>
          if startswith old s
          then new ++ replace_fuel fuel' old new (drop (len old) s)
          else String c (replace_fuel fuel' old new s')
      end
  end.

Definition replace (old new s : string) : string :=
  match old with
  | EmptyString => s
  | _ => replace_fuel (S (len s)) old new s
  end.

Definition all_chars (p : ascii -> bool) (s : string) : bool :=
  forallb p (list_ascii_of_string s).

(** [s.isdigit()], [s.isnumeric()], [s.isalpha()] on ASCII text *)
Definition isdigit (s : string) : bool := negb (eqb s "") && all_chars Char.digit s.
Definition isnumeric (s : string) : bool := isdigit s.
Definition isalpha (s : string) : bool := negb (eqb s "") && all_chars Char.alpha s.

(** [int(s)] for a string of digits *)
Definition int_of_digits (s : string) : Z :=
  fold_left (fun acc c => (acc * 10 + Z.of_N (Char.code c - Char.code "0"))%Z)
            (list_ascii_of_string s) 0%Z.

(** [sep.join(parts)] *)
Fixpoint join (sep : string) (parts : list string) : string :=
  match parts with
  | [] => ""
  | [p] => p
  | p :: rest => p ++ sep ++ join sep rest
  end.

(** [s.split()]: maximal runs of characters that are not white space *)
Fixpoint split_ws_go (cur : string) (s : string) : list string :=
  match s with
  | EmptyString => if eqb cur "" then [] else [rev cur]
  | String c s' =>
      if Char.space c
      then (if eqb cur "" then split_ws_go "" s' else rev cur :: split_ws_go "" s')
      else split_ws_go (String c cur) s'
  end.

Definition split_ws (s : string) : list string := split_ws_go "" s.

(** [x in xs] for a list of strings *)
Definition mem (x : string) (xs : list string) : bool := existsb (eqb x) xs.

(** [xs.index(x)] *)
Fixpoint index_of (x : string) (xs : list string) : option nat :=
  match xs with
  | [] => None
  | y :: ys => if eqb y x then Some 0%nat else option_map S (index_of x ys)
  end.

(** [list(OrderedDict.fromkeys(xs))]: first occurrences, in order *)
Fixpoint dedup_go (seen : list string) (xs : list string) : list string :=
  match xs with
  | [] => []
  | x :: xs' => if mem x seen then dedup_go seen xs' else x :: dedup_go (x :: seen) xs'
  end.

Definition dedup (xs : list string) : list string := dedup_go [] xs.

End Str.

(** ** The regular-expression library

    Patterns are terms of [regex]; [rmatch] is a backtracking matcher in
    continuation-passing style.  Alternatives are tried left to right,
    [Star] is greedy, groups record the text of their last participation,
    and the first complete match found in this order is the match, as in
    Python's [re] (and [regex]) module. *)

Module Re.

Inductive regex : Type :=
| Eps
| Cls (p : ascii -> bool)
| Cat (a b : regex)
| Alt (a b : regex)
| Star (a : regex)
| Grp (n : nat) (a : regex)
| WordB
| NotWordB
| Bol
| Eol
| Ahead (a : regex)
| NotAhead (a : regex).

Record mstate : Type := MState {
  m_prev : option ascii;          (* the character before the position *)
  m_rest : string;                (* the subject from the position on *)
  m_pos : nat;                    (* the position *)
  m_caps : list (nat * string)    (* groups that took part, latest first *)
}.

Definition is_word_opt (c : option ascii) : bool :=
  match c with Some c => Char.word c | None => false end.

Definition next_char (s : mstate) : option ascii :=
  match m_rest s with String c _ => Some c | EmptyString => None end.

Definition at_boundary (s : mstate) : bool :=
  xorb (is_word_opt (m_prev s)) (is_word_opt (next_char s)).

(** [$] without MULTILINE: at the end, or before a newline that ends the subject *)
Definition at_end (s : mstate) : bool :=
  match m_rest s with
  | EmptyString => true
  | String c EmptyString => Char.same c Char.newline
  | _ => false
  end.

Definition succeeds (o : option mstate) : bool :=
  match o with Some _ => true | None => false end.

Fixpoint rmatch (r : regex) (k : mstate -> option mstate) (s : mstate) : option mstate :=
  match r with
  | Eps => k s
  | Cls p =>
      match m_rest s with
      | String c t =>
          if p c then k (MState (Some c) t (S (m_pos s)) (m_caps s)) else None
      | EmptyString => None
      end
  | Cat a b => rmatch a (rmatch b k) s
  | Alt a b =>
      match rmatch a k s with
      | Some e => Some e
      | None => rmatch b k s
      end
  | Star a =>
      (fix loop (fuel : nat) (s : mstate) {struct fuel} : option mstate :=
         match fuel with
         | O => k s
         | S fuel' =>
             match rmatch a (fun s' => if (m_pos s <? m_pos s')%nat
                                       then loop fuel' s' else None) s with
             | Some e => Some e
             | None => k s
             end
         end) (Str.len (m_rest s)) s
  | Grp n a =>
      rmatch a (fun s' =>
                  k (MState (m_prev s') (m_rest s') (m_pos s')
                            ((n, Str.take (m_pos s' - m_pos s) (m_rest s)) :: m_caps s'))) s
  | WordB => if at_boundary s then k s else None
  | NotWordB => if at_boundary s then None else k s
  | Bol => if (m_pos s =? 0)%nat then k s else None
  | Eol => if at_end s then k s else None
  | Ahead a => if succeeds (rmatch a Some s) then k s else None
  | NotAhead a => if succeeds (rmatch a Some s) then None else k s
  end.

(** Derived forms *)
Definition Plus (a : regex) : regex := Cat a (Star a).
Definition Opt (a : regex) : regex := Alt a Eps.
Definition Chr (c : ascii) : regex := Cls (Char.same c).
(** [.] *)
Definition Dot : regex := Cls (fun c => negb (Char.same c Char.newline)).

Fixpoint Lit (s : string) : regex :=
  match s with
  | EmptyString => Eps
  | String c s' => Cat (Chr c) (Lit s')
  end.

(** a literal under IGNORECASE *)
Fixpoint LitI (s : string) : regex :=
  match s with
  | EmptyString => Eps
  | String c s' =>
      Cat (Cls (fun x => Char.same (Char.to_lower c) (Char.to_lower x))) (LitI s')
  end.

(** [a{n}] and [a{lo,hi}] *)
Fixpoint Times (n : nat) (a : regex) : regex :=
  match n with
  | O => Eps
  | S n' => Cat a (Times n' a)
  end.

Fixpoint UpTo (n : nat) (a : regex) : regex :=
  match n with
  | O => Eps
  | S n' => Opt (Cat a (UpTo n' a))
  end.

Definition Range (lo hi : nat) (a : regex) : regex :=
  Cat (Times lo a) (UpTo (hi - lo) a).

Fixpoint Seq (rs : list regex) : regex :=
  match rs with
  | [] => Eps
  | [r] => r
  | r :: rs' => Cat r (Seq rs')
  end.

Fixpoint Any (rs : list regex) : regex :=
  match rs with
  | [] => NotAhead Eps
  | [r] => r
  | r :: rs' => Alt r (Any rs')
  end.

(** A match object. *)
Record mobj : Type := MObj {
  mo_start : nat;
  mo_end : nat;
  mo_text : string;                 (* group 0 *)
  mo_caps : list (nat * string)
}.

(** [m.group(n)]: [None] when the group did not take part *)
Fixpoint lookup_cap (n : nat) (caps : list (nat * string)) : option string :=
  match caps with
  | [] => None
  | (i, t) :: rest => if (i =? n)%nat then Some t else lookup_cap n rest
  end.

Definition group (n : nat) (m : mobj) : option string := lookup_cap n (mo_caps m).

(** the group as [findall] reports it: the empty string when it took no part *)
Definition group_or_empty (n : nat) (m : mobj) : string :=
  match group n m with Some t => t | None => "" end.

(** [pattern.match(subject)] at a position *)
Definition match_at (r : regex) (prev : option ascii) (s : string) (pos : nat) : option mobj :=
  match rmatch r Some (MState prev s pos []) with
  | Some e => Some (MObj pos (m_pos e) (Str.take (m_pos e - pos) s) (m_caps e))
  | None => None
  end.

Definition match_start (r : regex) (s : string) : option mobj := match_at r None s 0.

(** [pattern.search]: the leftmost position at which the pattern matches *)
Fixpoint search_at (r : regex) (prev : option ascii) (s : string) (pos : nat) : option mobj :=
  match match_at r prev s pos with
  | Some m => Some m
  | None =>
      match s with
      | EmptyString => None
      | String c s' => search_at r (Some c) s' (S pos)
      end
  end.

Definition search (r : regex) (s : string) : option mobj := search_at r None s 0.

(** the subject after [n] more characters, with the character before it *)
Fixpoint advance (n : nat) (prev : option ascii) (s : string) : option ascii * string :=
  match n, s with
  | O, _ => (prev, s)
  | S n', String c s' => advance n' (Some c) s'
  | S _, EmptyString => (prev, s)
  end.

(** [pattern.finditer]: successive non-overlapping matches.  After an empty
    match the scan moves on by one character. *)
Fixpoint finditer_at (fuel : nat) (r : regex) (prev : option ascii) (s : string) (pos : nat)
  : list mobj :=
  match fuel with
  | O => []
  | S fuel' =>
      match search_at r prev s pos with
      | None => []
      | Some m =>
          let step := if (mo_end m =? mo_start m)%nat then S (mo_end m - pos) else (mo_end m - pos)%nat in
          if (Str.len s <? step)%nat then [m]
          else let '(prev', s') := advance step prev s in
               m :: finditer_at fuel' r prev' s' (pos + step)
      end
  end.

Definition finditer (r : regex) (s : string) : list mobj :=
  finditer_at (S (Str.len s)) r None s 0.

(** [pattern.findall] for a pattern without groups, and with one group *)
Definition findall0 (r : regex) (s : string) : list string :=
  map mo_text (finditer r s).

Definition findall1 (r : regex) (s : string) : list string :=
  map (group_or_empty 1) (finditer r s).

(** [pattern.findall] for a pattern with [n >= 2] groups: one tuple a match *)
Definition findall_groups (n : nat) (r : regex) (s : string) : list (list string) :=
  map (fun m => map (fun i => group_or_empty i m) (seq 1 n)) (finditer r s).

(** [pattern.sub(repl, subject)], the replacement computed from the match *)
Fixpoint sub_go (repl : mobj -> string) (ms : list mobj) (s : string) (pos : nat) : string :=
  match ms with
  | [] => s
  | m :: ms' =>
      Str.take (mo_start m - pos) s ++ repl m
        ++ sub_go repl ms' (Str.drop (mo_end m - pos) s) (mo_end m)
  end.

Definition sub (r : regex) (repl : mobj -> string) (s : string) : string :=
  sub_go repl (finditer r s) s 0.

(** [pattern.split(subject)]: the text between the matches and, for a
    pattern with one group, the group of every match *)
Fixpoint split_go (with_group : bool) (ms : list mobj) (s : string) (pos : nat) : list string :=
  match ms with
  | [] => [s]
  | m :: ms' =>
      Str.take (mo_start m - pos) s
        :: (if with_group then [group_or_empty 1 m] else [])
        ++ split_go with_group ms' (Str.drop (mo_end m - pos) s) (mo_end m)
  end.

Definition split (with_group : bool) (r : regex) (s : string) : list string :=
  split_go with_group (finditer r s) s 0.

End Re.

(** * The parser: [referencesrv/parser/crf.py] *)

(** ** DOI extraction ([CRFClassifierText.extract_doi]) *)

Module Doi.
Import Re.

(** [DOI_ID_EXTRACTOR]:
    [(?P<doi>(doi|DOI)?[\s\.\:]{0,2}\b10\.\s*\d{4}[\d\:\.\-\_\/\(\)A-Za-z\s]+)] *)
Definition doi_tail_char (c : ascii) : bool :=
  Char.digit c || Char.one_of ":.-_/()" c || Char.alpha c || Char.space c.

Definition DOI_ID_EXTRACTOR : regex :=
  Grp 1 (Seq [ Opt (Grp 2 (Alt (Lit "doi") (Lit "DOI")));
               Range 0 2 (Cls (fun c => Char.space c || Char.one_of ".:" c));
               WordB;
               Lit "10.";
               Star (Cls Char.space);
               Times 4 (Cls Char.digit);
               Plus (Cls doi_tail_char) ]).

(** [DOI_INDICATOR]: [doi:] under IGNORECASE *)
Definition DOI_INDICATOR : regex := LitI "doi:".

(** [filter(None, parts)] *)
Definition filter_nonempty (parts : list string) : list string :=
  List.filter (fun p => negb (Str.eqb p "")) parts.

(** The chain of [split(..., 1)[0]] of the source. *)
Definition truncate_at_urls (doi : string) : string :=
  Str.before_first "ascl:"
    (Str.before_first "arXiv:"
       (Str.before_first "http://"
          (Str.before_first "https://" doi))).

Definition drop_trailing_dot (doi : string) : string :=
  if Str.endswith "." doi then Str.drop_last doi else doi.

(** The body of the loop for one match; the loop returns at its first match. *)
Definition doi_of_match (m : mobj) : result string :=
  let doi := group_or_empty 1 m in
  if Str.eqb doi "" then Ok doi
  else
    let doi := truncate_at_urls doi in
    let doi := drop_trailing_dot doi in
    match filter_nonempty (split false DOI_INDICATOR doi) with
    | first :: _ => Ok first
    | [] => Raise IndexError
    end.

Definition extract_doi (reference_str : string) : result string :=
  match finditer DOI_ID_EXTRACTOR reference_str with
  | m :: _ => doi_of_match m
  | [] => Ok ""
  end.

End Doi.

(** ** Taxonomies and small utilities of [CRFClassifier] *)

Module Crf.
Import Re.

Definition IDENTIFYING_WORDS : list (string * list string) :=
  [ ("ARXIV_IDENTIFIER", ["arxiv"]);
    ("EDITOR_IDENTIFIER", ["editor"; "eds"; "ed"]);
    ("ET_AL", ["et"; "al"]);
    ("DOI_IDENTIFIER", ["doi"]);
    ("ISSUE_IDENTIFIER", ["issue"]);
    ("ISSN__IDENTIFIER", ["issn"]);
    ("PAGE_IDENTIFIER", ["page"; "pages"; "pp"; "p"]);
    ("VERSION_IDENTIFIER", ["version"]);
    ("VOLUME_IDENTIFIER", ["volume"; "vol"]);
    ("ISBN_IDENTIFIER", ["isbn"]);
    ("ASCL_IDENTIFIER", ["ascl"]) ].

Definition PUNCTUATIONS : list (string * list string) :=
  [ ("PUNCTUATION_BRACKETS", ["["; "]"]);
    ("PUNCTUATION_COLON", [":"]);
    ("PUNCTUATION_COMMA", [","]);
    ("PUNCTUATION_DOT", ["."]);
    ("PUNCTUATION_PARENTHESIS", ["("; ")"]);
    ("PUNCTUATION_QUOTES", [String (ascii_of_nat 34) ""; "'"]);
    ("PUNCTUATION_NUM", ["#"]);
    ("PUNCTUATION_HYPEN", ["-"]);
    ("PUNCTUATION_FORWARD_SLASH", ["/"]);
    ("PUNCTUATION_SEMICOLON", [";"]) ].

Definition AUTHOR_TAGS : list string :=
  [ "AUTHOR_LAST_NAME"; "PUNCTUATION_COMMA"; "AUTHOR_FIRST_NAME"; "AUTHOR_FIRST_NAME_FULL";
    "PUNCTUATION_DOT"; "AUTHOR_MIDDLE_NAME"; "AND"; "ET_AL"; "PUNCTUATION_HYPEN";
    "AUTHOR_COLLABORATION" ].

Definition EDITOR_TAGS : list string :=
  [ "EDITOR_LAST_NAME"; "EDITOR_FIRST_NAME"; "EDITOR_MIDDLE_NAME" ].

Definition NUMERIC_TAGS : list string :=
  [ "ARXIV"; "DOI"; "ISSUE"; "PAGE"; "VERSION"; "VOLUME"; "ISSN"; "YEAR"; "ASCL" ].

Definition STOPWORD_TAGS : list string := [ "AND"; "IN"; "OF"; "THE" ].

(** [REGEX_PATTERN_WHOLE_WORD_ONLY % re.escape(pattern)]:
    [(?:\b|\B)pattern(?:\b|\B)] with the pattern taken literally *)
Definition whole_word (pattern : string) : regex :=
  Seq [ Alt WordB NotWordB; Lit pattern; Alt WordB NotWordB ].

(** [substitute(pattern, replace, text)] for a pattern that is a string *)
Definition substitute (pattern replace text : string) : string :=
  sub (whole_word pattern) (fun _ => replace) text.

(** [concatenate(token_1, token_2)] *)
Definition concatenate (token_1 token_2 : string) : string :=
  if (Str.len token_2 =? 0)%nat then token_1
  else token_1 ++ (if (0 <? Str.len token_1)%nat then " " else "") ++ token_2.

(** [strip(text, remove)] *)
Definition strip (text remove : string) : string :=
  if Str.eqb (Str.strip (Str.lower text)) remove then ""
  else
    let text := if Str.startswith (remove ++ " ") (Str.lower text)
                then Str.drop (Str.len remove) text else text in
    let text := if Str.endswith (" " ++ remove) (Str.lower text)
                then (if (Str.len remove =? 0)%nat then ""
                      else Str.take (Str.len text - Str.len remove) text)
                else text in
    Str.strip text.

(** [MATCH_A_WORD]: [\w+] *)
Definition MATCH_A_WORD : regex := Plus (Cls Char.word).

(** [MATCH_PUNCTUATION]: [([^\w\s])] *)
Definition MATCH_PUNCTUATION : regex :=
  Grp 1 (Cls (fun c => negb (Char.word c || Char.space c))).

(** the 1-based position of the first entry of an ordered table that
    satisfies [p], 0 when there is none *)
Fixpoint first_position {A : Type} (p : A -> bool) (xs : list A) : Z :=
  match xs with
  | [] => 0
  | x :: xs' => if p x then 1
                else let r := first_position p xs' in
                     if (r =? 0)%Z then 0%Z else (r + 1)%Z
  end.

(** [is_identifying_word(ref_data_word)] *)
Definition is_identifying_word (ref_data_word : string) : Z :=
  if Str.isalpha ref_data_word
  then first_position (fun entry => Str.mem (Str.lower ref_data_word) (snd entry))
                      IDENTIFYING_WORDS
  else 0%Z.

(** [is_punctuation(punctuation)]; [punctuation in p] is list membership *)
Definition is_punctuation (punctuation : string) : Z :=
  first_position (fun entry => Str.mem punctuation (snd entry)) PUNCTUATIONS.

End Crf.

(** ** Numeric fields ([CRFClassifierText.identify_numeric_tokens]) *)

Module Numeric.
Import Re Crf.

(** [YEAR_PATTERN]: [[12][089]\d\d] *)
Definition YEAR_PATTERN : regex :=
  Seq [ Cls (Char.one_of "12"); Cls (Char.one_of "089"); Cls Char.digit; Cls Char.digit ].

(** [YEAR_EXTRACTOR]: [[(\s]*\b(YEAR_PATTERN[a-z]?)[)\s.,]+] *)
Definition YEAR_EXTRACTOR : regex :=
  Seq [ Star (Cls (fun c => Char.same "(" c || Char.space c));
        WordB;
        Grp 1 (Cat YEAR_PATTERN (Opt (Cls Char.lower)));
        Plus (Cls (fun c => Char.one_of ")" c || Char.space c || Char.one_of ".," c)) ].

(** The text that the group of [YEAR_EXTRACTOR] can hold: [YEAR_PATTERN],
    then at most one lower-case letter. *)
Definition year_shape (y : string) : bool :=
  match y with
  | String c1 (String c2 (String c3 (String c4 letter))) =>
      Char.one_of "12" c1 && Char.one_of "089" c2 && Char.digit c3 && Char.digit c4
      && match letter with
         | EmptyString => true
         | String c EmptyString => Char.lower c
         | _ => false
         end
  | _ => false
  end.

(** [MATCH_INSIDE_PARENTHESIS % y]: [(\(y\))]; [y] is a year candidate, made
    of digits and at most one lower-case letter, so it stands for itself *)
Definition MATCH_INSIDE_PARENTHESIS (y : string) : regex :=
  Grp 1 (Seq [ Chr "("; Lit y; Chr ")" ]).

(** PAGE, the page of the two compact layouts: [[A-Z]?\d+\-?[A-Z]?\d*] *)
Definition page_token : regex :=
  Seq [ Opt (Cls Char.upper); Plus (Cls Char.digit); Opt (Chr "-");
        Opt (Cls Char.upper); Star (Cls Char.digit) ].

(** [FORMATTED_MULTI_NUMERIC_EXTRACTOR[0]]:
    [(?P<volume>\d+)\s+(?P<issue>\d+)\s*:(?P<page>PAGE)] *)
Definition FORMATTED_VOLUME_ISSUE_PAGE : regex :=
  Seq [ Grp 1 (Plus (Cls Char.digit)); Plus (Cls Char.space);
        Grp 2 (Plus (Cls Char.digit)); Star (Cls Char.space); Chr ":";
        Grp 3 page_token ].

(** [FORMATTED_MULTI_NUMERIC_EXTRACTOR[1]]:
    [(?P<volume>\d+):(?P<page>PAGE)(?P<issue>SPACES)], where SPACES is [\s*] *)
Definition FORMATTED_VOLUME_PAGE : regex :=
  Seq [ Grp 1 (Plus (Cls Char.digit)); Chr ":"; Grp 2 page_token;
        Grp 3 (Star (Cls Char.space)) ].

(** [PAGE_EXTRACTOR]: [(?=.*[0-9])(?P<page>[BHPL0-9]+[-.][BHPL0-9]+)] *)
Definition page_char (c : ascii) : bool := Char.one_of "BHPL" c || Char.digit c.

Definition PAGE_EXTRACTOR : regex :=
  Seq [ Ahead (Cat (Star Dot) (Cls Char.digit));
        Grp 1 (Seq [ Plus (Cls page_char); Cls (Char.one_of "-."); Plus (Cls page_char) ]) ].

(** [VOLUME_EXTRACTOR]: [(vol|volume)[.\s]+(?P<volume>\w+)] *)
Definition VOLUME_EXTRACTOR : regex :=
  Seq [ Grp 1 (Alt (Lit "vol") (Lit "volume"));
        Plus (Cls (fun c => Char.same "." c || Char.space c));
        Grp 2 (Plus (Cls Char.word)) ].

(** [IS_MOSTLY_DIGIT]:
    [(\b[A-Za-z0-9]+[0-9]\b|\b[0-9]+[0-9A-Za-z]\b|\b[0-9]\b)] *)
Definition IS_MOSTLY_DIGIT : regex :=
  Grp 1 (Any [ Seq [ WordB; Plus (Cls Char.alnum); Cls Char.digit; WordB ];
               Seq [ WordB; Plus (Cls Char.digit); Cls Char.alnum; WordB ];
               Seq [ WordB; Cls Char.digit; WordB ] ]).

(** The value stored under ['year']: the year, when exactly one candidate
    is left, and otherwise the list of candidates itself. *)
Inductive year_value : Type :=
| YearStr (y : string)
| YearList (ys : list string).

Record numeric_tokens : Type := NumericTokens {
  page : string;
  year : year_value;
  volume : string;
  issue : string;
  unknown : string
}.

Section WithClock.

(** [self.year_now] and [self.year_earliest] *)
Variable year_now : Z.
Definition year_earliest : Z := 1400.

Definition in_parentheses (reference_str y : string) : bool :=
  match search (MATCH_INSIDE_PARENTHESIS y) reference_str with
  | Some _ => true
  | None => false
  end.

Definition year_in_range (y : string) : bool :=
  Str.isnumeric y
  && (year_earliest <=? Str.int_of_digits y)%Z
  && (Str.int_of_digits y <=? year_now)%Z.

(** the candidates, in order of first appearance *)
Definition year_candidates (reference_str : string) : list string :=
  Str.dedup (findall1 YEAR_EXTRACTOR reference_str).

(** lines 1533-1541: what is left of the candidates *)
Definition select_year (reference_str : string) : list string :=
  let year := year_candidates reference_str in
  if (1 <? length year)%nat then
    match List.filter (in_parentheses reference_str) year with
    | y :: _ => [y]
    | [] => List.filter year_in_range year
    end
  else year.

(** lines 1542-1544 *)
Definition settle_year (reference_str : string) : year_value * string :=
  match select_year reference_str with
  | [y] => (YearStr y, substitute y "" reference_str)
  | ys => (YearList ys, reference_str)
  end.

(** lines 1547-1561: the two compact layouts, tried in order *)
Definition remove_if_nonempty (field text : string) : string :=
  if (0 <? Str.len field)%nat then substitute field "" text else text.

Definition formatted_numeric (reference_str : string) : string * string * string * string :=
  let take_fields volume page issue :=
    (volume, page, issue,
      remove_if_nonempty issue (remove_if_nonempty page (remove_if_nonempty volume reference_str))) in
  match search FORMATTED_VOLUME_ISSUE_PAGE reference_str with
  | Some m => take_fields (group_or_empty 1 m) (group_or_empty 3 m)
                          (Str.strip (group_or_empty 2 m))
  | None =>
      match search FORMATTED_VOLUME_PAGE reference_str with
      | Some m => take_fields (group_or_empty 1 m) (group_or_empty 2 m)
                              (Str.strip (group_or_empty 3 m))
      | None => ("", "", "", reference_str)
      end
  end.

(** lines 1564-1570 and 1573-1579 *)
Definition standalone (r : regex) (g : nat) (field reference_str : string) : string * string :=
  if (Str.len field =? 0)%nat then
    match search r reference_str with
    | Some m => (group_or_empty g m, substitute (group_or_empty g m) "" reference_str)
    | None => ("", reference_str)
    end
  else (field, reference_str).

(** lines 1592-1600: with no volume yet, the leftovers start at the first
    one that is all digits; when there is none they all go to [unknown] and
    the leftovers become the empty string [''], of length 0 like [[]] *)
Fixpoint from_first_digit (the_rest : list string) : option (list string) :=
  match the_rest with
  | [] => None
  | elem :: rest' => if Str.isdigit elem then Some the_rest else from_first_digit rest'
  end.

Definition trim_leftovers (volume unknown : string) (the_rest : list string)
  : list string * string :=
  if (Str.len volume =? 0)%nat then
    match from_first_digit the_rest with
    | Some the_rest_numeric =>
        (the_rest_numeric,
          concatenate unknown
            (Str.join " " (List.filter (fun e => negb (Str.mem e the_rest_numeric)) the_rest)))
    | None => ([], concatenate unknown (Str.join " " the_rest))
    end
  else (the_rest, unknown).

(** lines 1603-1636: positional inference for at most three leftovers *)
Definition nth_str (i : nat) (xs : list string) : string := nth i xs "".

Definition assign_leftovers (the_rest : list string) (volume page issue unknown : string)
  : string * string * string * string :=
  let empty s := (Str.len s =? 0)%nat in
  let n := length the_rest in
  if (n <=? 3)%nat then
    if (n =? 3)%nat && empty volume && empty issue && empty page then
      (nth_str 0 the_rest, nth_str 2 the_rest, nth_str 1 the_rest, unknown)
    else if (n =? 2)%nat && (empty volume || empty page) then
      if empty volume then
        if empty page then (nth_str 0 the_rest, nth_str 1 the_rest, issue, unknown)
        else (nth_str 0 the_rest, page, nth_str 1 the_rest, unknown)
      else if empty page then (volume, nth_str 1 the_rest, nth_str 0 the_rest, unknown)
      else (volume, page, issue, concatenate unknown (Str.join " " the_rest))
    else if (n =? 1)%nat then
      if empty volume then (nth_str 0 the_rest, page, issue, unknown)
      else if empty page then (volume, nth_str 0 the_rest, issue, unknown)
      else (volume, page, nth_str 0 the_rest, unknown)
    else (volume, page, issue, concatenate unknown (Str.join " " the_rest))
  else (volume, page, issue, unknown).

(** line 1582 *)
Definition leftovers (reference_str : string) : list string :=
  Str.dedup (findall1 IS_MOSTLY_DIGIT reference_str).

(** lines 1585-1636: the guess, made only when a field is still empty.
    The result is (volume, page, issue, unknown). *)
Definition guess_fields (reference_str volume page issue unknown : string)
  : string * string * string * string :=
  let the_rest := leftovers reference_str in
  if (Str.len volume =? 0)%nat || (Str.len page =? 0)%nat || (Str.len issue =? 0)%nat then
    let unknown :=
      concatenate unknown
        (Str.join " "
           (List.filter (fun elem => negb (Str.mem elem the_rest)
                                && (is_identifying_word elem =? 0)%Z)
                   (findall0 MATCH_A_WORD reference_str))) in
    if (0 <? length the_rest)%nat then
      let '(the_rest, unknown) := trim_leftovers volume unknown the_rest in
      assign_leftovers the_rest volume page issue unknown
    else (volume, page, issue, unknown)
  else (volume, page, issue, unknown).

Definition identify_numeric_tokens (reference_str unknown : string) : numeric_tokens :=
  let '(year, reference_str) := settle_year reference_str in
  let '(volume, page, issue, reference_str) := formatted_numeric reference_str in
  let '(page, reference_str) := standalone PAGE_EXTRACTOR 1 page reference_str in
  let '(volume, reference_str) := standalone VOLUME_EXTRACTOR 2 volume reference_str in
  let '(volume, page, issue, unknown) :=
    guess_fields reference_str volume page issue unknown in
  NumericTokens page year volume issue unknown.

End WithClock.

End Numeric.

(** * The resolver: [referencesrv/resolver/authors.py] *)

Module Authors.
Import Re.

(** [SINGLE_NAME_RE]:
    [(?:(?:d|de|de la|De|des|Des|in '[a-z]|van|van der|van den|van de|von|Mc|[A-Z]')[' ]?)?[A-Z][a-z]['A-Za-z]*] *)
Definition name_particle : regex :=
  Any [ Lit "d"; Lit "de"; Lit "de la"; Lit "De"; Lit "des"; Lit "Des";
        Cat (Lit "in '") (Cls Char.lower);
        Lit "van"; Lit "van der"; Lit "van den"; Lit "van de"; Lit "von"; Lit "Mc";
        Cat (Cls Char.upper) (Chr "'") ].

Definition SINGLE_NAME_RE : regex :=
  Seq [ Opt (Cat name_particle (Opt (Cls (Char.one_of "' "))));
        Cls Char.upper;
        Cls Char.lower;
        Star (Cls (fun c => Char.same "'" c || Char.alpha c)) ].

(** [LAST_NAME_PAT]: [SINGLE_NAME_RE(?:[- ]SINGLE_NAME_RE)*] *)
Definition LAST_NAME_PAT : regex :=
  Cat SINGLE_NAME_RE (Star (Cat (Cls (Char.one_of "- ")) SINGLE_NAME_RE)).

(** [LAST_NAME_SUFFIX]: [([,\s]*[Jj][Rr][.,\s]+)?], a group of its own *)
Definition LAST_NAME_SUFFIX (n : nat) : regex :=
  Opt (Grp n (Seq [ Star (Cls (fun c => Char.same "," c || Char.space c));
                    Cls (Char.one_of "Jj"); Cls (Char.one_of "Rr");
                    Plus (Cls (fun c => Char.one_of ".," c || Char.space c)) ])).

(** the initials [(?:[A-Z]\.[\s-]* )+] *)
Definition initials : regex :=
  Plus (Seq [ Cls Char.upper; Chr ".";
              Star (Cls (fun c => Char.space c || Char.same "-" c)) ]).

(** the given names [(?:[A-Z][A-Za-z]+\s* )(?:[A-Z][.\s])*] *)
Definition given_names : regex :=
  Seq [ Cls Char.upper; Plus (Cls Char.alpha); Star (Cls Char.space);
        Star (Cat (Cls Char.upper) (Cls (fun c => Char.same "." c || Char.space c))) ].

(** the separator [\s*,?\s+] between a last name and what trails it *)
Definition trail_glue : regex :=
  Seq [ Star (Cls Char.space); Opt (Chr ","); Plus (Cls Char.space) ].

(** the tail [\s*,?] of the leading shapes *)
Definition lead_tail : regex := Cat (Star (Cls Char.space)) (Opt (Chr ",")).

(** [TRAILING_INIT_PAT]; groups: 1 last, 2 suffix, 3 first *)
Definition TRAILING_INIT_PAT : regex :=
  Seq [ Grp 1 (Cat LAST_NAME_PAT (LAST_NAME_SUFFIX 2)); trail_glue; Grp 3 initials ].

(** [LEADING_INIT_PAT]; groups: 1 first, 2 last, 3 suffix *)
Definition LEADING_INIT_PAT : regex :=
  Seq [ Grp 1 initials; Chr " "; Grp 2 (Cat LAST_NAME_PAT (LAST_NAME_SUFFIX 3)); lead_tail ].

(** [TRAILING_FULL_PAT]; groups: 1 last, 2 suffix, 3 first *)
Definition TRAILING_FULL_PAT : regex :=
  Seq [ Grp 1 (Cat LAST_NAME_PAT (LAST_NAME_SUFFIX 2)); trail_glue; Grp 3 given_names ].

(** [LEADING_FULL_PAT]; groups: 1 first, 2 last, 3 suffix *)
Definition LEADING_FULL_PAT : regex :=
  Seq [ Grp 1 given_names; Chr " "; Grp 2 (Cat LAST_NAME_PAT (LAST_NAME_SUFFIX 3)); lead_tail ].

(** [COLLABORATION_PAT]:
    [(?P<collaboration>[(\[]*[A-Za-z\s\-\/]+\s[Cc]ollaboration[s]?\s*[A-Z\.]*[\s.,)\]]+)] *)
Definition COLLABORATION_PAT : regex :=
  Grp 1 (Seq [ Star (Cls (Char.one_of "(["));
               Plus (Cls (fun c => Char.alpha c || Char.space c || Char.one_of "-/" c));
               Cls Char.space;
               Cls (Char.one_of "Cc"); Lit "ollaboration"; Opt (Chr "s");
               Star (Cls Char.space);
               Star (Cls (fun c => Char.upper c || Char.same "." c));
               Plus (Cls (fun c => Char.space c || Char.one_of ".,)]" c)) ]).

(** [COMMA_BEFORE_AND]: [(,)?(\s+and)] under IGNORECASE *)
Definition COMMA_BEFORE_AND : regex :=
  Cat (Opt (Grp 1 (Chr ","))) (Grp 2 (Cat (Plus (Cls Char.space)) (LitI "and"))).

(** The four shapes, in the order of the list [patterns]. *)
Inductive author_pattern : Type :=
| TrailingInit
| LeadingInit
| TrailingFull
| LeadingFull.

Definition pattern_regex (p : author_pattern) : regex :=
  match p with
  | TrailingInit => TRAILING_INIT_PAT
  | LeadingInit => LEADING_INIT_PAT
  | TrailingFull => TRAILING_FULL_PAT
  | LeadingFull => LEADING_FULL_PAT
  end.

Definition patterns : list author_pattern :=
  [ TrailingInit; LeadingInit; TrailingFull; LeadingFull ].

(** [get_collaborators(ref_string)]; [str.find] gives -1 when absent *)
Definition get_collaborators (ref_string : string) : Z * nat :=
  let replaced :=
    sub COMMA_BEFORE_AND (fun m => ("," ++ group_or_empty 2 m)%string) ref_string in
  match List.rev (findall1 COLLABORATION_PAT replaced) with
  | collaboration :: _ =>
      (match Str.find collaboration ref_string with
       | Some i => Z.of_nat i
       | None => (-1)%Z
       end, Str.len collaboration)
  | [] => (0%Z, 0%nat)
  end.

(** [get_length_matched_authors(ref_string, matches)] *)
Fixpoint common_prefix (a b : string) : nat :=
  match a, b with
  | String x a', String y b' => if Char.same x y then S (common_prefix a' b') else 0
  | _, _ => 0
  end.

Definition get_length_matched_authors (ref_string : string) (matches : list (list string)) : nat :=
  let matched_str :=
    Str.join ", "
      (map (fun author =>
              Str.strip (Str.join " " (List.filter (fun g => negb (Str.eqb g "")) author)))
           matches) in
  common_prefix matched_str ref_string.

(** the list [lengths] of [get_author_pattern] *)
Definition pattern_lengths (ref_string : string) : list nat :=
  let '(collaborators_idx, collaborators_len) := get_collaborators ref_string in
  let subject := if (collaborators_idx =? 0)%Z then ref_string
                 else Str.drop collaborators_len ref_string in
  map (fun p => get_length_matched_authors subject
                  (findall_groups 3 (pattern_regex p) subject))
      patterns.

Definition indices_where (p : nat -> bool) (lengths : list nat) : list nat :=
  map fst (List.filter (fun iv => p (snd iv)) (combine (seq 0 (length lengths)) lengths)).

Definition max_of (lengths : list nat) : nat := fold_right Nat.max 0%nat lengths.
Definition min_of (xs : list nat) : nat :=
  match xs with
  | [] => 0%nat
  | x :: xs' => fold_right Nat.min x xs'
  end.

Definition mem_nat (i : nat) (xs : list nat) : bool := existsb (Nat.eqb i) xs.

(** [int(''.join(['1' if i in indices_max else '0' for i in range(4)]), 2)] *)
Definition on_off_value (indices_max : list nat) : Z :=
  fold_left (fun acc i => (2 * acc + (if mem_nat i indices_max then 1 else 0))%Z)
            (seq 0 4) 0%Z.

Definition mem_Z (v : Z) (vs : list Z) : bool := existsb (Z.eqb v) vs.

(** The decision of [get_author_pattern] from the list [lengths]
    (lines 109-143).  [None] is Python's [None]. *)
Definition decide_pattern (lengths : list nat) : option author_pattern :=
  let indices_max := indices_where (Nat.eqb (max_of lengths)) lengths in
  let by_table :=
    let indices_match := indices_where (fun v => (0 <? v)%nat) lengths in
    if (Z.of_nat (length indices_match) - Z.of_nat (length indices_max) =? 1)%Z
    then Some (patterns !! min_of indices_match)
    else
      let v := on_off_value indices_max in
      if mem_Z v [0; 6; 9; 12; 15]%Z then Some None
      else if (v =? 3)%Z then Some (patterns !! 3%nat)
      else if mem_Z v [5; 7]%Z then Some (patterns !! 1%nat)
      else if mem_Z v [10; 11]%Z then Some (patterns !! 0%nat)
      else if (v =? 13)%Z then Some (patterns !! 3%nat)
      else if (v =? 14)%Z then Some (patterns !! 2%nat)
      else None in
  match (if negb (length indices_max =? 1)%nat then by_table else None) with
  | Some answer => answer
  | None => patterns !! nth 0 indices_max 0%nat
  end.

Definition get_author_pattern (ref_string : string) : option author_pattern :=
  decide_pattern (pattern_lengths ref_string).

(** the groups [last] and [first] of a shape *)
Definition last_group (p : author_pattern) : nat :=
  match p with
  | TrailingInit | TrailingFull => 1%nat
  | LeadingInit | LeadingFull => 2%nat
  end.

Definition first_group (p : author_pattern) : nat :=
  match p with
  | TrailingInit | TrailingFull => 3%nat
  | LeadingInit | LeadingFull => 1%nat
  end.

(** [get_first_author(author_string, initials)]; a pattern that finds
    nothing gives [None], whose [group] is an attribute error *)
Definition get_first_author (author_string : string) (initials : bool) : result string :=
  match get_author_pattern author_string with
  | None => Raise (Undecidable "Both leading and trailing found without a majority")
  | Some pattern =>
      match search (pattern_regex pattern) author_string with
      | None => Raise AttributeError
      | Some m =>
          if initials
          then Ok (group_or_empty (last_group pattern) m ++ ", "
                   ++ group_or_empty (first_group pattern) m)%string
          else Ok (group_or_empty (last_group pattern) m)
      end
  end.

(** The table of lines 122-141, keyed by the on/off value of the shapes
    that tie; [None] is no decision. *)
Definition tie_table (on_off : Z) : option author_pattern :=
  match on_off with
  | 3 => Some LeadingFull
  | 5 | 7 => Some LeadingInit
  | 10 | 11 => Some TrailingInit
  | 13 => Some LeadingFull
  | 14 => Some TrailingFull
  | _ => None
  end%Z.

(** the shapes whose length is the largest, and those that match at all *)
Definition indices_max (lengths : list nat) : list nat :=
  indices_where (Nat.eqb (max_of lengths)) lengths.

Definition indices_match (lengths : list nat) : list nat :=
  indices_where (fun v => (0 <? v)%nat) lengths.

(** two or more shapes tie at the largest length, and the rule for one
    further shape that matches does not apply *)
Definition tie_for_table (lengths : list nat) : bool :=
  negb (length (indices_max lengths) =? 1)%nat
  && negb (Z.of_nat (length (indices_match lengths))
           - Z.of_nat (length (indices_max lengths)) =? 1)%Z.

(** The decision as a function of two tests on each length: is it the
    largest, is it positive. *)
Definition decide_bits (e p : list bool) : option author_pattern :=
  let pick (bs : list bool) := map fst (List.filter snd (combine (seq 0 4) bs)) in
  let indices_max := pick e in
  let indices_match := pick p in
  if negb (length indices_max =? 1)%nat then
    if (Z.of_nat (length indices_match) - Z.of_nat (length indices_max) =? 1)%Z
    then patterns !! min_of indices_match
    else tie_table (on_off_value indices_max)
  else patterns !! nth 0 indices_max 0%nat.

(** [get_author_last_name_only(author_string)].  [try_except_undecidable]
    is the [try: ... except Undecidable: ...] statement: the handler runs
    only when the body raises [Undecidable]. *)
Definition try_except_undecidable {A : Type} (body : result A) (handler : unit -> result A)
  : result A :=
  match body with
  | Raise (Undecidable _) => handler tt
  | other => other
  end.

(** [LAST_NAME_PAT.findall(author_string)]: the pattern has no group, and
    the call returns the list of matches without raising *)
Definition last_names (author_string : string) : result (list string) :=
  Ok (findall0 LAST_NAME_PAT author_string).

(** [xs[1::2]] *)
Fixpoint every_second {A : Type} (xs : list A) : list A :=
  match xs with
  | _ :: y :: rest => y :: every_second rest
  | _ => []
  end.

Definition last_name_only_primary (author_string : string) : result (list string) :=
  do names <- last_names author_string;
  Ok (map (fun lastname => Str.replace "-" " " (Str.lower lastname)) names).

Definition last_name_only_fallback (author_string : string) : result (list string) :=
  do names <- last_names author_string;
  Ok (every_second (map Str.lower (flat_map Str.split_ws names))).

Definition get_author_last_name_only (author_string : string) : result (list string) :=
  try_except_undecidable (last_name_only_primary author_string)
                         (fun _ => last_name_only_fallback author_string).

End Authors.

(** ** The per-token feature function ([CRFClassifier.get_data_features]) *)

Module Features.
Import Re Crf.

(** A value of the segmentation dictionary: a string, the list that
    ['year'] holds when no single year was settled, or [None]. *)
Inductive pyval : Type :=
| PStr (s : string)
| PList (l : list string)
| PNone.

Definition b2z (b : bool) : Z := if b then 1%Z else 0%Z.

(** [xs[i]] *)
Definition item (xs : list string) (i : nat) : result string :=
  match xs !! i with
  | Some x => Ok x
  | None => Raise IndexError
  end.

(** [xs[-k]] for [k >= 1] *)
Definition item_from_end (xs : list string) (k : nat) : result string :=
  if (k <=? length xs)%nat then item xs (length xs - k) else Raise IndexError.

(** [d[key]] *)
Definition getitem (d : gmap string pyval) (key : string) : result pyval :=
  match d !! key with
  | Some v => Ok v
  | None => Raise KeyError
  end.

(** [d.get(key, '')] *)
Definition get_or_empty (d : gmap string pyval) (key : string) : pyval :=
  match d !! key with
  | Some v => v
  | None => PStr ""
  end.

(** a value handed to the regular-expression library, which accepts
    strings only *)
Definition as_text (v : pyval) : result string :=
  match v with
  | PStr s => Ok s
  | _ => Raise TypeError
  end.

(** [len(v)] *)
Definition py_len (v : pyval) : result nat :=
  match v with
  | PStr s => Ok (Str.len s)
  | PList l => Ok (length l)
  | PNone => Raise TypeError
  end.

(** [token in v] *)
Definition py_contains (token : string) (v : pyval) : result bool :=
  match v with
  | PStr s => Ok (Str.contains token s)
  | PList l => Ok (Str.mem token l)
  | PNone => Raise TypeError
  end.

(** [v.split()] *)
Definition py_split (v : pyval) : result (list string) :=
  match v with
  | PStr s => Ok (Str.split_ws s)
  | _ => Raise AttributeError
  end.

(** [token == value] *)
Definition equals_value (token : string) (v : pyval) : bool :=
  match v with
  | PStr s => Str.eqb token s
  | _ => false
  end.

(** [IS_CAPITAL]: [^([A-Z]+)$] *)
Definition IS_CAPITAL : regex := Seq [ Bol; Grp 1 (Plus (Cls Char.upper)); Eol ].

(** [IS_ALPHABET]: [^(?=.*[a-zA-Z])([a-zA-Z\-]+)$] *)
Definition IS_ALPHABET : regex :=
  Seq [ Bol; Ahead (Cat (Star Dot) (Cls Char.alpha));
        Grp 1 (Plus (Cls (fun c => Char.alpha c || Char.same "-" c))); Eol ].

(** [IS_NUMERIC]: [^(?=.*[0-9])([0-9\-\.]+)$] *)
Definition IS_NUMERIC : regex :=
  Seq [ Bol; Ahead (Cat (Star Dot) (Cls Char.digit));
        Grp 1 (Plus (Cls (fun c => Char.digit c || Char.one_of "-." c))); Eol ].

(** [IS_ALPHANUMERIC]: [^(?=.*[0-9])(?=.*[a-zA-Z])([a-zA-Z0-9]+)$] *)
Definition IS_ALPHANUMERIC : regex :=
  Seq [ Bol; Ahead (Cat (Star Dot) (Cls Char.digit));
        Ahead (Cat (Star Dot) (Cls Char.alpha));
        Grp 1 (Plus (Cls Char.alnum)); Eol ].

(** [TAGGED_MULTI_WORD_TOKENIZER]: [([\s.,])] *)
Definition TAGGED_MULTI_WORD_TOKENIZER : regex :=
  Grp 1 (Cls (fun c => Char.space c || Char.one_of ".," c)).

(** [int(pattern.match(token) is not None)] *)
Definition matches (r : regex) (token : string) : bool :=
  match match_start r token with Some _ => true | None => false end.

(** [int(token[0].isupper())] *)
Definition first_is_upper (token : string) : result Z :=
  match token with
  | String c _ => Ok (b2z (Char.upper c))
  | EmptyString => Raise IndexError
  end.

(** [self.punctuations_str] *)
Definition punctuations_str : string :=
  Str.join "" (flat_map snd PUNCTUATIONS).

(** [tokenize_identified_multi_words(text)] *)
Definition tokenize_identified_multi_words (text : string) : list string :=
  List.filter (fun w => negb (Str.eqb w ""))
         (map Str.strip (split true TAGGED_MULTI_WORD_TOKENIZER text)).

(** [compare_string(sub_str, str)] *)
Definition compare_string (sub_str str : string) : bool :=
  existsb (Str.eqb sub_str) (findall0 MATCH_A_WORD str).

Definition is_punct_token (token : string) : bool :=
  match search MATCH_PUNCTUATION token with Some _ => true | None => false end.

(** [lookahead(tokens, index)] and [lookbehind(tokens, index)]: the nearest
    token on that side in which [MATCH_PUNCTUATION] finds nothing *)
Definition lookahead (tokens : list string) (index : nat) : option string :=
  List.find (fun t => negb (is_punct_token t)) (skipn (S index) tokens).

Definition lookbehind (tokens : list string) (index : nat) : option string :=
  List.find (fun t => negb (is_punct_token t)) (List.rev (firstn index tokens)).

(** [x and compare_string(x, text)] for the result of a look-around *)
Definition neighbour_in (x : option string) (text : string) : bool :=
  match x with
  | Some t => negb (Str.eqb t "") && compare_string t text
  | None => false
  end.

(** [next(i for i, v in enumerate(xs) if v in tags)] *)
Fixpoint first_index_in (tags xs : list string) : result nat :=
  match xs with
  | [] => Raise StopIteration
  | x :: xs' => if Str.mem x tags then Ok 0%nat
                else do i <- first_index_in tags xs'; Ok (S i)
  end.

Section WithConfiguration.

(** [self.stopwords], from [REFERENCE_SERVICE_STOP_WORDS] *)
Variable stopwords : list string.

(** [self.academic_publishers_locations_re.search(token) is not None]; the
    pattern is compiled from [REFERENCE_SERVICE_ACADEMIC_PUBLISHERS_LOCATIONS] *)
Variable is_location_name : string -> bool.

(** [re.search(REGEX_PATTERN_WHOLE_WORD_ONLY % token, text) is not None]:
    the token is compiled as a pattern, here by the library *)
Variable whole_word_search : string -> string -> bool.

(** [search(pattern, text)]: any exception of the library gives [False] *)
Definition search_text (pattern : string) (text : pyval) : bool :=
  match text with
  | PStr t => whole_word_search pattern t
  | _ => false
  end.

Section Token.

Variable ref_data : list string.
Variable ref_label : list string.
Variable segment_dict : gmap string pyval.

Definition training : bool := (0 <? length ref_label)%nat.

(** [is_numeric_tag] *)
Definition is_numeric_tag (index : nat) (current_label : string) : result Z :=
  if training then
    do l <- item ref_label index; Ok (b2z (Str.eqb l current_label))
  else
    do w <- item ref_data index;
    do v <- getitem segment_dict (Str.lower current_label);
    Ok (b2z (equals_value w v)).

Definition is_year_tag (index : nat) := is_numeric_tag index "YEAR".
Definition is_volume_tag (index : nat) := is_numeric_tag index "VOLUME".
Definition is_page_tag (index : nat) := is_numeric_tag index "PAGE".
Definition is_issue_tag (index : nat) := is_numeric_tag index "ISSUE".
Definition is_arxiv_tag (index : nat) := is_numeric_tag index "ARXIV".
Definition is_doi_tag (index : nat) := is_numeric_tag index "DOI".
Definition is_issn_tag (index : nat) := is_numeric_tag index "ISSN".
Definition is_ascl_tag (index : nat) := is_numeric_tag index "ASCL".

(** [any(ref_data[index] == segment_dict[tag.lower()] for tag in tags)] *)
Fixpoint any_numeric (index : nat) (tags : list string) : result bool :=
  match tags with
  | [] => Ok false
  | tag :: tags' =>
      do w <- item ref_data index;
      do v <- getitem segment_dict (Str.lower tag);
      if equals_value w v then Ok true else any_numeric index tags'
  end.

(** [is_numeric] *)
Definition is_numeric (index : nat) : result Z :=
  if training then
    do l <- item ref_label index; Ok (b2z (Str.mem l NUMERIC_TAGS))
  else
    do b <- any_numeric index NUMERIC_TAGS; Ok (b2z b).

(** [is_stopword]; [in_training] is [len(ref_label) > 0] for the
    [ref_label] the caller passes *)
Definition is_stopword (in_training : bool) (index : nat) : result Z :=
  if in_training then
    do l <- item ref_label index; Ok (b2z (Str.mem l STOPWORD_TAGS))
  else
    do w <- item ref_data index; Ok (b2z (Str.mem w stopwords)).

(** [is_unknown] *)
Definition is_unknown (index : nat) : result Z :=
  if training then
    do l <- item ref_label index; Ok (b2z (Str.eqb l "NA"))
  else
    do w <- item ref_data index;
    if Str.contains w punctuations_str then Ok 0%Z
    else Ok (b2z (search_text w (get_or_empty segment_dict "unknown")
                  || search_text w (get_or_empty segment_dict "unknown_url"))).

(** the look-around shared by [is_title], [is_journal] and [is_author]:
    [accept] is the test made on the token itself *)
Definition in_field (field : string) (accept : string -> bool) (index : nat) : result Z :=
  let value := get_or_empty segment_dict field in
  do w <- item ref_data index;
  do inside <- py_contains w value;
  if inside && negb (Str.contains w punctuations_str) then
    do text <- as_text value;
    if compare_string w text && accept w then Ok 1%Z
    else if neighbour_in (lookbehind ref_data index) text then Ok 1%Z
    else if neighbour_in (lookahead ref_data index) text then Ok 1%Z
    else Ok 0%Z
  else Ok 0%Z.

(** [is_title] *)
Definition is_title (index : nat) : result Z :=
  if training then
    do l <- item ref_label index;
    Ok (b2z (Str.eqb l "TITLE" || Str.eqb l "BOOK_TITLE"))
  else in_field "title" (fun w => negb (Str.eqb w "and")) index.

(** [is_journal] *)
Definition is_journal (index : nat) : result Z :=
  if training then
    do l <- item ref_label index; Ok (b2z (Str.eqb l "JOURNAL"))
  else in_field "journal" (fun w => (1 <? Str.len w)%nat) index.

(** [is_author] *)
Definition is_author (index : nat) : result Z :=
  if training then
    do l <- item ref_label index; Ok (b2z (Str.mem l AUTHOR_TAGS))
  else in_field "authors"
                (fun w => (1 <? Str.len w)%nat && negb (Str.eqb w "and")) index.

(** [is_publisher] *)
Definition is_publisher (index : nat) : result Z :=
  if training then
    do l <- item ref_label index; Ok (b2z (Str.eqb l "PUBLISHER"))
  else
    do w <- item ref_data index;
    do text <- as_text (get_or_empty segment_dict "publisher");
    Ok (b2z (compare_string w text)).

(** [is_location] *)
Definition is_location (index : nat) : result Z :=
  if training then
    do l <- item ref_label index; Ok (b2z (Str.eqb l "PUBLISHER_LOCATION"))
  else
    do w <- item ref_data index; Ok (b2z (is_location_name w)).

(** [is_editor] *)
Definition is_editor (index : nat) : result Z :=
  if training then
    do l <- item ref_label index; Ok (b2z (Str.mem l EDITOR_TAGS))
  else
    do w <- item ref_data index;
    do editors <- as_text (get_or_empty segment_dict "editors");
    if compare_string w editors then
      do journal <- as_text (get_or_empty segment_dict "journal");
      Ok (b2z (negb (compare_string w journal)))
    else Ok 0%Z.

(** [which_identifying_word] and [which_punctuation]: in training the
    1-based position of the label among the keys of the table *)
Definition which_of_table (table : list (string * list string)) (by_token : string -> Z)
    (index : nat) : result Z :=
  if training then
    do l <- item ref_label index;
    Ok (first_position (fun entry => Str.eqb (fst entry) l) table)
  else
    do w <- item ref_data index; Ok (by_token w).

Definition which_identifying_word := which_of_table IDENTIFYING_WORDS is_identifying_word.
Definition which_punctuation := which_of_table PUNCTUATIONS is_punctuation.

(** The position of a token in a field, from the labels (training):
    [first_tags] and [last_tags] anchor the two ends, [last_offset] is the
    1 that [where_in_author] and [where_in_editor] subtract. *)
Definition where_by_labels (present : bool) (first_tags last_tags : list string)
    (last_offset : nat) (index : nat) : result Z :=
  if present then
    do idx_first <- first_index_in first_tags ref_label;
    if (index =? idx_first)%nat then Ok 1%Z
    else
      do from_end <- first_index_in last_tags (List.rev ref_label);
      let idx_last := (Z.of_nat (length ref_label) - Z.of_nat from_end - Z.of_nat last_offset)%Z in
      if (Z.of_nat index =? idx_last)%Z then Ok 2%Z
      else if (idx_first <? index)%nat && (Z.of_nat index <? idx_last)%Z then Ok 3%Z
      else Ok 0%Z
  else Ok 0%Z.

(** The position of a token in a field, from the segmentation dictionary:
    the common part of [where_in_author], [where_in_editor] and
    [where_in_journal], which differ in the other field that makes the
    token ambiguous and in the test for a middle word. *)
Definition where_by_segment (field other : string) (middle : list string -> nat -> string -> bool)
    (index : nat) : result Z :=
  do n <- py_len (get_or_empty segment_dict field);
  if (0 <? n)%nat then
    do text <- as_text (get_or_empty segment_dict field);
    let token := tokenize_identified_multi_words text in
    do w <- item ref_data index;
    do ambiguous <-
      (if Str.mem w token
       then do o <- as_text (get_or_empty segment_dict other);
            Ok (Str.mem w (tokenize_identified_multi_words o))
       else Ok false);
    if ambiguous then Ok 0%Z
    else
      do t0 <- item token 0;
      if Str.eqb w t0 then Ok 1%Z
      else
        do tl <- item_from_end token 1;
        if Str.eqb w tl then Ok 2%Z
        else if middle token index w then Ok 3%Z
        else Ok 0%Z
  else Ok 0%Z.

Definition middle_by_index (token : list string) (index : nat) (w : string) : bool :=
  (0 <? index)%nat && (index <? length token)%nat.

Definition middle_by_membership (token : list string) (index : nat) (w : string) : bool :=
  Str.mem w token.

Definition contains_author_prefix (l : string) : bool := Str.contains "AUTHOR_" l.

(** [where_in_author] *)
Definition where_in_author (index : nat) : result Z :=
  if training then
    where_by_labels (existsb contains_author_prefix ref_label)
      [ "AUTHOR_LAST_NAME"; "AUTHOR_FIRST_NAME"; "AUTHOR_FIRST_NAME_FULL"; "AUTHOR_COLLABORATION" ]
      [ "AUTHOR_LAST_NAME"; "AUTHOR_FIRST_NAME"; "AUTHOR_FIRST_NAME_FULL"; "ET_AL";
        "AUTHOR_COLLABORATION" ]
      1 index
  else where_by_segment "authors" "journal" middle_by_index index.

(** [where_in_editor] *)
Definition where_in_editor (index : nat) : result Z :=
  if training then
    where_by_labels (existsb (fun l => Str.mem l EDITOR_TAGS) ref_label)
      [ "EDITOR_LAST_NAME"; "EDITOR_FIRST_NAME" ]
      [ "EDITOR_LAST_NAME"; "EDITOR_FIRST_NAME"; "ET_AL" ]
      1 index
  else where_by_segment "editors" "journal" middle_by_index index.

(** [where_in_journal] *)
Definition where_in_journal (index : nat) : result Z :=
  if training then
    where_by_labels (Str.mem "JOURNAL" ref_label) [ "JOURNAL" ] [ "JOURNAL" ] 0 index
  else where_by_segment "journal" "authors" middle_by_membership index.

(** [where_in_title] *)
Definition where_in_title (index : nat) : result Z :=
  if training then
    where_by_labels (Str.mem "TITLE" ref_label || Str.mem "BOOK_TITLE" ref_label)
      [ "TITLE"; "BOOK_TITLE" ] [ "TITLE"; "BOOK_TITLE" ] 0 index
  else
    do n <- py_len (get_or_empty segment_dict "title");
    if (0 <? n)%nat then
      do text <- as_text (get_or_empty segment_dict "title");
      let token := tokenize_identified_multi_words text in
      do two_words <-
        (if (2 <=? length token)%nat && (1 <? index)%nat
            && (Z.of_nat index <? Z.of_nat (length ref_data) - 1)%Z
         then
           do w <- item ref_data index;
           do t0 <- item token 0;
           do starts <- (if Str.eqb w t0
                         then do w1 <- item ref_data (index + 1);
                              do t1 <- item token 1;
                              Ok (Str.eqb w1 t1)
                         else Ok false);
           if starts then Ok 1%Z
           else
             do w <- item ref_data index;
             do tl <- item_from_end token 1;
             do ends <- (if Str.eqb w tl
                         then do w0 <- item ref_data (index - 1);
                              do tl2 <- item_from_end token 2;
                              Ok (Str.eqb w0 tl2)
                         else Ok false);
             if ends then Ok 2%Z else Ok 0%Z
         else Ok 0%Z);
      if negb (two_words =? 0)%Z then Ok two_words
      else
        do w <- item ref_data index;
        do t0 <- item token 0;
        if Str.eqb w t0 then Ok 1%Z
        else
          do tl <- item_from_end token 1;
          if Str.eqb w tl then Ok 2%Z
          else if Str.mem w token then Ok 3%Z
          else
            do unknown <- py_split (get_or_empty segment_dict "unknown");
            if Str.mem w unknown then
              do stop <- is_stopword false index;
              Ok (if (stop =? 0)%Z then 3%Z else 0%Z)
            else Ok 0%Z
    else Ok 0%Z.

(** [1 if where == k else 0] for [k] = 1, ..., [n] *)
Definition one_hot (n : nat) (which : Z) : list Z :=
  map (fun k => b2z (which =? Z.of_nat k)%Z) (seq 1 n).

(** [get_data_features_author] and its three siblings *)
Definition field_block (where_in is_in : nat -> result Z) (index : nat) : result (list Z) :=
  do where_ <- where_in index;
  do member <- is_in index;
  Ok (member :: one_hot 3 where_).

Definition get_data_features_author := field_block where_in_author is_author.
Definition get_data_features_editor := field_block where_in_editor is_editor.
Definition get_data_features_title := field_block where_in_title is_title.
Definition get_data_features_journal := field_block where_in_journal is_journal.

(** [get_data_features_identifying_word] *)
Definition get_data_features_identifying_word (index : nat) : result (list Z) :=
  do which <- which_identifying_word index;
  do w <- item ref_data index;
  Ok (b2z (0 <? is_identifying_word w)%Z :: one_hot 11 which).

(** [get_data_features_punctuation] *)
Definition get_data_features_punctuation (index : nat) : result (list Z) :=
  do which <- which_punctuation index;
  do w <- item ref_data index;
  Ok (b2z (0 <? is_punctuation w)%Z :: one_hot 10 which).

(** [f(ref_data[i])] for the neighbour at [i], and 0 when there is none *)
Definition on_token (f : string -> result Z) (i : nat) : result Z :=
  do w <- item ref_data i; f w.

Definition if_previous (index : nat) (f : nat -> result Z) : result Z :=
  if (0 <? index)%nat then f (index - 1)%nat else Ok 0%Z.

Definition if_next (index : nat) (f : nat -> result Z) : result Z :=
  if (Z.of_nat index <? Z.of_nat (length ref_data) - 1)%Z then f (index + 1)%nat else Ok 0%Z.

(** A feature of the token and of its two neighbours, in that order. *)
Definition with_neighbours (index : nat) (f : nat -> result Z) : list (result Z) :=
  [ f index; if_previous index f; if_next index f ].

(** The leading part of the vector (lines 1193-1227). *)
Definition base_features (index : nat) : list (result Z) :=
  with_neighbours index (on_token (fun w => Ok (Z.of_nat (Str.len w))))
  ++ with_neighbours index (on_token (fun w => Ok (b2z (matches IS_CAPITAL w))))
  ++ with_neighbours index (on_token first_is_upper)
  ++ with_neighbours index (on_token (fun w => Ok (b2z (matches IS_ALPHABET w))))
  ++ with_neighbours index (on_token (fun w => Ok (b2z (matches IS_NUMERIC w))))
  ++ with_neighbours index is_numeric
  ++ with_neighbours index (on_token (fun w => Ok (b2z (matches IS_ALPHANUMERIC w))))
  ++ with_neighbours index (is_stopword training)
  ++ [ is_year_tag index; is_page_tag index; is_volume_tag index; is_issue_tag index;
       is_doi_tag index; is_arxiv_tag index; is_ascl_tag index; is_issn_tag index;
       is_location index; is_publisher index; is_unknown index ].

(** [get_data_features(ref_data, index, ref_label, segment_dict)] *)
Definition get_data_features (index : nat) : result (list Z) :=
  do base <- rsequence (base_features index);
  do author <- get_data_features_author index;
  do title <- get_data_features_title index;
  do journal <- get_data_features_journal index;
  do identifying <- get_data_features_identifying_word index;
  do punctuation <- get_data_features_punctuation index;
  do editor <- get_data_features_editor index;
  Ok (base ++ author ++ title ++ journal ++ identifying ++ punctuation ++ editor).

End Token.

End WithConfiguration.

(** [f] returns on every index below [n] *)
Definition total_on (n : nat) (f : nat -> result Z) : Prop :=
  forall i, (i < n)%nat -> exists z, f i = Ok z.

(** Labels from which [where_in_author] and [where_in_editor] find the
    first word of the field whenever they look for it: a label with
    [AUTHOR_] comes with one that can start the authors, and an editor
    label with one that can start the editors. *)
Definition anchored (ref_label : list string) : bool :=
  implb (existsb contains_author_prefix ref_label)
        (existsb (fun l => Str.mem l [ "AUTHOR_LAST_NAME"; "AUTHOR_FIRST_NAME";
                                       "AUTHOR_FIRST_NAME_FULL"; "AUTHOR_COLLABORATION" ])
                 ref_label)
  && implb (existsb (fun l => Str.mem l EDITOR_TAGS) ref_label)
           (existsb (fun l => Str.mem l [ "EDITOR_LAST_NAME"; "EDITOR_FIRST_NAME" ]) ref_label).

(** no token is the empty string *)
Definition no_empty_token (ref_data : list string) : bool :=
  forallb (fun w => negb (Str.eqb w "")) ref_data.

(** A segmentation dictionary as [segment] builds it, as far as the
    features read it: the numeric keys are there, the fields that are
    tokenized are strings that are empty or have a token, and the two
    fields that are only searched are strings. *)
Definition text_field_ok (segment_dict : gmap string pyval) (field : string) : bool :=
  match get_or_empty segment_dict field with
  | PStr s => (Str.len s =? 0)%nat
              || (0 <? length (tokenize_identified_multi_words s))%nat
  | _ => false
  end.

Definition is_text (segment_dict : gmap string pyval) (field : string) : bool :=
  match get_or_empty segment_dict field with
  | PStr _ => true
  | _ => false
  end.

Definition segment_dict_ok (segment_dict : gmap string pyval) : bool :=
  forallb (fun tag => match segment_dict !! Str.lower tag with Some _ => true | None => false end)
          NUMERIC_TAGS
  && forallb (text_field_ok segment_dict) [ "authors"; "editors"; "title"; "journal" ]
  && forallb (is_text segment_dict) [ "publisher"; "unknown" ].

(** The calls on which [get_data_features] is shown to return: the index
    is in range and no token is empty; with labels there is one label for
    each token and the labels are anchored; without labels the
    segmentation dictionary is as above. *)
Definition call_ok (ref_data ref_label : list string) (segment_dict : gmap string pyval)
    (index : nat) : bool :=
  (index <? length ref_data)%nat && no_empty_token ref_data
  && (if training ref_label
      then (length ref_label =? length ref_data)%nat && anchored ref_label
      else segment_dict_ok segment_dict).

(** A tokenized reference, its labels, and the segmentation dictionary
    that [segment] gives for it. *)
Definition example_words : list string :=
  [ "Smith"; ","; "J"; "."; "2001"; ","; "ApJ"; ","; "42"; ","; "100" ].

Definition example_labels : list string :=
  [ "AUTHOR_LAST_NAME"; "PUNCTUATION_COMMA"; "AUTHOR_FIRST_NAME"; "PUNCTUATION_DOT"; "YEAR";
    "PUNCTUATION_COMMA"; "JOURNAL"; "PUNCTUATION_COMMA"; "VOLUME"; "PUNCTUATION_COMMA"; "PAGE" ].

Definition example_segments : gmap string pyval :=
  list_to_map
    [ ("year", PStr "2001"); ("title", PStr ""); ("journal", PStr "ApJ"); ("publisher", PStr "");
      ("volume", PStr "42"); ("issue", PStr ""); ("page", PStr "100"); ("doi", PStr "");
      ("arxiv", PStr ""); ("issn", PStr ""); ("unknown", PStr ""); ("version", PStr "");
      ("ascl", PStr ""); ("unknown_url", PStr ""); ("authors", PStr "Smith, J.");
      ("editors", PStr "") ].

(** The configuration of the examples: two stop words, no gazetteer, and
    the whole-word search of a token that is free of pattern characters. *)
Definition example_stopwords : list string := [ "and"; "the" ].

Definition example_search (pattern text : string) : bool :=
  match search (whole_word pattern) text with Some _ => true | None => false end.

Definition example_features (ref_data ref_label : list string)
    (segment_dict : gmap string pyval) (index : nat) : result (list Z) :=
  get_data_features example_stopwords (fun _ => false) example_search
    ref_data ref_label segment_dict index.

End Features.

(** ** The parsed reference record ([CRFClassifier.reference]) *)

Module Reference.
Import Re Crf.

(** [ARXIV_ID_EXTRACTOR]; groups: 1 arXiv, 2 the marker, 3 the identifier,
    4 the version.  The identifier is one of
    [\w+\-\w+/\d{4}\.\d{5}], [\w+/\d{4}\.\d{5}], [\d{4}\.\d{4,5}],
    [\w+\-\w+/\d{7}], [\w+/\d{7}], [\d{7}\s*\[?\w+-\w+\]?], [\d{7}\s*\[?\w+\]?],
    after [(ar[Xx]iv)?[\s\:]*] and before [(v?\d* )]. *)
Definition word_run : regex := Plus (Cls Char.word).
Definition digits (n : nat) : regex := Times n (Cls Char.digit).

Definition ARXIV_ID_EXTRACTOR : regex :=
  Grp 1 (Seq [
    Opt (Grp 2 (Seq [ Lit "ar"; Cls (Char.one_of "Xx"); Lit "iv" ]));
    Star (Cls (fun c => Char.space c || Char.same ":" c));
    Grp 3 (Any [
      Seq [ word_run; Chr "-"; word_run; Chr "/"; digits 4; Chr "."; digits 5 ];
      Seq [ word_run; Chr "/"; digits 4; Chr "."; digits 5 ];
      Seq [ digits 4; Chr "."; Range 4 5 (Cls Char.digit) ];
      Seq [ word_run; Chr "-"; word_run; Chr "/"; digits 7 ];
      Seq [ word_run; Chr "/"; digits 7 ];
      Seq [ digits 7; Star (Cls Char.space); Opt (Chr "["); word_run; Chr "-"; word_run;
            Opt (Chr "]") ];
      Seq [ digits 7; Star (Cls Char.space); Opt (Chr "["); word_run; Opt (Chr "]") ] ]);
    Grp 4 (Cat (Opt (Chr "v")) (Star (Cls Char.digit))) ]).

(** [ASCL_ID_EXTRACTOR]: [(?P<ascl>(ascl)[\s\:]*(\d{4}\.\d{3}))] *)
Definition ASCL_ID_EXTRACTOR : regex :=
  Grp 1 (Seq [ Grp 2 (Lit "ascl");
               Star (Cls (fun c => Char.space c || Char.same ":" c));
               Grp 3 (Seq [ digits 4; Chr "."; digits 3 ]) ]).

(** [xs[i]] with Python's negative indices *)
Definition py_item (xs : list string) (i : Z) : result string :=
  let j := if (i <? 0)%Z then (i + Z.of_nat (length xs))%Z else i in
  if (j <? 0)%Z then Raise IndexError
  else match xs !! Z.to_nat j with
       | Some x => Ok x
       | None => Raise IndexError
       end.

(** [words[labels.index(tag)]], asked only when [tag in labels] *)
Definition word_of (words labels : list string) (tag : string) : result string :=
  match Str.index_of tag labels with
  | Some i => py_item words (Z.of_nat i)
  | None => Raise ValueError
  end.

(** [[words[i] for i, l in enumerate(labels) if keep l]] *)
Fixpoint words_where (keep : string -> bool) (words labels : list string) (i : nat)
  : result (list string) :=
  match labels with
  | [] => Ok []
  | l :: labels' =>
      if keep l then
        do w <- py_item words (Z.of_nat i);
        do rest <- words_where keep words labels' (S i);
        Ok (w :: rest)
      else words_where keep words labels' (S i)
  end.

(** the separator put before an author token (lines 504-510) *)
Definition author_glue (words labels : list string) (i : nat) (l : string) (name : list string)
  : result (list string) :=
  if (Str.startswith "AUTHOR_" l || Str.mem l ["AND"; "&"; "ET_AL"]) && (0 <? length name)%nat
  then
    do previous <- py_item labels (Z.of_nat i - 1);
    if Str.mem "PUNCTUATION_COMMA" labels && negb (Str.eqb previous "PUNCTUATION_HYPEN")
    then Ok (name ++ [" "])
    else if Str.eqb previous "AUTHOR_LAST_NAME" then Ok (name ++ [", "])
    else if Str.mem previous ["AUTHOR_FIRST_NAME"; "AUTHOR_FIRST_NAME_FULL"; "AUTHOR_MIDDLE_NAME"]
    then do w <- py_item words (Z.of_nat i - 1);
         Ok (if (Str.len w =? 1)%nat then name ++ [". "] else name)
    else Ok name
  else Ok name.

(** [name.pop()] when [name[-1] == ','] *)
Definition drop_trailing_comma (name : list string) : list string :=
  match List.rev name with
  | last :: before => if Str.eqb last "," then List.rev before else name
  | [] => name
  end.

(** the loop over [enumerate(zip(words, labels))] (lines 502-517) *)
Fixpoint author_loop (words labels : list string) (pairs : list (string * string)) (i : nat)
    (name : list string) : result (list string) :=
  match pairs with
  | [] => Ok name
  | (w, l) :: pairs' =>
      if Str.mem l AUTHOR_TAGS then
        do name <- author_glue words labels i l name;
        author_loop words labels pairs' (S i) (name ++ [w])
      else if (0 <? length name)%nat then Ok (drop_trailing_comma name)
      else Ok name
  end.

(** [doi[doi.find('10'):]]; [find] gives -1 when there is no ['10'] *)
Definition from_ten (doi : string) : string :=
  match Str.find "10" doi with
  | Some i => Str.drop i doi
  | None => Str.drop (Str.len doi - 1) doi
  end.

Definition found (r : regex) (g : nat) (word : string) : option string :=
  match search r word with
  | Some m => Some (Str.replace " " "" (group_or_empty g m))
  | None => None
  end.

(** [tagged_doi_but_arxiv_or_ascl(words, labels)] *)
Definition tagged_doi_but_arxiv_or_ascl (words labels : list string) : result (string * string) :=
  if Str.mem "DOI" labels then
    do w <- word_of words labels "DOI";
    match found ARXIV_ID_EXTRACTOR 1 w with
    | Some arXiv => Ok ("arxiv", arXiv)
    | None =>
        do w <- word_of words labels "DOI";
        match found ASCL_ID_EXTRACTOR 1 w with
        | Some ascl => Ok ("ascl", ascl)
        | None => Ok ("", "")
        end
    end
  else Ok ("", "").

(** [identifier_arxiv_or_ascl(words, labels)] *)
Definition identifier_arxiv_or_ascl (words labels : list string) : result (string * string) :=
  do arxiv <-
    (if Str.mem "ARXIV" labels then
       do w <- word_of words labels "ARXIV"; Ok (found ARXIV_ID_EXTRACTOR 1 w)
     else Ok None);
  match arxiv with
  | Some arXiv => Ok ("arxiv", arXiv)
  | None =>
      if Str.mem "ASCL" labels || Str.mem "ARXIV" labels then
        do w <- word_of words labels (if Str.mem "ASCL" labels then "ASCL" else "ARXIV");
        match found ASCL_ID_EXTRACTOR 1 w with
        | Some ascl => Ok ("ascl", ascl)
        | None => Ok ("", "")
        end
      else Ok ("", "")
  end.

(** [ref_dict[key] = words[labels.index(tag)]] under [if tag in labels] *)
Definition set_from_label (words labels : list string) (tag key : string)
    (ref_dict : gmap string string) : result (gmap string string) :=
  if Str.mem tag labels then
    do w <- word_of words labels tag; Ok (<[key := w]> ref_dict)
  else Ok ref_dict.

(** [ref_dict[identifier_tag] = identifier] under [if len(identifier) > 0] *)
Definition set_identifier (tagged : string * string) (ref_dict : gmap string string)
  : gmap string string :=
  if (0 <? Str.len (snd tagged))%nat then <[fst tagged := snd tagged]> ref_dict else ref_dict.

(** lines 521-531 *)
Definition set_volume (words labels : list string) (ref_dict : gmap string string)
  : result (gmap string string) :=
  if Str.mem "VOLUME" labels then
    do volume <- words_where (Str.eqb "VOLUME") words labels 0;
    match volume with
    | [v] => Ok (<["volume" := v]> ref_dict)
    | _ => match List.find Str.isdigit volume with
           | Some v => Ok (<["volume" := v]> ref_dict)
           | None => Ok ref_dict
           end
    end
  else Ok ref_dict.

(** lines 553-563 *)
Definition set_joined (words labels : list string) (tag key : string) (keep : string -> bool)
    (ref_dict : gmap string string) : result (gmap string string) :=
  if Str.mem tag labels then
    do ws <- words_where keep words labels 0;
    Ok (<[key := strip (Str.join " " ws) "in"]> ref_dict)
  else Ok ref_dict.

Section WithClassifier.

(** [self.extract_doi], which each of the two classifiers defines *)
Variable extract_doi : string -> result string.

(** lines 536-546 *)
Definition set_doi (words labels : list string) (ref_dict : gmap string string)
  : result (gmap string string) :=
  if Str.mem "DOI" labels then
    do w <- word_of words labels "DOI";
    do doi <- extract_doi w;
    if (0 <? Str.len doi)%nat then Ok (<["doi" := from_ten doi]> ref_dict)
    else
      do tagged <- tagged_doi_but_arxiv_or_ascl words labels;
      Ok (set_identifier tagged ref_dict)
  else Ok ref_dict.

(** lines 547-550 *)
Definition set_arxiv_or_ascl (words labels : list string) (ref_dict : gmap string string)
  : result (gmap string string) :=
  if Str.mem "ARXIV" labels || Str.mem "ASCL" labels then
    do tagged <- identifier_arxiv_or_ascl words labels;
    Ok (set_identifier tagged ref_dict)
  else Ok ref_dict.

(** [reference(refstr, words, labels)] *)
Definition reference (refstr : string) (words labels : list string)
  : result (gmap string string) :=
  do name <- author_loop words labels (combine words labels) 0 [];
  let ref_dict : gmap string string := <["authors" := Str.join "" name]> ∅ in
  do ref_dict <- set_from_label words labels "YEAR" "year" ref_dict;
  do ref_dict <- set_volume words labels ref_dict;
  do ref_dict <- set_from_label words labels "PAGE" "page" ref_dict;
  do ref_dict <- set_from_label words labels "ISSUE" "issue" ref_dict;
  do ref_dict <- set_doi words labels ref_dict;
  do ref_dict <- set_arxiv_or_ascl words labels ref_dict;
  do ref_dict <- set_from_label words labels "ISSN" "ISSN" ref_dict;
  do ref_dict <- set_joined words labels "JOURNAL" "journal" (Str.eqb "JOURNAL") ref_dict;
  do ref_dict <- set_joined words labels "TITLE" "title"
                   (fun l => Str.eqb l "TITLE" || Str.eqb l "BOOK_TITLE") ref_dict;
  Ok (<["refstr" := refstr]> ref_dict).

End WithClassifier.

(** [CRFClassifierXML.extract_doi] returns its argument. *)
Definition extract_doi_xml (reference_str : string) : result string := Ok reference_str.

(** The keys a record returned by [reference] may have. *)
Definition record_keys : gset string :=
  {[ "authors"; "year"; "volume"; "page"; "issue"; "doi"; "arxiv"; "ascl"; "ISSN";
     "journal"; "title"; "refstr" ]}.

(** the key that a step adds, if it adds one *)
Definition adds (b : bool) (key : string) : gset string :=
  if b then {[ key ]} else ∅.

End Reference.

(** ** Label codes ([CRFClassifier.encoder], [CRFClassifier.decoder]) *)

Module LabelCode.

(** A Python [dict] from labels to codes, as the list of its items in
    insertion order. *)
Definition label_code := list (string * Z).

(** [l in label_code] *)
Definition has_key (d : label_code) (l : string) : bool :=
  existsb (fun kv => Str.eqb (fst kv) l) d.

(** [label_code[l] = numeric]: a new key goes to the end, a key that is
    there keeps its place and takes the new value *)
Fixpoint set_item (d : label_code) (l : string) (numeric : Z) : label_code :=
  match d with
  | [] => [(l, numeric)]
  | (k, v) :: d' => if Str.eqb k l then (k, numeric) :: d' else (k, v) :: set_item d' l numeric
  end.

(** [label_code[l]] *)
Fixpoint get_item (d : label_code) (l : string) : result Z :=
  match d with
  | [] => Raise KeyError
  | (k, v) :: d' => if Str.eqb k l then Ok v else get_item d' l
  end.

(** the body of the inner loop of [encoder] *)
Definition encoder_step (state : label_code * Z) (l : string) : label_code * Z :=
  let '(label_code, numeric) := state in
  if (0 <=? numeric)%Z && has_key label_code l then state
  else (set_item label_code l (numeric + 1), (numeric + 1)%Z).

(** [encoder(labels)] *)
Definition encoder (labels : list (list string)) : label_code :=
  fst (fold_left (fun state label => fold_left encoder_step label state) labels ([], (-1)%Z)).

(** [next(key for key, value in self.label_code.items() if value == nl)] *)
Fixpoint key_of (d : label_code) (nl : Z) : result string :=
  match d with
  | [] => Raise StopIteration
  | (k, v) :: d' => if (v =? nl)%Z then Ok k else key_of d' nl
  end.

(** [decoder(numeric_label)] *)
Fixpoint decoder (d : label_code) (numeric_label : list Z) : result (list string) :=
  match numeric_label with
  | [] => Ok []
  | nl :: rest => do key <- key_of d nl; do keys <- decoder d rest; Ok (key :: keys)
  end.

(** the numeric label sequence that [format_training_data] builds for one
    reference: [[label_code[l] for l in label]] *)
Fixpoint encode (d : label_code) (label : list string) : result (list Z) :=
  match label with
  | [] => Ok []
  | l :: rest => do c <- get_item d l; do cs <- encode d rest; Ok (c :: cs)
  end.

(** The keys and the codes of the table, in the order of its items. *)
Definition keys (d : label_code) : list string := map fst d.
Definition codes (d : label_code) : list Z := map snd d.

(** The codes are 0, 1, 2, ... in the order of the items. *)
Definition dense (d : label_code) : Prop :=
  codes d = map Z.of_nat (seq 0 (length d)).

(** The state of the loop of [encoder] is well formed when the codes are
    dense, the keys are distinct and [numeric] is the code given last. *)
Definition well_formed (state : label_code * Z) : Prop :=
  dense (fst state) /\ NoDup (keys (fst state))
  /\ snd state = (Z.of_nat (length (fst state)) - 1)%Z.

(** the run of the inner loop over a sequence of labels *)
Definition run (state : label_code * Z) (ls : list string) : label_code * Z :=
  fold_left encoder_step ls state.

End LabelCode.

(** ** Training ([CRFClassifier.create_crf]) *)

Module Training.

(** What one pass through the [try] block does: the fit and the evaluation
    come from the learner, so an attempt either yields the held-out score
    or raises, with the message that is logged. *)
Inductive attempt : Type :=
| Scored (score : Q)
| Failed (message : string).

(** The float literal [0.90]: the double nearest to 9/10. *)
Definition threshold : Q := 8106479329266893 # 9007199254740992.

Record outcome : Type := Outcome {
  accepted : bool;              (* the value returned *)
  attempts_made : nat;          (* passes through the loop body *)
  final_score : Q;              (* [score] when the loop ends *)
  errors_logged : list string   (* messages of the attempts that raised *)
}.

Section Loop.

(** the [k]-th attempt, counted from 0 *)
Variable attempts : nat -> attempt.

(** the [while] loop: [num_tries] passes are left, [k] have been made *)
Fixpoint retry (num_tries k : nat) (score : Q) (log : list string) : nat * Q * list string :=
  match num_tries with
  | O => (k, score, log)
  | S num_tries' =>
      if Qle_bool score threshold then
        match attempts k with
        | Scored s => retry num_tries' (S k) s log
        | Failed message => retry num_tries' (S k) score (log ++ [message])
        end
      else (k, score, log)
  end.

(** [create_crf()], given the flag that [load_training_data] returns *)
Definition create_crf (generate_fold : bool) : outcome :=
  let num_tries := if generate_fold then 10%nat else 1%nat in
  let '(k, score, log) := retry num_tries 0 0%Q [] in
  Outcome (negb (Qle_bool score 0)) k score log.

(** What the first [n] attempts leave behind: the score of the latest one
    that completed (the initial 0 when none did), and the messages of those
    that raised. *)
Fixpoint standing_score (n : nat) : Q :=
  match n with
  | O => 0%Q
  | S n' => match attempts n' with
            | Scored s => s
            | Failed _ => standing_score n'
            end
  end.

Fixpoint messages (n : nat) : list string :=
  match n with
  | O => []
  | S n' => match attempts n' with
            | Scored _ => messages n'
            | Failed message => messages n' ++ [message]
            end
  end.

(** the loop goes on after [n] attempts: [score <= 0.90] *)
Definition goes_on (n : nat) : bool := Qle_bool (standing_score n) threshold.

End Loop.

(** A run in which the first attempt scores 0.5 and every later one raises. *)
Definition one_score_then_failures (k : nat) : attempt :=
  match k with
  | O => Scored (1 # 2)
  | S _ => Failed "fit failed"
  end.

End Training.

(** * Shared primitives: [referencesrv/resolver/common.py] *)

Module Evidence.

Record Evidences : Type := MkEvidences {
  evidences : list Q;
  labels : list string;
  score : option Q;          (* the cached sum, [None] when not computed *)
  min_score : Q;
  max_score : Q
}.

(** [Evidences()], with [EVIDENCE_SCORE_RANGE] of the configuration *)
Definition new (range_min range_max : Q) : Evidences :=
  MkEvidences [] [] None range_min range_max.

(** [self.min_score <= ev <= self.max_score] *)
Definition in_range (self : Evidences) (ev : Q) : bool :=
  Qle_bool (min_score self) ev && Qle_bool ev (max_score self).

(** [add_evidence(evidence, label)] *)
Definition add_evidence (self : Evidences) (evidence : Q) (label : string) : result Evidences :=
  if in_range self evidence then
    Ok (MkEvidences (evidences self ++ [evidence]) (labels self ++ [label]) None
                    (min_score self) (max_score self))
  else Raise AssertionError.

(** [self + other] ([__add__]): every score of [other] is asserted against
    the range of [self] before anything is changed *)
Definition add (self other : Evidences) : result Evidences :=
  if forallb (in_range self) (evidences other) then
    Ok (MkEvidences (evidences self ++ evidences other) (labels self ++ labels other) None
                    (min_score self) (max_score self))
  else Raise AssertionError.

(** [self] after the scores [evs] have been appended under the labels
    [ls]: the cached sum is dropped, the range stays *)
Definition appended (self : Evidences) (evs : list Q) (ls : list string) : Evidences :=
  MkEvidences (evidences self ++ evs) (labels self ++ ls) None
              (min_score self) (max_score self).

(** every score held lies within the range of the object *)
Definition all_in_range (self : Evidences) : Prop :=
  Forall (fun ev => (min_score self <= ev <= max_score self)%Q) (evidences self).

(** [sum(self.evidences)] *)
Definition sum (self : Evidences) : Q := fold_left Qplus (evidences self) 0%Q.

(** [has_veto()] *)
Definition has_veto (self : Evidences) : bool :=
  existsb (fun e => Qle_bool e 0) (evidences self).

(** Python's [min(a, b)] and [max(a, b)]: the first argument unless the
    second is strictly smaller (larger) *)
Definition py_min (a b : Q) : Q := if Qle_bool a b then a else b.
Definition py_max (a b : Q) : Q := if Qle_bool b a then a else b.

Section AuthorEvidence.

(** [current_app.config['EVIDENCE_SCORE_RANGE']] and
    [current_app.config['MISSING_FIRST_AUTHOR_FACTOR']] *)
Variable range_min range_max : Q.
Variable missing_first_author_factor : Q.

(** [count_matching_authors(ref_authors, ads_authors, ads_first_author)],
    which gives (missing_in_ref, missing_in_ads, matching_authors,
    first_author_missing); it rests on the edit-distance library *)
Variable count_matching_authors :
  string -> list string -> option string -> result (nat * nat * nat * bool).

(** [round(x, 2)] *)
Variable round2 : Q -> Q.

Definition clamp (score : Q) : Q := py_max range_min (py_min range_max score).

(** the score of lines 495-507, before it is clamped *)
Definition author_score (ads_authors : list string) (has_etal : bool)
    (counts : nat * nat * nat * bool) : Q :=
  let '(missing_in_ref, missing_in_ads, matching_authors, first_author_missing) := counts in
  let normalizer : Q :=
    if has_etal then inject_Z (Z.of_nat (matching_authors + missing_in_ads))
    else inject_Z (Z.of_nat (length ads_authors)) in
  let matching : Q :=
    if first_author_missing
    then (inject_Z (Z.of_nat matching_authors) * missing_first_author_factor)%Q
    else inject_Z (Z.of_nat matching_authors) in
  if Qeq_bool normalizer 0 then 0%Q
  else round2 ((matching - inject_Z (Z.of_nat missing_in_ads)) / normalizer)%Q.

(** [add_author_evidence(evidences, ref_authors, ads_authors,
    ads_first_author, has_etal)]; the function returns nothing and changes
    [evidences] in place, so the model returns the object after the call *)
Definition add_author_evidence (evidences : Evidences) (ref_authors : string)
    (ads_authors : list string) (ads_first_author : option string) (has_etal : bool)
  : result Evidences :=
  let ref_authors := Str.replace "-" " " ref_authors in
  if (Str.len ref_authors =? 0)%nat || (length ads_authors =? 0)%nat then Ok evidences
  else
    do counts <- count_matching_authors ref_authors ads_authors ads_first_author;
    add_evidence evidences (clamp (author_score ads_authors has_etal counts)) "authors".

End AuthorEvidence.

End Evidence.

(** * More of the three files

    Functions that the definitions above call or lie next to, with the
    conventions of the embedding as they are stated at the top. *)

(** ** Reading an [Evidences] object ([Evidences] in [common.py]) *)

Module Scores.
Import Evidence.

(** [len(self)] ([__len__]) *)
Definition len (self : Evidences) : nat := length (evidences self).

(** [get_score()]: the value returned, and the object after the call, in
    which the cached sum has been filled when it was not *)
Definition get_score (self : Evidences) : Q * Evidences :=
  match evidences self with
  | [] => (0%Q, self)
  | _ :: _ =>
      match score self with
      | Some s => (s, self)
      | None =>
          let s := sum self in
          (s, MkEvidences (evidences self) (labels self) (Some s)
                          (min_score self) (max_score self))
      end
  end.

(** [dict(zip(labels, evidences)).get(label)]: [zip] stops with the shorter
    list, and of two pairs with one label the later one stays *)
Fixpoint zip_lookup (label : string) (ls : list string) (evs : list Q) : option Q :=
  match ls, evs with
  | l :: ls', e :: evs' =>
      match zip_lookup label ls' evs' with
      | Some e' => Some e'
      | None => if Str.eqb l label then Some e else None
      end
  | _, _ => None
  end.

(** [self[label]] ([__getitem__]); [None] is Python's [None] *)
Definition getitem (self : Evidences) (label : string) : result (option Q) :=
  if Str.mem label (labels self) then
    match zip_lookup label (labels self) (evidences self) with
    | Some e => Ok (Some e)
    | None => Raise KeyError
    end
  else Ok None.

(** [[ind for ind, ev in enumerate(self.evidences) if ev <= 0]] *)
Fixpoint neg_inds_from (ind : nat) (evs : list Q) : list nat :=
  match evs with
  | [] => []
  | ev :: evs' =>
      if Qle_bool ev 0 then ind :: neg_inds_from (S ind) evs' else neg_inds_from (S ind) evs'
  end.

Definition neg_inds (self : Evidences) : list nat := neg_inds_from 0 (evidences self).

(** [single_veto_from(field_label)] *)
Definition single_veto_from (self : Evidences) (field_label : string) : result bool :=
  match neg_inds self with
  | [ind] =>
      match labels self !! ind with
      | Some l => Ok (Str.eqb l field_label)
      | None => Raise IndexError
      end
  | _ => Ok false
  end.

(** The objects that the methods of the class build: a new one, one after
    [add_evidence], one after [+], one after [get_score]. *)
Inductive built : Evidences -> Prop :=
| built_new (range_min range_max : Q) : built (new range_min range_max)
| built_add_evidence (self after : Evidences) (evidence : Q) (label : string) :
    built self -> add_evidence self evidence label = Ok after -> built after
| built_add (self other after : Evidences) :
    built self -> built other -> add self other = Ok after -> built after
| built_get_score (self : Evidences) : built self -> built (snd (get_score self)).

(** the score entered last under [label], if any *)
Definition last_under (label : string) (self : Evidences) : option Q :=
  match List.find (fun le => Str.eqb (fst le) label)
                  (List.rev (combine (labels self) (evidences self))) with
  | Some le => Some (snd le)
  | None => None
  end.

(** The right operand of a comparison: another object of the class, a
    number, or [None]. *)
Inductive operand : Type :=
| an_evidences (other : Evidences)
| a_number (other : Q)
| none.

Inductive comparison : Type := Lt | Le | Gt | Ge | Eq.

(** [a < b], [a <= b], [a > b], [a >= b], [a == b] on two scores *)
Definition holds (op : comparison) (a b : Q) : bool :=
  match op with
  | Lt => negb (Qle_bool b a)
  | Le => Qle_bool a b
  | Gt => negb (Qle_bool a b)
  | Ge => Qle_bool b a
  | Eq => Qeq_bool a b
  end.

(** [__lt__], [__le__], [__gt__], [__ge__], [__eq__]: the scores are
    compared; an operand without [get_score] raises [AttributeError] after
    [self.get_score()] was called once, and the handler calls it again,
    unless the operand is false as a condition ([None], zero). *)
Definition compared (op : comparison) (self : Evidences) (other : operand) : bool :=
  let '(score, self') := get_score self in
  match other with
  | an_evidences o => holds op score (fst (get_score o))
  | a_number o => if Qeq_bool o 0 then false else holds op (fst (get_score self')) o
  | none => false
  end.

End Scores.

(** ** The training matrices ([CRFClassifier.format_training_data]) *)

Module TrainingData.
Import Crf Features LabelCode.

Section WithConfiguration.

Variable stopwords : list string.
Variable is_location_name : string -> bool.
Variable whole_word_search : string -> string -> bool.

(** the body of the loop over the references: the numeric labels of one
    reference, then the feature vector of each of its words, computed with
    the labels and the default (empty) segmentation dictionary *)
Definition format_reference (label_code : label_code) (label word : list string)
  : result (list (list Z) * list Z) :=
  do numeric_label <- encode label_code label;
  do feature <-
    rsequence (map (fun idx => get_data_features stopwords is_location_name whole_word_search
                                 word label ∅ idx)
                   (seq 0 (length word)));
  Ok (feature, numeric_label).

(** [format_training_data(the_data)]: a reference is a list of pairs
    (label, word); the value is (features, numeric_labels, label_code) *)
Definition format_training_data (the_data : list (list (string * string)))
  : result (list (list (list Z)) * list (list Z) * label_code) :=
  let labels := map (map fst) the_data in
  let words := map (map snd) the_data in
  let label_code := encoder labels in
  do formatted <-
    rsequence (map (fun lw => format_reference label_code (fst lw) (snd lw))
                   (combine labels words));
  Ok (map fst formatted, map snd formatted, label_code).

End WithConfiguration.

(** Training data on which [format_training_data] is shown to return: no
    word is empty, and the labels of each reference are anchored. *)
Definition usable (the_data : list (list (string * string))) : bool :=
  forallb (fun ref => no_empty_token (map snd ref) && anchored (map fst ref)) the_data.

End TrainingData.

(** ** Indicators of the feature vector *)

Module Indicators.

(** a feature that is an indicator: 0 or 1 *)
Definition binary (z : Z) : Prop := z = 0%Z \/ z = 1%Z.

(** the number of indicators that are set *)
Definition set_bits (zs : list Z) : Z := fold_right Z.add 0%Z zs.

(** a feature function all of whose values are indicators *)
Definition binary_valued (f : nat -> result Z) : Prop :=
  forall i z, f i = Ok z -> binary z.

End Indicators.

(** ** Shapes of author names, further ([authors.py]) *)

Module AuthorShape.
Import Re Authors.

(** the place of a shape in [patterns] *)
Definition pattern_index (p : author_pattern) : nat :=
  match p with
  | TrailingInit => 0
  | LeadingInit => 1
  | TrailingFull => 2
  | LeadingFull => 3
  end.

(** the number of characters of [ref_string] that the matches of a shape
    account for from its start: the entry of [lengths] for the shape *)
Definition matched_length (ref_string : string) (p : author_pattern) : nat :=
  nth (pattern_index p) (pattern_lengths ref_string) 0%nat.

(** A pattern whose matches depend on the text from the position on only:
    it has no word boundary, no start anchor and no look-ahead. *)
Fixpoint plain (r : regex) : bool :=
  match r with
  | Eps | Cls _ | Eol => true
  | Cat a b | Alt a b => plain a && plain b
  | Star a | Grp _ a => plain a
  | WordB | NotWordB | Bol | Ahead _ | NotAhead _ => false
  end.

(** The loop of [rmatch] for [Star], by name: [step] is the match of the
    starred pattern, [k] what follows the star. *)
Section StarLoop.

Variable step : (mstate -> option mstate) -> mstate -> option mstate.
Variable k : mstate -> option mstate.

Fixpoint star_loop (fuel : nat) (s : mstate) {struct fuel} : option mstate :=
  match fuel with
  | O => k s
  | S fuel' =>
      match step (fun s' => if (m_pos s <? m_pos s')%nat
                            then star_loop fuel' s' else None) s with
      | Some e => Some e
      | None => k s
      end
  end.

End StarLoop.

(** two states of the matcher with the same text ahead, at positions
    that differ by a fixed amount *)
Definition same_text (d1 d2 : nat) (s s' : mstate) : Prop :=
  m_rest s = m_rest s' /\ (m_pos s + d1 = m_pos s' + d2)%nat.

End AuthorShape.

(** ** Tokens ([REFERENCE_TOKENIZER], and the tokens of a field) *)

Module Tokens.
Import Re Crf Features.

(** [REFERENCE_TOKENIZER]: one group with one class, that of white space,
    of the characters . , ( ) : ; [ ] # / - and of the double quote *)
Definition reference_separator (c : ascii) : bool :=
  Char.space c || Char.one_of ".,():;[]#/-" c || Char.same (ascii_of_nat 34) c.

Definition REFERENCE_TOKENIZER : regex := Grp 1 (Cls reference_separator).

(** the separators of [TAGGED_MULTI_WORD_TOKENIZER] *)
Definition field_separator (c : ascii) : bool := Char.space c || Char.one_of ".," c.

(** [filter(None, [w.strip() for w in REFERENCE_TOKENIZER.split(reference_str)])]:
    the tokens of a reference in which no identifier, page or URL was
    segmented ([CRFClassifierText.classify]) *)
Definition tokenize_reference (reference_str : string) : list string :=
  List.filter (fun w => negb (Str.eqb w ""))
              (map Str.strip (split true REFERENCE_TOKENIZER reference_str)).

(** The matches of a pattern that is one class of characters, in one
    group: one for each character of the class, from left to right. *)
Fixpoint class_matches (p : ascii -> bool) (s : string) (pos : nat) : list mobj :=
  match s with
  | EmptyString => []
  | String c s' =>
      if p c
      then MObj pos (S pos) (String c "") [(1%nat, String c "")] :: class_matches p s' (S pos)
      else class_matches p s' (S pos)
  end.

(** What [split] gives for such a pattern: the text between the characters
    of the class, and each of these characters, in turn. *)
Fixpoint split_chars (p : ascii -> bool) (s : string) : list string :=
  match s with
  | EmptyString => [""]
  | String c s' =>
      if p c then "" :: String c "" :: split_chars p s'
      else match split_chars p s' with
           | first :: rest => String c first :: rest
           | [] => [String c ""]
           end
  end.

(** a piece of such a split: one character of the class, or a text without
    any *)
Definition piece (p : ascii -> bool) (w : string) : Prop :=
  (exists c, w = String c "" /\ p c = true)
  \/ Str.all_chars (fun c => negb (p c)) w = true.

(** the text without its white space *)
Definition without_space (s : string) : string :=
  string_of_list_ascii (List.filter (fun c => negb (Char.space c)) (list_ascii_of_string s)).

(** a token as a tokenizer with the separators [p] gives it: one separator
    that is not white space, or a text without separator *)
Definition token_of (p : ascii -> bool) (t : string) : Prop :=
  t <> ""
  /\ ((exists c, t = String c "" /\ p c = true /\ Char.space c = false)
      \/ Str.all_chars (fun c => negb (p c)) t = true).

End Tokens.

(** ** Tagged references ([CRFClassifierXML]) *)

Module Xml.
Import Crf Features Reference.

(** [SEGMENT_DICT_KEYS] *)
Definition SEGMENT_DICT_KEYS : list string :=
  [ "year"; "title"; "journal"; "publisher"; "volume"; "issue"; "page"; "doi"; "arxiv";
    "issn"; "unknown"; "version"; "ascl"; "unknown_url" ].

(** [s.upper()] on ASCII text *)
Definition to_upper (c : ascii) : ascii :=
  if Char.lower c then ascii_of_N (Char.code c - 32) else c.

Definition upper (s : string) : string :=
  string_of_list_ascii (map to_upper (list_ascii_of_string s)).

(** what one pair (label, word) appends to [name] in [merge_authors] *)
Definition author_piece (lw : string * string) : list string :=
  let '(l, w) := lw in
  if Str.mem l AUTHOR_TAGS then
    if Str.eqb l "AUTHOR_LAST_NAME" then [ w; " " ]
    else if Str.mem l [ "AUTHOR_FIRST_NAME"; "AUTHOR_FIRST_NAME_FULL"; "AUTHOR_MIDDLE_NAME";
                        "ET_AL" ]
         then [ w; " " ]
         else [ w ]
  else [].

(** [name.pop()] when [name[-1] == ' '] *)
Definition drop_trailing_space (name : list string) : list string :=
  match List.rev name with
  | last :: before => if Str.eqb last " " then List.rev before else name
  | [] => name
  end.

(** [merge_authors(reference_list)] *)
Definition merge_authors (reference_list : list (string * string)) : string :=
  Str.join "" (drop_trailing_space (flat_map author_piece reference_list)).

(** the labels and words that one element gives in [segment]: the dot that
    ends an initial, a full first name or a journal becomes a word of its
    own *)
Definition split_dot (elem : string * string) : list (string * string) :=
  let '(l, w) := elem in
  if Str.mem l [ "AUTHOR_FIRST_NAME"; "AUTHOR_FIRST_NAME_FULL"; "AUTHOR_MIDDLE_NAME"; "JOURNAL" ]
     && Str.endswith "." w
  then [ (l, Str.drop_last w); ("PUNCTUATION_DOT", ".") ]
  else [ (l, w) ].

(** [[i for i in range(len(words)) if labels[i] == current_label]] *)
Fixpoint indices_of (labels : list string) (current_label : string) (range : list nat)
  : result (list nat) :=
  match range with
  | [] => Ok []
  | i :: range' =>
      do l <- item labels i;
      do rest <- indices_of labels current_label range';
      Ok (if Str.eqb l current_label then i :: rest else rest)
  end.

(** [get_labeled_multi_words(words, labels, current_label)] *)
Definition get_labeled_multi_words (words labels : list string) (current_label : string)
  : result (list string) :=
  do indices <- indices_of labels current_label (seq 0 (length words));
  rsequence (map (item words) indices).

(** the body of the loop over [SEGMENT_DICT_KEYS] in [segment] *)
Definition segment_key (words labels : list string)
    (state : gmap string pyval * list string) (key : string)
  : result (gmap string pyval * list string) :=
  let '(segment_dict, ref_words) := state in
  if Str.mem (upper key) labels then
    do words_for_label <- get_labeled_multi_words words labels (upper key);
    Ok (<[key := PStr (Str.join " " words_for_label)]> segment_dict,
        ref_words ++ words_for_label)
  else Ok (<[key := PStr ""]> segment_dict, ref_words).

Fixpoint segment_keys (words labels : list string) (keys : list string)
    (state : gmap string pyval * list string) : result (gmap string pyval * list string) :=
  match keys with
  | [] => Ok state
  | key :: keys' =>
      do state <- segment_key words labels state key;
      segment_keys words labels keys' state
  end.

(** [segment(reference_list)] for a list of pairs (label, word); the value
    is (segment_dict, ref_words) *)
Definition segment (reference_list : list (string * string))
  : result (gmap string pyval * list string) :=
  let tagged := flat_map split_dot reference_list in
  let labels := map fst tagged in
  let words := map snd tagged in
  let authors := merge_authors reference_list in
  let segment_dict : gmap string pyval := <["authors" := PStr authors]> ∅ in
  let ref_words :=
    if (0 <? Str.len authors)%nat then tokenize_identified_multi_words authors else [] in
  do state <- segment_keys words labels SEGMENT_DICT_KEYS (segment_dict, ref_words);
  let '(segment_dict, ref_words) := state in
  do refstr <- word_of words labels "REFSTR";
  let segment_dict := <["refstr" := PStr refstr]> segment_dict in
  do refplaintext <-
    (if Str.mem "REFPLAINTEXT" labels
     then do w <- word_of words labels "REFPLAINTEXT"; Ok (PStr w)
     else Ok PNone);
  Ok (<["refplaintext" := refplaintext]> segment_dict, ref_words).

Section WithConfiguration.

Variable stopwords : list string.
Variable is_location_name : string -> bool.
Variable whole_word_search : string -> string -> bool.

(** the features that [classify] computes: one vector for each word that
    [segment] returns, without labels, with the segmentation dictionary *)
Definition classify_features (reference_list : list (string * string))
  : result (list (list Z)) :=
  do state <- segment reference_list;
  let '(segment_dict, ref_words) := state in
  rsequence (map (get_data_features stopwords is_location_name whole_word_search
                    ref_words [] segment_dict)
                 (seq 0 (length ref_words))).

End WithConfiguration.

(** a word of white space only (the empty word is one) *)
Definition blank (w : string) : bool := Str.all_chars Char.space w.

(** the words of the label [current_label], in the order of the reference *)
Definition words_of_label (tagged : list (string * string)) (current_label : string)
  : list string :=
  map snd (List.filter (fun lw => Str.eqb (fst lw) current_label) tagged).

(** the keys of the dictionary that [segment] returns *)
Definition segment_keys_set : gset string :=
  {[ "authors"; "refstr"; "refplaintext" ]} ∪ list_to_set SEGMENT_DICT_KEYS.

(** A tagged reference, and one whose journal is a lone dot. *)
Definition example_reference : list (string * string) :=
  [ ("AUTHOR_LAST_NAME", "Smith"); ("AUTHOR_FIRST_NAME", "J."); ("YEAR", "2001");
    ("JOURNAL", "ApJ"); ("VOLUME", "42"); ("PAGE", "100");
    ("REFSTR", "Smith J. 2001 ApJ 42 100") ].

Definition example_lone_dot : list (string * string) :=
  [ ("JOURNAL", "."); ("REFSTR", ".") ].

End Xml.

(** ** Normalized names ([normalize_single_author],
    [get_first_author_last_name] in [authors.py]) *)

Module Names.

(** what [replace("-", " ")] does to one character *)
Definition hyphen_to_space (c : ascii) : ascii := if Char.same "-" c then " "%char else c.

(** [normalize_single_author(author_string)]; on ASCII text [unidecode]
    returns its argument *)
Definition normalize_single_author (author_string : string) : string :=
  Str.lower (Str.replace "-" " " author_string).

(** the normalization that [get_author_last_name_only] applies to a last
    name *)
Definition normalize_last_name (lastname : string) : string :=
  Str.replace "-" " " (Str.lower lastname).

(** [get_first_author_last_name(author_string)]; [None] is Python's [None].
    [s.split(sep)[0]] is the text before the first [sep]. *)
Definition get_first_author_last_name (author_string : string) : option string :=
  if Str.eqb author_string "" then None
  else Some (Str.before_first "," (Str.before_first ";" author_string)).

(** what follows the last name in the string: nothing, or a text that
    starts with a comma or a semicolon *)
Definition ends_the_name (rest : string) : bool :=
  match rest with
  | EmptyString => true
  | String c _ => Char.one_of ",;" c
  end.

End Names.

(** ** The authors at the start of a reference ([get_authors] in
    [authors.py]) *)

Module GetAuthors.
Import Re Authors.

(** [COLLEAGUES_PAT]: [(?P<andcolleagues>and\s\d+\s(co-authors|colleagues))] *)
Definition COLLEAGUES_PAT : regex :=
  Grp 1 (Seq [ Lit "and"; Cls Char.space; Plus (Cls Char.digit); Cls Char.space;
               Grp 2 (Alt (Lit "co-authors") (Lit "colleagues")) ]).

(** [FIRST_CAPTIAL]: from the start, characters that are no capital, no
    digit and no double quote, then a capital; in one group *)
Definition FIRST_CAPTIAL : regex :=
  Cat Bol
      (Grp 1 (Cat (Star (Cls (fun c => negb (Char.upper c || Char.digit c
                                             || Char.same (ascii_of_nat 34) c))))
                  (Cls Char.upper))).

(** [ETAL_HOOK]: [(.* et\.? al\.?)\b] under IGNORECASE *)
Definition ETAL_HOOK : regex :=
  Cat (Grp 1 (Seq [ Star Dot; LitI " et"; Opt (Chr "."); LitI " al"; Opt (Chr ".") ])) WordB.

(** [CROP_IF_NEEDED]:
    [((^(?!and|&).*(and|&)(?!,).* ),)|((^(?!and|&).*(and|&)(?!,).* )$)|((^(?!,).* ),)] *)
Definition up_to_and (outer inner : nat) : regex :=
  Grp outer (Seq [ Bol; NotAhead (Alt (Lit "and") (Chr "&")); Star Dot;
                   Grp inner (Alt (Lit "and") (Chr "&")); NotAhead (Chr ","); Star Dot ]).

Definition CROP_IF_NEEDED : regex :=
  Any [ Grp 1 (Cat (up_to_and 2 3) (Chr ","));
        Grp 4 (Cat (up_to_and 5 6) Eol);
        Grp 7 (Cat (Grp 8 (Seq [ Bol; NotAhead (Chr ","); Star Dot ])) (Chr ",")) ].

(** [AND_HOOK]: one or more names, each with an initial before or after it
    and followed by commas or white space, then [and] or [&], a white
    space, and one more name; the groups are numbered as in the source *)
Definition initial : regex :=
  Opt (Cat (Cls Char.upper) (Cls (fun c => Char.same "." c || Char.space c))).

Definition commas_or_spaces : regex :=
  Plus (Cls (fun c => Char.same "," c || Char.space c)).

Definition AND_HOOK : regex :=
  Seq [ Plus (Grp 1 (Alt (Seq [ initial; LAST_NAME_PAT; LAST_NAME_SUFFIX 2; commas_or_spaces ])
                         (Seq [ LAST_NAME_PAT; LAST_NAME_SUFFIX 3; commas_or_spaces;
                                initial ])));
        Grp 4 (Alt (Cat WordB (Cat (Cls (Char.one_of "Aa")) (Lit "nd")))
                   (Cat (Cls Char.space) (Chr "&")));
        Cls Char.space;
        Grp 5 (Alt (Seq [ initial; LAST_NAME_PAT; LAST_NAME_SUFFIX 6 ])
                   (Seq [ LAST_NAME_PAT; LAST_NAME_SUFFIX 7; initial ])) ].

(** [get_and_colleagues(ref_string)]; [str.find] gives -1 when absent *)
Definition get_and_colleagues (ref_string : string) : Z * nat :=
  match search COLLEAGUES_PAT ref_string with
  | Some m =>
      let andcolleagues := group_or_empty 1 m in
      (match Str.find andcolleagues ref_string with
       | Some i => Z.of_nat i
       | None => (-1)%Z
       end, Str.len andcolleagues)
  | None => (0%Z, 0%nat)
  end.

(** one turn of the loop of [get_authors_recursive], and the loop; the
    subject gets shorter at each turn but the last, so that the turns are
    at most one more than the characters of [ref_string] *)
Definition skip_to_capital (ref_string : string) (start_idx author_len : nat) : nat :=
  if (0 <? author_len)%nat then
    match match_start FIRST_CAPTIAL (Str.drop (start_idx + author_len) ref_string) with
    | Some first_capital => (author_len + (Str.len (mo_text first_capital) - 1))%nat
    | None => author_len
    end
  else author_len.

Fixpoint authors_loop (turns : nat) (ref_string : string) (start_idx : nat)
    (author_pattern : author_pattern) (author_len : nat) : nat :=
  match turns with
  | O => author_len
  | S turns' =>
      let author_len := skip_to_capital ref_string start_idx author_len in
      match match_start (pattern_regex author_pattern)
                        (Str.drop (start_idx + author_len) ref_string) with
      | Some author_match =>
          authors_loop turns' ref_string start_idx author_pattern
                       (author_len + Str.len (mo_text author_match))
      | None => author_len
      end
  end.

Definition get_authors_recursive (ref_string : string) (start_idx : nat)
    (author_pattern : author_pattern) : nat :=
  authors_loop (S (Str.len ref_string)) ref_string start_idx author_pattern 0.

(** [get_authors_last_attempt(ref_string)]; [None] is Python's [None] *)
Definition get_authors_last_attempt (ref_string : string) : option string :=
  match match_start AND_HOOK ref_string with
  | Some m => Some (Str.strip (mo_text m))
  | None =>
      match search LAST_NAME_PAT ref_string with
      | Some m => Some (Str.strip (mo_text m))
      | None => None
      end
  end.

(** [s[:n]] *)
Definition slice_to (n : Z) (s : string) : string :=
  if (n <? 0)%Z then Str.take (Z.to_nat (Z.of_nat (Str.len s) + n)) s
  else Str.take (Z.to_nat n) s.

(** [s.strip(',')] *)
Fixpoint lstrip_commas (s : string) : string :=
  match s with
  | String c s' => if Char.same "," c then lstrip_commas s' else s
  | EmptyString => EmptyString
  end.

Definition strip_commas (s : string) : string :=
  Str.rev (lstrip_commas (Str.rev (lstrip_commas s))).

(** How a call of [get_authors] ends: it returns the authors, or it
    raises; [UnboundLocalError] is raised where a local variable is read
    on a path that has not assigned it. *)
Inductive failure : Type :=
| UnboundLocalError (name : string)
| Raised (e : exn).

Inductive outcome : Type :=
| Returns (authors : string)
| Fails (f : failure).

(** the local variable [author_pattern]: not assigned, or assigned a shape
    or [None] *)
Inductive binding : Type :=
| Unassigned
| Assigned (value : option author_pattern).

(** the shape is one of [LEADING_INIT_PAT], [LEADING_FULL_PAT] *)
Definition is_leading (value : option author_pattern) : bool :=
  match value with
  | Some LeadingInit | Some LeadingFull => true
  | _ => false
  end.

(** lines 235-246: the crop of leading initials that went too far *)
Definition crop (ref_string : string) (authors_len : Z) : Z :=
  match search CROP_IF_NEEDED (slice_to authors_len ref_string) with
  | Some author_match =>
      if negb (Str.eqb (group_or_empty 4 author_match) "")
      then Z.of_nat (Str.len (group_or_empty 4 author_match))
      else if negb (Str.eqb (group_or_empty 2 author_match) "")
      then Z.of_nat (Str.len (group_or_empty 2 author_match))
      else if negb (Str.eqb (group_or_empty 8 author_match) "")
      then Z.of_nat (Str.len (group_or_empty 8 author_match))
      else authors_len
  | None => authors_len
  end.

(** [ref_string[:authors_len].strip().strip(',')] *)
Definition authors_up_to (ref_string : string) (authors_len : Z) : string :=
  strip_commas (Str.strip (slice_to authors_len ref_string)).

(** [Undecidable("No discernible authors in '%s'"%ref_string)] *)
Definition no_authors (ref_string : string) : exn :=
  Undecidable ("No discernible authors in '" ++ ref_string ++ "'").

(** [get_authors(ref_string)] for ASCII text, on which [unidecode] returns
    its argument *)
Definition get_authors (ref_string : string) : outcome :=
  let '(collaborators_idx, collaborators_len) := get_collaborators ref_string in
  let '(and_colleagues_idx, and_colleagues_len) := get_and_colleagues ref_string in
  if (0 <? and_colleagues_len)%nat then
    Returns (authors_up_to ref_string (and_colleagues_idx + Z.of_nat and_colleagues_len))
  else if (0 <? collaborators_idx)%Z then
    Returns (authors_up_to ref_string (collaborators_idx + Z.of_nat collaborators_len))
  else
    let '(author_pattern, authors_len) :=
      match match_start ETAL_HOOK ref_string with
      | Some m => (Unassigned, Z.of_nat (Str.len (Str.strip (mo_text m))))
      | None =>
          match get_author_pattern ref_string with
          | Some p =>
              (Assigned (Some p),
               Z.of_nat (get_authors_recursive ref_string collaborators_len p))
          | None => (Assigned None, Z.of_nat collaborators_len)
          end
      end in
    if (authors_len <? 3)%Z then
      match get_authors_last_attempt ref_string with
      | Some authors =>
          if Str.eqb authors "" then Fails (Raised (no_authors ref_string))
          else Returns authors
      | None => Fails (Raised (no_authors ref_string))
      end
    else
      match author_pattern with
      | Unassigned => Fails (UnboundLocalError "author_pattern")
      | Assigned value =>
          let authors_len :=
            if is_leading value && (3 <=? authors_len)%Z
            then crop ref_string authors_len
            else authors_len in
          Returns (authors_up_to ref_string authors_len)
      end.

(** a pattern that takes at least one character when it matches *)
Fixpoint takes_a_character (r : regex) : bool :=
  match r with
  | Cls _ => true
  | Cat a b => takes_a_character a || takes_a_character b
  | Alt a b => takes_a_character a && takes_a_character b
  | Grp _ a => takes_a_character a
  | _ => false
  end.

End GetAuthors.

(** ** The subtitle ([CRFClassifierText.crop_title]) *)

Module Title.
Import Re Crf.

(** [TITLE_TOKENIZER]: [(\:|[\.?!]\B)] *)
Definition TITLE_TOKENIZER : regex :=
  Grp 1 (Alt (Chr ":") (Cat (Cls (Char.one_of ".?!")) NotWordB)).

(** [crop_title(title, unknown)]: the value is (title, unknown) *)
Definition crop_title (title unknown : string) : string * string :=
  let parts := split true TITLE_TOKENIZER title in
  if (1 <? length parts)%nat
  then (nth 0 parts "", concatenate unknown (Str.join " " (tl parts)))
  else (title, unknown).

End Title.

(** * Proofs *)

(** ** Strings *)

Module StrFacts.

Lemma str_eqb_eq (a b : string) : Str.eqb a b = true <-> a = b.
Proof. unfold Str.eqb. apply String.eqb_eq. Qed.

Lemma str_eqb_neq (a b : string) : Str.eqb a b = false <-> a <> b.
Proof. unfold Str.eqb. apply String.eqb_neq. Qed.

Lemma str_eqb_refl (a : string) : Str.eqb a a = true.
Proof. apply str_eqb_eq. reflexivity. Qed.

Lemma str_eqb_sym (a b : string) : Str.eqb a b = Str.eqb b a.
Proof. unfold Str.eqb. apply String.eqb_sym. Qed.

Lemma str_mem_In (x : string) (xs : list string) : Str.mem x xs = true <-> In x xs.
Proof.
  unfold Str.mem. rewrite existsb_exists. split.
  - intros [y [Hy He]]. apply str_eqb_eq in He. subst. exact Hy.
  - intros H. exists x. split; [exact H | apply str_eqb_refl].
Qed.

End StrFacts.

(** ** The matcher *)

Module ReFacts.
Import Re.

Lemma rmatch_cat (a b : regex) (k : mstate -> option mstate) (s : mstate) :
  rmatch (Cat a b) k s = rmatch a (rmatch b k) s.
Proof. reflexivity. Qed.

Lemma rmatch_eps (k : mstate -> option mstate) (s : mstate) : rmatch Eps k s = k s.
Proof. reflexivity. Qed.

Lemma rmatch_wordb (k : mstate -> option mstate) (s e : mstate) :
  rmatch WordB k s = Some e -> k s = Some e.
Proof. cbn [rmatch]. destruct (at_boundary s); [auto | discriminate]. Qed.

Lemma rmatch_grp (n : nat) (a : regex) (k : mstate -> option mstate) (s : mstate) :
  rmatch (Grp n a) k s
  = rmatch a (fun s' =>
                k (MState (m_prev s') (m_rest s') (m_pos s')
                          ((n, Str.take (m_pos s' - m_pos s) (m_rest s)) :: m_caps s'))) s.
Proof. reflexivity. Qed.

Lemma rmatch_cls (p : ascii -> bool) (k : mstate -> option mstate) (s e : mstate) :
  rmatch (Cls p) k s = Some e ->
  exists c t, m_rest s = String c t /\ p c = true
              /\ k (MState (Some c) t (S (m_pos s)) (m_caps s)) = Some e.
Proof.
  cbn [rmatch]. destruct (m_rest s) as [| c t]; [discriminate |].
  destruct (p c) eqn:Hp; [| discriminate]. intros H. exists c, t. auto.
Qed.

Lemma rmatch_alt (a b : regex) (k : mstate -> option mstate) (s e : mstate) :
  rmatch (Alt a b) k s = Some e -> rmatch a k s = Some e \/ rmatch b k s = Some e.
Proof.
  cbn [rmatch]. destruct (rmatch a k s) as [e' |]; [left | right]; assumption.
Qed.

(** A star of one class of characters hands to its continuation a state
    with the groups it was given. *)
Lemma rmatch_star_cls (p : ascii -> bool) (k : mstate -> option mstate) (s e : mstate) :
  rmatch (Star (Cls p)) k s = Some e ->
  exists s', m_caps s' = m_caps s /\ k s' = Some e.
Proof.
  cbn [rmatch]. generalize (Str.len (m_rest s)). intros fuel. revert s.
  induction fuel as [| fuel IH]; intros s.
  - intros H. exists s. auto.
  - destruct (m_rest s) as [| c t] eqn:Hrest; [intros H; exists s; auto |].
    destruct (p c); [| intros H; exists s; auto].
    cbn [m_pos]. destruct (m_pos s <? S (m_pos s))%nat; [| intros H; exists s; auto].
    match goal with
    | |- match ?m with Some _ => _ | None => _ end = _ -> _ => destruct m as [e' |] eqn:Hloop
    end; [| intros H; exists s; auto].
    intros H. injection H as <-. destruct (IH _ Hloop) as [s' [Hcaps Hk]].
    exists s'. split; [exact Hcaps | exact Hk].
Qed.

Lemma finditer_at_matches (r : regex) (fuel : nat) :
  forall (prev : option ascii) (s : string) (pos : nat) (m : mobj),
    In m (finditer_at fuel r prev s pos) ->
    exists prev' s' pos', match_at r prev' s' pos' = Some m.
Proof.
  assert (Hsearch : forall s prev pos m, search_at r prev s pos = Some m ->
                      exists prev' s' pos', match_at r prev' s' pos' = Some m).
  { induction s as [| c s IH]; intros prev pos m; cbn [search_at];
      destruct (match_at r prev _ pos) as [m' |] eqn:Hm.
    - intros H. injection H as <-. eauto.
    - discriminate.
    - intros H. injection H as <-. eauto.
    - apply IH. }
  induction fuel as [| fuel IH]; intros prev s pos m; cbn [finditer_at]; [intros [] |].
  destruct (search_at r prev s pos) as [m' |] eqn:Hs; [| intros []].
  destruct (Str.len s <? _)%nat.
  - intros [<- | []]. exact (Hsearch _ _ _ _ Hs).
  - destruct (advance _ prev s) as [prev' s']. intros [<- | Hin].
    + exact (Hsearch _ _ _ _ Hs).
    + exact (IH _ _ _ _ Hin).
Qed.

End ReFacts.

(** ** Label codes *)

Module LabelCodeProofs.
Import LabelCode StrFacts.

Lemma has_key_In (d : label_code) (l : string) : has_key d l = true <-> In l (keys d).
Proof.
  unfold has_key, keys. rewrite existsb_exists, in_map_iff. split.
  - intros [kv [Hin He]]. apply str_eqb_eq in He. exists kv. split; assumption.
  - intros [kv [He Hin]]. exists kv. split; [exact Hin | apply str_eqb_eq; exact He].
Qed.

Lemma set_item_fresh (d : label_code) (l : string) (v : Z) :
  has_key d l = false -> set_item d l v = d ++ [(l, v)].
Proof.
  induction d as [| [k w] d IH]; simpl; intros H; [reflexivity |].
  apply orb_false_iff in H. destruct H as [Hk Hd]. simpl in Hk.
  rewrite Hk. rewrite (IH Hd). reflexivity.
Qed.

Lemma has_key_snoc (d : label_code) (l x : string) (v : Z) :
  has_key (d ++ [(l, v)]) x = has_key d x || Str.eqb l x.
Proof. unfold has_key. rewrite existsb_app. simpl. rewrite orb_false_r. reflexivity. Qed.

Lemma dense_snoc (d : label_code) (l : string) :
  dense d -> dense (d ++ [(l, Z.of_nat (length d))]).
Proof.
  unfold dense, codes. intros H.
  rewrite map_app, length_app. simpl.
  rewrite Nat.add_1_r, seq_S, map_app, H. reflexivity.
Qed.

Lemma encoder_step_fresh (d : label_code) (n : Z) (l : string) :
  well_formed (d, n) -> has_key d l = false ->
  encoder_step (d, n) l = (d ++ [(l, Z.of_nat (length d))], Z.of_nat (length d)).
Proof.
  intros (Hd & Hk & Hn) Hfresh. simpl in *. unfold encoder_step.
  rewrite Hfresh, andb_false_r, (set_item_fresh _ _ _ Hfresh).
  subst n. repeat f_equal; lia.
Qed.

Lemma encoder_step_seen (d : label_code) (n : Z) (l : string) :
  well_formed (d, n) -> has_key d l = true -> encoder_step (d, n) l = (d, n).
Proof.
  intros (Hd & Hk & Hn) Hseen. simpl in *. unfold encoder_step.
  rewrite Hseen, andb_true_r.
  destruct d as [| kv d]; [discriminate |].
  subst n. simpl length.
  replace (0 <=? Z.of_nat (S (length d)) - 1)%Z with true; [reflexivity |].
  symmetry. apply Z.leb_le. lia.
Qed.

Lemma encoder_step_well_formed (state : label_code * Z) (l : string) :
  well_formed state -> well_formed (encoder_step state l).
Proof.
  destruct state as [d n]. intros Hwf.
  destruct (has_key d l) eqn:Hkey.
  - rewrite (encoder_step_seen _ _ _ Hwf Hkey). exact Hwf.
  - rewrite (encoder_step_fresh _ _ _ Hwf Hkey).
    destruct Hwf as (Hd & Hk & Hn). simpl in *.
    repeat split; simpl.
    + apply dense_snoc. exact Hd.
    + unfold keys. rewrite map_app. simpl.
      apply NoDup_app. repeat split.
      * exact Hk.
      * intros x Hx Hx'. apply list_elem_of_In in Hx, Hx'.
        destruct Hx' as [<- | []].
        apply has_key_In in Hx. congruence.
      * apply NoDup_singleton.
    + rewrite length_app. simpl. lia.
Qed.

Lemma encoder_as_run (labels : list (list string)) :
  encoder labels = fst (run ([], (-1)%Z) (concat labels)).
Proof.
  unfold encoder, run. f_equal.
  generalize (@nil (string * Z), (-1)%Z).
  induction labels as [| label labels IH]; intros state; simpl; [reflexivity |].
  rewrite fold_left_app. apply IH.
Qed.

Lemma run_cons (state : label_code * Z) (l : string) (ls : list string) :
  run state (l :: ls) = run (encoder_step state l) ls.
Proof. reflexivity. Qed.

Lemma run_well_formed (ls : list string) (state : label_code * Z) :
  well_formed state -> well_formed (run state ls).
Proof.
  revert state. induction ls as [| l ls IH]; intros state H; [exact H |].
  rewrite run_cons. apply IH, encoder_step_well_formed, H.
Qed.

Lemma initial_well_formed : well_formed ([], (-1)%Z).
Proof. repeat split; simpl. apply NoDup_nil_2. Qed.

(** The keys come in the order in which the labels are first seen. *)
Lemma run_keys (ls : list string) (state : label_code * Z) (seen : list string) :
  well_formed state ->
  (forall x, Str.mem x seen = has_key (fst state) x) ->
  keys (fst (run state ls)) = keys (fst state) ++ Str.dedup_go seen ls.
Proof.
  revert state seen. induction ls as [| l ls IH]; intros [d n] seen Hwf Hseen.
  - simpl. rewrite app_nil_r. reflexivity.
  - rewrite run_cons. cbn [Str.dedup_go]. rewrite Hseen. cbn [fst].
    destruct (has_key d l) eqn:Hkey.
    + rewrite (encoder_step_seen _ _ _ Hwf Hkey). apply (IH (d, n)); assumption.
    + rewrite (encoder_step_fresh _ _ _ Hwf Hkey).
      rewrite (IH _ (l :: seen)).
      * simpl. unfold keys. rewrite map_app, <- app_assoc. reflexivity.
      * rewrite <- (encoder_step_fresh _ _ _ Hwf Hkey).
        apply encoder_step_well_formed, Hwf.
      * intros x. cbn [fst] in *. rewrite has_key_snoc, <- (Hseen x).
        unfold Str.mem. simpl. rewrite (str_eqb_sym x l). apply orb_comm.
Qed.

(** A code, once given, stays: going on with more labels only appends. *)
Lemma run_extends (ls : list string) (state : label_code * Z) :
  well_formed state -> exists ext, fst (run state ls) = fst state ++ ext.
Proof.
  revert state. induction ls as [| l ls IH]; intros [d n] Hwf.
  - exists []. simpl. rewrite app_nil_r. reflexivity.
  - rewrite run_cons.
    destruct (IH _ (encoder_step_well_formed _ l Hwf)) as [ext Hext].
    rewrite Hext. cbn [fst]. destruct (has_key d l) eqn:Hkey.
    + rewrite (encoder_step_seen _ _ _ Hwf Hkey). exists ext. reflexivity.
    + rewrite (encoder_step_fresh _ _ _ Hwf Hkey). simpl.
      eexists. rewrite <- app_assoc. reflexivity.
Qed.

(** Reading the table in both directions. *)
Lemma key_of_position (d : label_code) (s i : nat) (k : string) (v : Z) :
  codes d = map Z.of_nat (seq s (length d)) ->
  d !! i = Some (k, v) -> key_of d v = Ok k.
Proof.
  revert s i. induction d as [| [k0 v0] d IH]; intros s i Hd Hi; [discriminate |].
  simpl in Hd. injection Hd as Hv0 Hd. destruct i as [| i]; simpl in *.
  - injection Hi as <- <-. rewrite Z.eqb_refl. reflexivity.
  - assert (Hv : In v (codes d)).
    { unfold codes. apply in_map_iff. exists (k, v). split; [reflexivity |].
      apply list_elem_of_In. eapply list_elem_of_lookup_2. exact Hi. }
    rewrite Hd in Hv. apply in_map_iff in Hv. destruct Hv as [j [Hj Hin]].
    apply in_seq in Hin.
    replace (v0 =? v)%Z with false by (symmetry; apply Z.eqb_neq; lia).
    apply (IH (S s) i); assumption.
Qed.

Lemma get_item_position (d : label_code) (i : nat) (k : string) (v : Z) :
  NoDup (keys d) -> d !! i = Some (k, v) -> get_item d k = Ok v.
Proof.
  revert i. induction d as [| [k0 v0] d IH]; intros i Hnd Hi; [discriminate |].
  unfold keys in Hnd. simpl in Hnd. apply NoDup_cons in Hnd. destruct Hnd as [Hnotin Hnd].
  destruct i as [| i]; simpl in *.
  - injection Hi as <- <-. rewrite str_eqb_refl. reflexivity.
  - destruct (Str.eqb k0 k) eqn:E.
    + apply str_eqb_eq in E. subst k0. exfalso. apply Hnotin.
      apply list_elem_of_In, in_map_iff. exists (k, v). split; [reflexivity |].
      apply list_elem_of_In. eapply list_elem_of_lookup_2. exact Hi.
    + apply (IH i); assumption.
Qed.

Lemma roundtrip_label (d : label_code) (l : string) :
  dense d -> NoDup (keys d) -> In l (keys d) ->
  exists c, get_item d l = Ok c /\ key_of d c = Ok l.
Proof.
  intros Hd Hnd Hin. unfold keys in Hin. apply in_map_iff in Hin.
  destruct Hin as [[k v] [Hk Hin]]. simpl in Hk. subst k.
  apply list_elem_of_In, list_elem_of_lookup_1 in Hin. destruct Hin as [i Hi].
  exists v. split.
  - eapply get_item_position; eassumption.
  - eapply key_of_position; eassumption.
Qed.

Lemma roundtrip_sequence (d : label_code) (label : list string) :
  dense d -> NoDup (keys d) -> Forall (fun l => In l (keys d)) label ->
  exists cs, encode d label = Ok cs /\ decoder d cs = Ok label.
Proof.
  intros Hd Hnd Hall. induction Hall as [| l label Hl _ IH]; simpl.
  - exists []. split; reflexivity.
  - destruct (roundtrip_label d l Hd Hnd Hl) as [c [Hget Hkey]].
    destruct IH as [cs [Henc Hdec]].
    exists (c :: cs). rewrite Hget. simpl. rewrite Henc. simpl.
    rewrite Hkey. simpl. rewrite Hdec. split; reflexivity.
Qed.

Lemma dedup_go_In (seen ls : list string) (x : string) :
  In x ls -> In x seen \/ In x (Str.dedup_go seen ls).
Proof.
  revert seen. induction ls as [| l ls IH]; intros seen Hin; [destruct Hin |].
  simpl. destruct (Str.mem l seen) eqn:Hmem.
  - destruct Hin as [<- | Hin]; [left; apply str_mem_In; exact Hmem | apply IH, Hin].
  - destruct Hin as [<- | Hin]; [right; left; reflexivity |].
    destruct (IH (l :: seen) Hin) as [[<- | H] | H].
    + right. left. reflexivity.
    + left. exact H.
    + right. right. exact H.
Qed.

Lemma encoder_keys (labels : list (list string)) :
  keys (encoder labels) = Str.dedup (concat labels).
Proof.
  rewrite encoder_as_run.
  rewrite (run_keys _ _ [] initial_well_formed); [reflexivity |].
  intros x. reflexivity.
Qed.

(** C9.  The table that [encoder] builds has one entry for each distinct
    label of the corpus, in the order in which the labels are first seen,
    with the codes 0, 1, 2, ... in that order; going on with more references
    only appends entries, so that a code once given is never given again or
    changed; and for every reference of the corpus [decoder] gives back the
    labels from the numeric label sequence that the table encodes them to. *)
Theorem encoder_decoder_roundtrip (labels : list (list string)) :
  let d := encoder labels in
  keys d = Str.dedup (concat labels)
  /\ codes d = map Z.of_nat (seq 0 (length d))
  /\ NoDup (keys d)
  /\ (forall more : list (list string), exists ext, encoder (labels ++ more) = d ++ ext)
  /\ Forall (fun label => exists cs, encode d label = Ok cs /\ decoder d cs = Ok label) labels.
Proof.
  intros d.
  assert (Hwf : well_formed (run ([], (-1)%Z) (concat labels)))
    by apply run_well_formed, initial_well_formed.
  assert (Hd : d = fst (run ([], (-1)%Z) (concat labels))) by apply encoder_as_run.
  destruct Hwf as (Hdense & Hnodup & _). rewrite <- Hd in Hdense, Hnodup.
  split; [apply encoder_keys |].
  split; [exact Hdense |].
  split; [exact Hnodup |].
  split.
  - intros more. rewrite encoder_as_run, concat_app. unfold run.
    rewrite fold_left_app. fold (run ([], (-1)%Z) (concat labels)).
    fold (run (run ([], (-1)%Z) (concat labels)) (concat more)).
    rewrite Hd. apply run_extends, run_well_formed, initial_well_formed.
  - apply List.Forall_forall. intros label Hlabel.
    apply roundtrip_sequence; [exact Hdense | exact Hnodup |].
    apply List.Forall_forall. intros l Hl. unfold d. rewrite encoder_keys.
    assert (Hin : In l (concat labels)).
    { apply in_concat. exists label. split; assumption. }
    destruct (dedup_go_In [] _ _ Hin) as [[] | H]. exact H.
Qed.

End LabelCodeProofs.

(** ** Training *)

Module TrainingProofs.
Import Training.

Section Loop.

Variable attempts : nat -> attempt.

Lemma retry_spec (num_tries k : nat) :
  let '(k', score', log') :=
    retry attempts num_tries k (standing_score attempts k) (messages attempts k) in
  (k <= k' <= k + num_tries)%nat
  /\ score' = standing_score attempts k'
  /\ log' = messages attempts k'
  /\ forallb (goes_on attempts) (seq k (k' - k)) = true
  /\ ((k' <? k + num_tries)%nat = true -> goes_on attempts k' = false).
Proof.
  revert k. induction num_tries as [| n IH]; intros k; simpl.
  - rewrite Nat.sub_diag. simpl. repeat split; try lia.
    intros H. apply Nat.ltb_lt in H. lia.
  - fold (goes_on attempts k). destruct (goes_on attempts k) eqn:Hgo.
    + specialize (IH (S k)). simpl in IH.
      destruct (attempts k) as [s | message] eqn:Hk;
        (destruct (retry attempts n (S k) _ _) as [[k' score'] log'];
         destruct IH as (Hle & Hs & Hl & Hall & Hstop);
         repeat split; try lia; try assumption;
         [ replace (k' - k)%nat with (S (k' - S k)) by lia; simpl;
           rewrite Hgo, Hall; reflexivity
         | intros H; apply Hstop; apply Nat.ltb_lt; apply Nat.ltb_lt in H; lia ]).
    + rewrite Nat.sub_diag. simpl. repeat split; try lia. intros _. exact Hgo.
Qed.

Lemma retry_from_start (num_tries : nat) :
  let '(k', score', log') := retry attempts num_tries 0 0%Q [] in
  (k' <= num_tries)%nat
  /\ score' = standing_score attempts k'
  /\ log' = messages attempts k'
  /\ forallb (goes_on attempts) (seq 0 k') = true
  /\ ((k' <? num_tries)%nat = true -> goes_on attempts k' = false).
Proof.
  pose proof (retry_spec num_tries 0) as H. simpl in H.
  destruct (retry attempts num_tries 0 0%Q []) as [[k' score'] log'].
  destruct H as (Hle & Hs & Hl & Hall & Hstop).
  rewrite Nat.sub_0_r in Hall. repeat split; try assumption; lia.
Qed.

Lemma first_pass_runs : goes_on attempts 0 = true.
Proof. reflexivity. Qed.

End Loop.

(** C3, as amended.  [create_crf] makes at least one and at most ten passes
    when the folds were generated, and exactly one for the static folds;
    every pass starts from a score that is at most 0.90, and the loop ends
    before the passes are used up only if the score left standing exceeds
    0.90; an attempt that raises is logged and changes nothing else, so the
    call always returns; and the value returned is whether the score left
    standing at the end, that of the latest attempt that completed (0 when
    none did), is greater than 0. *)
Theorem create_crf_attempts (attempts : nat -> attempt) (generate_fold : bool) :
  let o := create_crf attempts generate_fold in
  let n := attempts_made o in
  let limit := if generate_fold then 10%nat else 1%nat in
  (1 <= n <= limit)%nat
  /\ forallb (goes_on attempts) (seq 0 n) = true
  /\ ((limit <=? n)%nat || negb (goes_on attempts n)) = true
  /\ final_score o = standing_score attempts n
  /\ errors_logged o = messages attempts n
  /\ (accepted o = true <-> (0 < standing_score attempts n)%Q).
Proof.
  unfold create_crf. cbv zeta.
  set (limit := if generate_fold then 10%nat else 1%nat).
  pose proof (retry_from_start attempts limit) as H.
  destruct (retry attempts limit 0 0%Q []) as [[k score] log]. simpl.
  destruct H as (Hle & Hs & Hl & Hall & Hstop).
  assert (Hpos : (1 <= k)%nat).
  { destruct k as [| k]; [| lia]. exfalso.
    assert (Hlim : (0 <? limit)%nat = true)
      by (apply Nat.ltb_lt; unfold limit; destruct generate_fold; lia).
    specialize (Hstop Hlim). rewrite first_pass_runs in Hstop. discriminate. }
  split; [lia |]. split; [exact Hall |]. split.
  - destruct (limit <=? k)%nat eqn:E; [reflexivity |]. simpl.
    rewrite Hstop; [reflexivity |].
    apply Nat.ltb_lt. apply Nat.leb_gt in E. exact E.
  - split; [exact Hs |]. split; [exact Hl |].
    subst score. rewrite negb_true_iff. split.
    + intros H. apply Qnot_le_lt. intros Hq. apply Qle_bool_iff in Hq. congruence.
    + intros H. destruct (Qle_bool (standing_score attempts k) 0) eqn:E; [| reflexivity].
      apply Qle_bool_iff in E. exfalso. eapply Qlt_not_le; eassumption.
Qed.

(** C3, the claim as stated: with the folds generated, a first attempt that
    scores 0.5 and nine attempts that raise, the call returns [True] after
    ten passes although the last attempt raised and so has no score. *)
Lemma create_crf_last_attempt_raises :
  let o := create_crf one_score_then_failures true in
  accepted o = true
  /\ attempts_made o = 10%nat
  /\ one_score_then_failures (attempts_made o - 1) = Failed "fit failed"
  /\ ~ (accepted o = true <->
        exists s, one_score_then_failures (attempts_made o - 1) = Scored s /\ (0 < s)%Q).
Proof.
  cbv zeta. assert (H : create_crf one_score_then_failures true
                        = Outcome true 10 (1 # 2) (repeat "fit failed" 9)) by reflexivity.
  rewrite H. simpl. repeat split.
  intros [Hto _]. destruct (Hto eq_refl) as [s [Hs _]]. discriminate.
Qed.

End TrainingProofs.

(** ** Evidences *)

Module EvidenceProofs.
Import Evidence.

Lemma in_range_iff (self : Evidences) (ev : Q) :
  in_range self ev = true <-> (min_score self <= ev <= max_score self)%Q.
Proof.
  unfold in_range. rewrite andb_true_iff, !Qle_bool_iff. reflexivity.
Qed.

Lemma forallb_in_range (self : Evidences) (evs : list Q) :
  forallb (in_range self) evs = true
  <-> Forall (fun ev => (min_score self <= ev <= max_score self)%Q) evs.
Proof.
  rewrite forallb_forall, List.Forall_forall. split; intros H x Hx.
  - apply in_range_iff, H, Hx.
  - apply in_range_iff, H, Hx.
Qed.

Lemma add_evidence_appends (self : Evidences) (evidence : Q) (label : string) :
  add_evidence self evidence label
  = if in_range self evidence then Ok (appended self [evidence] [label])
    else Raise AssertionError.
Proof. reflexivity. Qed.

Lemma add_appends (self other : Evidences) :
  add self other
  = if forallb (in_range self) (evidences other)
    then Ok (appended self (evidences other) (labels other))
    else Raise AssertionError.
Proof. reflexivity. Qed.

Lemma appended_in_range (self : Evidences) (evs : list Q) (ls : list string) :
  all_in_range self ->
  Forall (fun ev => (min_score self <= ev <= max_score self)%Q) evs ->
  all_in_range (appended self evs ls).
Proof.
  unfold all_in_range, appended. simpl. intros H1 H2. apply Forall_app. split; assumption.
Qed.

(** The two bounds of the clamp. *)
Lemma py_min_le (a b : Q) : (py_min a b <= a)%Q /\ (py_min a b <= b)%Q.
Proof.
  unfold py_min. destruct (Qle_bool a b) eqn:E.
  - apply Qle_bool_iff in E. split; [apply Qle_refl | exact E].
  - split; [| apply Qle_refl].
    apply Qlt_le_weak, Qnot_le_lt. intros H. apply Qle_bool_iff in H. congruence.
Qed.

Lemma py_max_ge (a b : Q) : (a <= py_max a b)%Q /\ (b <= py_max a b)%Q.
Proof.
  unfold py_max. destruct (Qle_bool b a) eqn:E.
  - apply Qle_bool_iff in E. split; [apply Qle_refl | exact E].
  - split; [| apply Qle_refl].
    apply Qlt_le_weak, Qnot_le_lt. intros H. apply Qle_bool_iff in H. congruence.
Qed.

Lemma clamp_in_range (range_min range_max x : Q) :
  (range_min <= range_max)%Q ->
  (range_min <= clamp range_min range_max x <= range_max)%Q.
Proof.
  intros Hle. unfold clamp. split; [apply py_max_ge |].
  unfold py_max. destruct (Qle_bool (py_min range_max x) range_min); [exact Hle |].
  apply py_min_le.
Qed.

(** A score inside the range is left as it is by the clamp. *)
Lemma clamp_id (range_min range_max x : Q) :
  (range_min <= x <= range_max)%Q -> (clamp range_min range_max x == x)%Q.
Proof.
  intros [Hlo Hhi]. unfold clamp, py_max, py_min.
  destruct (Qle_bool range_max x) eqn:E1.
  - apply Qle_bool_iff in E1.
    assert (Hx : (x == range_max)%Q) by (apply Qle_antisym; assumption).
    destruct (Qle_bool range_max range_min) eqn:E2.
    + apply Qle_bool_iff in E2. apply Qle_antisym; [exact Hlo |].
      rewrite Hx. exact E2.
    + symmetry. exact Hx.
  - destruct (Qle_bool x range_min) eqn:E2; [| reflexivity].
    apply Qle_bool_iff in E2. apply Qle_antisym; assumption.
Qed.


End EvidenceProofs.

(** ** Author shapes *)

Module AuthorsProofs.
Import Re Authors.

Lemma pattern_lengths_four (ref_string : string) :
  exists a b c d, pattern_lengths ref_string = [a; b; c; d].
Proof.
  unfold pattern_lengths. destruct (get_collaborators ref_string) as [idx len].
  unfold patterns. simpl. eauto.
Qed.

Lemma decide_pattern_bits (a b c d : nat) :
  let m := max_of [a; b; c; d] in
  decide_pattern [a; b; c; d]
  = decide_bits [(m =? a)%nat; (m =? b)%nat; (m =? c)%nat; (m =? d)%nat]
                [(0 <? a)%nat; (0 <? b)%nat; (0 <? c)%nat; (0 <? d)%nat].
Proof.
  intros m. unfold decide_pattern, decide_bits, indices_where. fold m.
  cbn [length seq combine List.filter snd].
  destruct (m =? a)%nat, (m =? b)%nat, (m =? c)%nat, (m =? d)%nat;
    destruct (0 <? a)%nat, (0 <? b)%nat, (0 <? c)%nat, (0 <? d)%nat; reflexivity.
Qed.

Lemma tie_bits (a b c d : nat) :
  let m := max_of [a; b; c; d] in
  tie_for_table [a; b; c; d] = true ->
  decide_bits [(m =? a)%nat; (m =? b)%nat; (m =? c)%nat; (m =? d)%nat]
              [(0 <? a)%nat; (0 <? b)%nat; (0 <? c)%nat; (0 <? d)%nat]
  = tie_table (on_off_value (indices_max [a; b; c; d])).
Proof.
  intros m. unfold tie_for_table, indices_max, indices_match, decide_bits, indices_where.
  fold m. cbn [length seq combine List.filter snd].
  destruct (m =? a)%nat, (m =? b)%nat, (m =? c)%nat, (m =? d)%nat;
    destruct (0 <? a)%nat, (0 <? b)%nat, (0 <? c)%nat, (0 <? d)%nat;
    intros H; try discriminate H; reflexivity.
Qed.

Lemma max_is_reached (a b c d : nat) :
  let m := max_of [a; b; c; d] in
  ((m =? a) || (m =? b) || (m =? c) || (m =? d))%nat = true.
Proof.
  intros m. unfold m, max_of. simpl.
  rewrite !orb_true_iff, !Nat.eqb_eq. lia.
Qed.

Lemma tie_values (a b c d : nat) :
  tie_for_table [a; b; c; d] = true ->
  In (on_off_value (indices_max [a; b; c; d])) [3; 5; 6; 7; 9; 10; 11; 12; 13; 14; 15]%Z.
Proof.
  unfold tie_for_table, indices_max, indices_match, indices_where.
  pose proof (max_is_reached a b c d) as Hmax. cbv zeta in Hmax. revert Hmax.
  set (m := max_of [a; b; c; d]). cbn [length seq combine List.filter snd].
  destruct (m =? a)%nat, (m =? b)%nat, (m =? c)%nat, (m =? d)%nat;
    destruct (0 <? a)%nat, (0 <? b)%nat, (0 <? c)%nat, (0 <? d)%nat;
    intros Hmax H; try discriminate H; try discriminate Hmax; vm_compute;
    repeat (first [left; reflexivity | right]).
Qed.



(** C10.  [get_author_last_name_only] returns what its [try] branch
    computes: the matches of [LAST_NAME_PAT], lower-cased and with hyphens
    turned into spaces.  The call of [findall] never raises [Undecidable],
    so the handler is never run. *)
Theorem last_name_only_never_falls_back (author_string : string) :
  get_author_last_name_only author_string
  = Ok (map (fun lastname => Str.replace "-" " " (Str.lower lastname))
            (findall0 LAST_NAME_PAT author_string))
  /\ get_author_last_name_only author_string = last_name_only_primary author_string
  /\ (forall reason, last_name_only_primary author_string <> Raise (Undecidable reason)).
Proof.
  unfold get_author_last_name_only, last_name_only_primary, last_names. simpl.
  repeat split. intros reason H. discriminate H.
Qed.

(** The two branches differ, so the result tells which one ran. *)
Example last_name_only_primary_differs :
  get_author_last_name_only "Smith-Jones, J., van der Klis, M."
  = Ok ["smith jones"; "van der klis"]
  /\ last_name_only_fallback "Smith-Jones, J., van der Klis, M." = Ok ["van"; "klis"].
Proof. split; vm_compute; reflexivity. Qed.

End AuthorsProofs.

(** ** Numeric fields *)

Module NumericProofs.
Import Re Crf Numeric ReFacts.

Lemma dedup_go_subset (seen xs : list string) (y : string) :
  In y (Str.dedup_go seen xs) -> In y xs.
Proof.
  revert seen. induction xs as [| x xs IH]; intros seen; cbn [Str.dedup_go]; [auto |].
  destruct (Str.mem x seen).
  - intros H. right. exact (IH _ H).
  - intros [<- | H]; [left; reflexivity | right; exact (IH _ H)].
Qed.

Lemma year_group_shape (prev : option ascii) (s : string) (pos : nat) (m : mobj) :
  match_at YEAR_EXTRACTOR prev s pos = Some m -> year_shape (group_or_empty 1 m) = true.
Proof.
  unfold match_at. destruct (rmatch YEAR_EXTRACTOR Some _) as [e |] eqn:He; [| discriminate].
  intros H. injection H as <-. unfold group_or_empty, group. cbn [mo_caps].
  unfold YEAR_EXTRACTOR, YEAR_PATTERN, Plus, Opt in He. cbn [Seq] in He.
  rewrite rmatch_cat in He. apply rmatch_star_cls in He as [s1 [_ He]].
  rewrite rmatch_cat in He. apply rmatch_wordb in He.
  rewrite rmatch_cat, rmatch_grp, !rmatch_cat in He.
  apply rmatch_cls in He as (c1 & t1 & Hrest & H1 & He).
  rewrite rmatch_cat in He. apply rmatch_cls in He as (c2 & t2 & Hr2 & H2 & He). cbn [m_rest m_pos m_caps] in *.
  rewrite rmatch_cat in He. apply rmatch_cls in He as (c3 & t3 & Hr3 & H3 & He). cbn [m_rest m_pos m_caps] in *.
  apply rmatch_cls in He as (c4 & t4 & Hr4 & H4 & He). cbn [m_rest m_pos m_caps] in *.
  subst t1 t2 t3. rewrite Hrest in He.
  assert (Hend : forall prev' rest' pos' caps' (text : string),
             rmatch (Cat (Cls (fun c => Char.one_of ")" c || Char.space c || Char.one_of ".," c))
                         (Star (Cls (fun c => Char.one_of ")" c || Char.space c
                                              || Char.one_of ".," c)))) Some
                    (MState prev' rest' pos' ((1%nat, text) :: caps'))
             = Some e ->
             lookup_cap 1 (m_caps e) = Some text).
  { intros prev' rest' pos' caps' text Hp. rewrite rmatch_cat in Hp.
    apply rmatch_cls in Hp as (c & t & _ & _ & Hp). cbn [m_rest m_pos m_caps] in *.
    apply rmatch_star_cls in Hp as [s'' [Hcaps Hp]]. injection Hp as Heq.
    rewrite <- Heq, Hcaps. cbn [lookup_cap m_caps Nat.eqb]. reflexivity. }
  apply rmatch_alt in He as [He | He].
  - apply rmatch_cls in He as (c5 & t5 & Hr5 & H5 & He). cbn [m_rest m_pos m_caps] in *.
    subst t4. apply Hend in He. rewrite He.
    replace (S (S (S (S (S (m_pos s1))))) - m_pos s1)%nat with 5%nat by lia.
    cbn [Str.take year_shape]. rewrite H1, H2, H3, H4, H5. reflexivity.
  - rewrite rmatch_eps in He. apply Hend in He. rewrite He. cbn [m_pos m_rest].
    replace (S (S (S (S (m_pos s1)))) - m_pos s1)%nat with 4%nat by lia.
    cbn [Str.take year_shape]. rewrite H1, H2, H3, H4. reflexivity.
Qed.

Lemma year_candidates_shape (reference_str y : string) :
  In y (year_candidates reference_str) -> year_shape y = true.
Proof.
  unfold year_candidates, Str.dedup, findall1, finditer. intros H.
  apply dedup_go_subset in H. apply in_map_iff in H as [m [<- Hm]].
  apply finditer_at_matches in Hm as (prev & s & pos & Hm).
  exact (year_group_shape _ _ _ _ Hm).
Qed.

Lemma select_year_subset (year_now : Z) (reference_str y : string) :
  In y (select_year year_now reference_str) -> In y (year_candidates reference_str).
Proof.
  unfold select_year. destruct (1 <? length (year_candidates reference_str))%nat; [| auto].
  destruct (List.filter (in_parentheses reference_str) (year_candidates reference_str))
    as [| p ps] eqn:Hp.
  - intros H. apply filter_In in H. apply H.
  - intros [<- | []].
    assert (Hin : In p (List.filter (in_parentheses reference_str)
                          (year_candidates reference_str))) by (rewrite Hp; left; reflexivity).
    apply filter_In in Hin. apply Hin.
Qed.

Lemma year_of_identify (year_now : Z) (reference_str unknown : string) :
  year (identify_numeric_tokens year_now reference_str unknown)
  = fst (settle_year year_now reference_str).
Proof.
  unfold identify_numeric_tokens.
  destruct (settle_year year_now reference_str) as [y s1].
  destruct (formatted_numeric s1) as [[[v p] i] s2].
  destruct (standalone PAGE_EXTRACTOR 1 p s2) as [p' s3].
  destruct (standalone VOLUME_EXTRACTOR 2 v s3) as [v' s4].
  destruct (guess_fields s4 v' p' i unknown) as [[[v'' p''] i'] u']. reflexivity.
Qed.

Lemma settle_year_of_selection (year_now : Z) (reference_str : string) :
  fst (settle_year year_now reference_str)
  = match select_year year_now reference_str with
    | [y] => YearStr y
    | ys => YearList ys
    end.
Proof.
  unfold settle_year. destruct (select_year year_now reference_str) as [| y [| y' ys]];
    reflexivity.
Qed.

Lemma year_in_range_bounds (year_now : Z) (y : string) :
  year_in_range year_now y = true ->
  Str.isnumeric y = true /\ (1400 <= Str.int_of_digits y <= year_now)%Z.
Proof.
  unfold year_in_range, year_earliest. rewrite !andb_true_iff, !Z.leb_le. tauto.
Qed.

(** C4, as amended.  The year is chosen among the distinct candidates that
    [YEAR_EXTRACTOR] captures, in order of appearance, each of which is
    [YEAR_PATTERN] with at most one lower-case letter after it, and so is
    every year that is settled.  A single candidate is the year as it
    stands, with no test of its value in [1400, year_now]; of several, the
    first that appears in parentheses is the year, again untested; when
    none does, the candidates that are numeric and lie in [1400, year_now]
    are kept, the year is the one kept when exactly one is kept, and is then
    numeric and in that range; in every other case no year is settled and
    the entry holds the list of the candidates kept. *)
Theorem year_selection (year_now : Z) (reference_str unknown : string) :
  let candidates := year_candidates reference_str in
  let result := year (identify_numeric_tokens year_now reference_str unknown) in
  (forall y, In y candidates -> year_shape y = true)
  /\ (forall y, result = YearStr y -> year_shape y = true)
  /\ match candidates with
     | [] => result = YearList []
     | [y] => result = YearStr y
     | _ :: _ :: _ =>
         match List.filter (in_parentheses reference_str) candidates with
         | y :: _ => result = YearStr y
         | [] =>
             match List.filter (year_in_range year_now) candidates with
             | [y] => result = YearStr y
                      /\ Str.isnumeric y = true
                      /\ (1400 <= Str.int_of_digits y <= year_now)%Z
             | kept => result = YearList kept
             end
         end
     end.
Proof.
  cbv zeta. rewrite year_of_identify, settle_year_of_selection.
  split; [exact (year_candidates_shape reference_str) |].
  split.
  { intros y Hy. apply (year_candidates_shape reference_str).
    apply (select_year_subset year_now).
    destruct (select_year year_now reference_str) as [| y0 [| y0' ys]]; try discriminate.
    injection Hy as ->. left. reflexivity. }
  unfold select_year.
  destruct (year_candidates reference_str) as [| y1 [| y2 ys]] eqn:Hc; try reflexivity.
  cbn [length Nat.ltb Nat.leb].
  destruct (List.filter (in_parentheses reference_str) (y1 :: y2 :: ys)) as [| p ps];
    [| reflexivity].
  destruct (List.filter (year_in_range year_now) (y1 :: y2 :: ys)) as [| k [| k' ks]] eqn:Hk;
    try reflexivity.
  split; [reflexivity |]. apply year_in_range_bounds.
  assert (Hin : In k (List.filter (year_in_range year_now) (y1 :: y2 :: ys)))
    by (rewrite Hk; left; reflexivity).
  apply filter_In in Hin. apply Hin.
Qed.

(** C4, the claim as stated: a single candidate is taken as it is, so the
    year of this reference is 1999a, which is not numeric, and the year of
    the next one is 1000, which is below 1400. *)
Lemma year_unchecked_when_alone :
  year (identify_numeric_tokens 2026 "Smith 1999a, ApJ, 42, 100" "") = YearStr "1999a"
  /\ Str.isnumeric "1999a" = false
  /\ year (identify_numeric_tokens 2026 "Smith 1000, ApJ, 42, 100" "") = YearStr "1000"
  /\ year_in_range 2026 "1000" = false.
Proof. repeat split; vm_compute; reflexivity. Qed.

(** Of two candidates, the one in parentheses is the year. *)
Example year_in_parentheses_preferred :
  year (identify_numeric_tokens 2026 "x (1969) y 2020 z" "") = YearStr "1969"
  /\ year (identify_numeric_tokens 2026 "x 1969 y 2020 z" "") = YearList ["1969"; "2020"]
  /\ year (identify_numeric_tokens 2026 "x 0042 z" "") = YearList [].
Proof. repeat split; vm_compute; reflexivity. Qed.



(** One leftover with volume and page known is the issue; two leftovers
    with the page known and no volume are volume and issue. *)
Example leftovers_inferred :
  assign_leftovers ["7"] "12" "45" "" "" = ("12", "45", "7", "")
  /\ assign_leftovers ["7"; "8"] "" "45" "" "" = ("7", "45", "8", "")
  /\ identify_numeric_tokens 2026 ", ApJ, 42, 100" ""
     = NumericTokens "100" (YearList []) "42" "" "ApJ".
Proof. repeat split; vm_compute; reflexivity. Qed.

End NumericProofs.

(** ** DOI extraction *)

Module DoiProofs.
Import Re Doi.


(** The dot is dropped when nothing follows it in what is left of the
    match, and of two DOIs the first is kept. *)
Example extract_doi_drops_final_dot :
  extract_doi "doi:10.3847/1538-4357/aa7579.arXiv:1703.00965" = Ok "10.3847/1538-4357/aa7579"
  /\ extract_doi "doi:10.3847/1538-4357/aa7579." = Ok "10.3847/1538-4357/aa7579"
  /\ extract_doi "doi:10.1000/abc doi:10.2000/def" = Ok "10.1000/abc "
  /\ extract_doi "no identifier here" = Ok "".
Proof. repeat split; vm_compute; reflexivity. Qed.

End DoiProofs.

(** ** The parsed reference record *)

Module ReferenceProofs.
Import Re Crf Reference StrFacts.

(** [H : Ok a = Ok b] gives [a = b], which is substituted. *)
Ltac ok_inv :=
  let H := fresh "Hok" in
  intros H; injection H as H; try subst.

Lemma elem_of_adds (b : bool) (key k : string) : k ∈ adds b key <-> b = true /\ k = key.
Proof.
  unfold adds. destruct b.
  - rewrite elem_of_singleton. tauto.
  - rewrite elem_of_empty. split; [tauto | intros [H _]; discriminate H].
Qed.

Lemma dom_insert_adds (d : gmap string string) (key v : string) :
  dom (<[key := v]> d) = dom d ∪ adds true key.
Proof. rewrite dom_insert_L. apply union_comm_L. Qed.

Lemma dom_adds_nothing (d : gmap string string) (key : string) :
  dom d = dom d ∪ adds false key.
Proof. symmetry. apply union_empty_r_L. Qed.

Lemma set_from_label_dom (words labels : list string) (tag key : string)
    (d d' : gmap string string) :
  set_from_label words labels tag key d = Ok d' ->
  dom d' = dom d ∪ adds (Str.mem tag labels) key.
Proof.
  unfold set_from_label. destruct (Str.mem tag labels).
  - destruct (word_of words labels tag) as [w | e]; simpl; [| discriminate].
    ok_inv. apply dom_insert_adds.
  - ok_inv. apply dom_adds_nothing.
Qed.

Lemma set_joined_dom (words labels : list string) (tag key : string) (keep : string -> bool)
    (d d' : gmap string string) :
  set_joined words labels tag key keep d = Ok d' ->
  dom d' = dom d ∪ adds (Str.mem tag labels) key.
Proof.
  unfold set_joined. destruct (Str.mem tag labels).
  - destruct (words_where keep words labels 0) as [ws | e]; simpl; [| discriminate].
    ok_inv. apply dom_insert_adds.
  - ok_inv. apply dom_adds_nothing.
Qed.

Lemma set_volume_dom (words labels : list string) (d d' : gmap string string) :
  set_volume words labels d = Ok d' ->
  exists b, dom d' = dom d ∪ adds b "volume" /\ (b = true -> Str.mem "VOLUME" labels = true).
Proof.
  unfold set_volume. destruct (Str.mem "VOLUME" labels).
  - destruct (words_where (Str.eqb "VOLUME") words labels 0) as [volume | e]; simpl;
      [| discriminate].
    assert (Hins : forall v, exists b, dom (<["volume" := v]> d) = dom d ∪ adds b "volume"
                                      /\ (b = true -> true = true)).
    { intros v. exists true. split; [apply dom_insert_adds | reflexivity]. }
    assert (Hsame : exists b, dom d = dom d ∪ adds b "volume" /\ (b = true -> true = true)).
    { exists false. split; [apply dom_adds_nothing | reflexivity]. }
    destruct volume as [| v [| v' vs]].
    + simpl. ok_inv. exact Hsame.
    + ok_inv. apply Hins.
    + destruct (List.find Str.isdigit (v :: v' :: vs)); ok_inv;
        [apply Hins | exact Hsame].
  - ok_inv. exists false. split; [apply dom_adds_nothing | discriminate].
Qed.

Lemma set_identifier_dom (tagged : string * string) (d : gmap string string) :
  dom (set_identifier tagged d) = dom d ∪ adds (0 <? Str.len (snd tagged))%nat (fst tagged).
Proof.
  unfold set_identifier. destruct (0 <? Str.len (snd tagged))%nat.
  - apply dom_insert_adds.
  - apply dom_adds_nothing.
Qed.

Lemma tagged_doi_tag (words labels : list string) (tagged : string * string) :
  tagged_doi_but_arxiv_or_ascl words labels = Ok tagged ->
  (0 <? Str.len (snd tagged))%nat = true ->
  fst tagged = "arxiv" \/ fst tagged = "ascl".
Proof.
  unfold tagged_doi_but_arxiv_or_ascl. destruct (Str.mem "DOI" labels).
  - destruct (word_of words labels "DOI") as [w | e]; simpl; [| discriminate].
    destruct (found ARXIV_ID_EXTRACTOR 1 w).
    + ok_inv; intros _. left. reflexivity.
    + destruct (found ASCL_ID_EXTRACTOR 1 w); ok_inv; simpl;
        [right; reflexivity | discriminate].
  - ok_inv. simpl. discriminate.
Qed.

Lemma identifier_tag (words labels : list string) (tagged : string * string) :
  identifier_arxiv_or_ascl words labels = Ok tagged ->
  (0 <? Str.len (snd tagged))%nat = true ->
  (fst tagged = "arxiv" /\ Str.mem "ARXIV" labels = true)
  \/ (fst tagged = "ascl" /\ (Str.mem "ASCL" labels || Str.mem "ARXIV" labels) = true).
Proof.
  unfold identifier_arxiv_or_ascl.
  destruct (Str.mem "ARXIV" labels) eqn:Harxiv.
  - destruct (word_of words labels "ARXIV") as [w | e]; simpl; [| discriminate].
    destruct (found ARXIV_ID_EXTRACTOR 1 w).
    + ok_inv; intros _. left. split; reflexivity.
    + rewrite orb_true_r.
      destruct (word_of words labels _) as [w' | e]; simpl; [| discriminate].
      destruct (found ASCL_ID_EXTRACTOR 1 w'); ok_inv; simpl;
        [right; split; reflexivity | discriminate].
  - simpl. rewrite orb_false_r. destruct (Str.mem "ASCL" labels) eqn:Hascl.
    + destruct (word_of words labels "ASCL") as [w' | e]; simpl; [| discriminate].
      destruct (found ASCL_ID_EXTRACTOR 1 w'); ok_inv; simpl;
        [right; split; reflexivity | discriminate].
    + ok_inv. simpl. discriminate.
Qed.

(** Look-ups that cannot fail. *)
Lemma py_item_in_range (xs : list string) (i : nat) :
  (i < length xs)%nat -> exists x, py_item xs (Z.of_nat i) = Ok x.
Proof.
  intros Hi. unfold py_item.
  assert (H0 : (Z.of_nat i <? 0)%Z = false) by (apply Z.ltb_ge; lia).
  rewrite !H0, Nat2Z.id.
  destruct (lookup_lt_is_Some_2 xs i Hi) as [x Hx]. rewrite Hx. eauto.
Qed.

Lemma py_item_previous (xs : list string) (i : nat) :
  (i < length xs)%nat -> exists x, py_item xs (Z.of_nat i - 1) = Ok x.
Proof.
  intros Hi. destruct i as [| i].
  - unfold py_item. change (Z.of_nat 0 - 1 <? 0)%Z with true. cbv iota.
    assert (H0 : (Z.of_nat 0 - 1 + Z.of_nat (length xs) <? 0)%Z = false)
      by (apply Z.ltb_ge; lia).
    rewrite H0.
    destruct (lookup_lt_is_Some_2 xs (Z.to_nat (Z.of_nat 0 - 1 + Z.of_nat (length xs))))
      as [x Hx]; [lia |].
    rewrite Hx. eauto.
  - replace (Z.of_nat (S i) - 1)%Z with (Z.of_nat i) by lia.
    apply py_item_in_range. lia.
Qed.

Lemma index_of_mem (tag : string) (labels : list string) :
  Str.mem tag labels = true ->
  exists i, Str.index_of tag labels = Some i /\ (i < length labels)%nat.
Proof.
  induction labels as [| l labels IH]; simpl; [discriminate |].
  unfold Str.mem. simpl. rewrite (str_eqb_sym tag l).
  destruct (Str.eqb l tag); simpl.
  - intros _. exists 0%nat. split; [reflexivity | lia].
  - intros H. destruct (IH H) as (i & Hi & Hlt). rewrite Hi. simpl.
    exists (S i). split; [reflexivity | lia].
Qed.

Lemma word_of_total (words labels : list string) (tag : string) :
  (length labels <= length words)%nat -> Str.mem tag labels = true ->
  exists w, word_of words labels tag = Ok w.
Proof.
  intros Hlen Hmem. unfold word_of.
  destruct (index_of_mem _ _ Hmem) as (i & Hi & Hlt). rewrite Hi.
  apply py_item_in_range. lia.
Qed.

Lemma words_where_total (keep : string -> bool) (words labels : list string) (i : nat) :
  (i + length labels <= length words)%nat ->
  exists ws, words_where keep words labels i = Ok ws.
Proof.
  revert i. induction labels as [| l labels IH]; intros i Hlen; simpl in *; [eauto |].
  destruct (IH (S i)) as [ws Hws]; [lia |].
  destruct (keep l); [| eauto].
  destruct (py_item_in_range words i) as [w Hw]; [lia |].
  rewrite Hw. simpl. rewrite Hws. simpl. eauto.
Qed.

Lemma author_glue_total (words labels : list string) (i : nat) (l : string)
    (name : list string) :
  (i < length words)%nat -> (i < length labels)%nat ->
  exists name', author_glue words labels i l name = Ok name'.
Proof.
  intros Hw Hl. unfold author_glue.
  destruct (py_item_previous labels i Hl) as [previous Hp].
  destruct (py_item_previous words i Hw) as [w Hw'].
  rewrite Hp, Hw'. simpl.
  repeat match goal with
         | |- context [if ?c then _ else _] => destruct c
         end; eauto.
Qed.

(** The loop over the zipped lists never raises: the index it looks back
    from is always inside both lists. *)
Lemma author_loop_total (words labels : list string) (pairs : list (string * string))
    (i : nat) (name : list string) :
  (i + length pairs <= length words)%nat -> (i + length pairs <= length labels)%nat ->
  exists name', author_loop words labels pairs i name = Ok name'.
Proof.
  revert i name.
  induction pairs as [| [w l] pairs IH]; intros i name Hw Hl; cbn [author_loop length] in *;
    [eauto |].
  destruct (Str.mem l AUTHOR_TAGS).
  - destruct (author_glue_total words labels i l name) as [name' Hg]; [lia | lia |].
    rewrite Hg. cbn [rbind]. apply IH; lia.
  - destruct (0 <? length name)%nat; eauto.
Qed.

Lemma set_from_label_total (words labels : list string) (tag key : string)
    (d : gmap string string) :
  (length labels <= length words)%nat ->
  exists d', set_from_label words labels tag key d = Ok d'.
Proof.
  intros Hlen. unfold set_from_label. destruct (Str.mem tag labels) eqn:Hmem; [| eauto].
  destruct (word_of_total words labels tag Hlen Hmem) as [w Hw]. rewrite Hw. simpl. eauto.
Qed.

Lemma set_joined_total (words labels : list string) (tag key : string) (keep : string -> bool)
    (d : gmap string string) :
  (length labels <= length words)%nat ->
  exists d', set_joined words labels tag key keep d = Ok d'.
Proof.
  intros Hlen. unfold set_joined. destruct (Str.mem tag labels); [| eauto].
  destruct (words_where_total keep words labels 0) as [ws Hws]; [lia |].
  rewrite Hws. simpl. eauto.
Qed.

Lemma set_volume_total (words labels : list string) (d : gmap string string) :
  (length labels <= length words)%nat -> exists d', set_volume words labels d = Ok d'.
Proof.
  intros Hlen. unfold set_volume. destruct (Str.mem "VOLUME" labels); [| eauto].
  destruct (words_where_total (Str.eqb "VOLUME") words labels 0) as [ws Hws]; [lia |].
  rewrite Hws. simpl. destruct ws as [| v [| v' vs]]; simpl; eauto.
  destruct (if Str.isdigit v then _ else _); eauto.
Qed.

Lemma tagged_doi_total (words labels : list string) :
  (length labels <= length words)%nat ->
  exists tagged, tagged_doi_but_arxiv_or_ascl words labels = Ok tagged.
Proof.
  intros Hlen. unfold tagged_doi_but_arxiv_or_ascl.
  destruct (Str.mem "DOI" labels) eqn:Hmem; [| eauto].
  destruct (word_of_total words labels "DOI" Hlen Hmem) as [w Hw]. rewrite Hw. simpl.
  destruct (found ARXIV_ID_EXTRACTOR 1 w); [eauto |].
  destruct (found ASCL_ID_EXTRACTOR 1 w); eauto.
Qed.

Lemma identifier_total (words labels : list string) :
  (length labels <= length words)%nat ->
  exists tagged, identifier_arxiv_or_ascl words labels = Ok tagged.
Proof.
  intros Hlen. unfold identifier_arxiv_or_ascl.
  destruct (Str.mem "ARXIV" labels) eqn:Harxiv.
  - destruct (word_of_total words labels "ARXIV" Hlen Harxiv) as [w Hw]. rewrite Hw. simpl.
    destruct (found ARXIV_ID_EXTRACTOR 1 w); [eauto |].
    rewrite orb_true_r.
    destruct (Str.mem "ASCL" labels) eqn:Hascl.
    + destruct (word_of_total words labels "ASCL" Hlen Hascl) as [w' Hw']. rewrite Hw'. simpl.
      destruct (found ASCL_ID_EXTRACTOR 1 w'); eauto.
    + rewrite Hw. simpl. destruct (found ASCL_ID_EXTRACTOR 1 w); eauto.
  - simpl. rewrite orb_false_r. destruct (Str.mem "ASCL" labels) eqn:Hascl; [| eauto].
    destruct (word_of_total words labels "ASCL" Hlen Hascl) as [w' Hw']. rewrite Hw'. simpl.
    destruct (found ASCL_ID_EXTRACTOR 1 w'); eauto.
Qed.

Section WithClassifier.

Variable extract_doi : string -> result string.

Lemma set_doi_total (words labels : list string) (d : gmap string string) :
  (length labels <= length words)%nat ->
  (forall w, exists doi, extract_doi w = Ok doi) ->
  exists d', set_doi extract_doi words labels d = Ok d'.
Proof.
  intros Hlen Hdoi. unfold set_doi. destruct (Str.mem "DOI" labels) eqn:Hmem; [| eauto].
  destruct (word_of_total words labels "DOI" Hlen Hmem) as [w Hw]. rewrite Hw. simpl.
  destruct (Hdoi w) as [doi Hd]. rewrite Hd. simpl.
  destruct (0 <? Str.len doi)%nat; [eauto |].
  destruct (tagged_doi_total words labels Hlen) as [tagged Ht]. rewrite Ht. simpl. eauto.
Qed.

Lemma set_arxiv_or_ascl_total (words labels : list string) (d : gmap string string) :
  (length labels <= length words)%nat ->
  exists d', set_arxiv_or_ascl words labels d = Ok d'.
Proof.
  intros Hlen. unfold set_arxiv_or_ascl. destruct (_ || _); [| eauto].
  destruct (identifier_total words labels Hlen) as [tagged Ht]. rewrite Ht. simpl. eauto.
Qed.

Lemma reference_total (refstr : string) (words labels : list string) :
  (length labels <= length words)%nat ->
  (forall w, exists doi, extract_doi w = Ok doi) ->
  exists d, reference extract_doi refstr words labels = Ok d.
Proof.
  intros Hlen Hdoi. unfold reference.
  destruct (author_loop_total words labels (combine words labels) 0 []) as [name Hn].
  { rewrite length_combine. lia. }
  { rewrite length_combine. lia. }
  rewrite Hn. cbn [rbind].
  destruct (set_from_label_total words labels "YEAR" "year"
              (<["authors" := Str.join "" name]> ∅) Hlen) as [d1 H1].
  rewrite H1. cbn [rbind].
  destruct (set_volume_total words labels d1 Hlen) as [d2 H2]. rewrite H2. cbn [rbind].
  destruct (set_from_label_total words labels "PAGE" "page" d2 Hlen) as [d3 H3].
  rewrite H3. cbn [rbind].
  destruct (set_from_label_total words labels "ISSUE" "issue" d3 Hlen) as [d4 H4].
  rewrite H4. cbn [rbind].
  destruct (set_doi_total words labels d4 Hlen Hdoi) as [d5 H5]. rewrite H5. cbn [rbind].
  destruct (set_arxiv_or_ascl_total words labels d5 Hlen) as [d6 H6]. rewrite H6. cbn [rbind].
  destruct (set_from_label_total words labels "ISSN" "ISSN" d6 Hlen) as [d7 H7].
  rewrite H7. cbn [rbind].
  destruct (set_joined_total words labels "JOURNAL" "journal" (Str.eqb "JOURNAL") d7 Hlen)
    as [d8 H8].
  rewrite H8. cbn [rbind].
  destruct (set_joined_total words labels "TITLE" "title"
              (fun l => Str.eqb l "TITLE" || Str.eqb l "BOOK_TITLE") d8 Hlen) as [d9 H9].
  rewrite H9. cbn [rbind]. eauto.
Qed.

Lemma set_doi_dom (words labels : list string) (d d' : gmap string string) :
  set_doi extract_doi words labels d = Ok d' ->
  exists b key, dom d' = dom d ∪ adds b key
                /\ (b = true -> (key = "doi" \/ key = "arxiv" \/ key = "ascl")
                                /\ Str.mem "DOI" labels = true).
Proof.
  unfold set_doi. destruct (Str.mem "DOI" labels).
  - destruct (word_of words labels "DOI") as [w | e]; simpl; [| discriminate].
    destruct (extract_doi w) as [doi | e]; simpl; [| discriminate].
    destruct (0 <? Str.len doi)%nat.
    + ok_inv. exists true, "doi". split; [apply dom_insert_adds |]. intros _. tauto.
    + destruct (tagged_doi_but_arxiv_or_ascl words labels) as [tagged | e] eqn:Ht; simpl;
        [| discriminate].
      ok_inv. exists (0 <? Str.len (snd tagged))%nat, (fst tagged).
      split; [apply set_identifier_dom |].
      intros Hb. destruct (tagged_doi_tag _ _ _ Ht Hb); tauto.
  - ok_inv. exists false, "doi". split; [apply dom_adds_nothing | discriminate].
Qed.

Lemma set_arxiv_or_ascl_dom (words labels : list string) (d d' : gmap string string) :
  set_arxiv_or_ascl words labels d = Ok d' ->
  exists b key, dom d' = dom d ∪ adds b key
                /\ (b = true ->
                    (key = "arxiv" /\ Str.mem "ARXIV" labels = true)
                    \/ (key = "ascl"
                        /\ (Str.mem "ASCL" labels || Str.mem "ARXIV" labels) = true)).
Proof.
  unfold set_arxiv_or_ascl. destruct (Str.mem "ARXIV" labels || Str.mem "ASCL" labels).
  - destruct (identifier_arxiv_or_ascl words labels) as [tagged | e] eqn:Ht; simpl;
      [| discriminate].
    ok_inv. exists (0 <? Str.len (snd tagged))%nat, (fst tagged).
    split; [apply set_identifier_dom |].
    intros Hb. exact (identifier_tag _ _ _ Ht Hb).
  - ok_inv. exists false, "arxiv". split; [apply dom_adds_nothing | discriminate].
Qed.

(** The keys of the record, step by step. *)
Lemma reference_dom (refstr : string) (words labels : list string) (d : gmap string string) :
  reference extract_doi refstr words labels = Ok d ->
  exists (bv bd ba : bool) (kd ka : string),
    dom d = {[ "authors" ]}
            ∪ adds (Str.mem "YEAR" labels) "year" ∪ adds bv "volume"
            ∪ adds (Str.mem "PAGE" labels) "page" ∪ adds (Str.mem "ISSUE" labels) "issue"
            ∪ adds bd kd ∪ adds ba ka
            ∪ adds (Str.mem "ISSN" labels) "ISSN" ∪ adds (Str.mem "JOURNAL" labels) "journal"
            ∪ adds (Str.mem "TITLE" labels) "title" ∪ {[ "refstr" ]}
    /\ d !! "refstr" = Some refstr
    /\ (bv = true -> Str.mem "VOLUME" labels = true)
    /\ (bd = true -> (kd = "doi" \/ kd = "arxiv" \/ kd = "ascl")
                     /\ Str.mem "DOI" labels = true)
    /\ (ba = true -> (ka = "arxiv" /\ Str.mem "ARXIV" labels = true)
                     \/ (ka = "ascl"
                         /\ (Str.mem "ASCL" labels || Str.mem "ARXIV" labels) = true)).
Proof.
  unfold reference.
  destruct (author_loop words labels (combine words labels) 0 []) as [name | e]; simpl;
    [| discriminate].
  destruct (set_from_label words labels "YEAR" "year" _) as [d1 | e] eqn:H1; simpl;
    [| discriminate].
  destruct (set_volume words labels d1) as [d2 | e] eqn:H2; simpl; [| discriminate].
  destruct (set_from_label words labels "PAGE" "page" d2) as [d3 | e] eqn:H3; simpl;
    [| discriminate].
  destruct (set_from_label words labels "ISSUE" "issue" d3) as [d4 | e] eqn:H4; simpl;
    [| discriminate].
  destruct (set_doi extract_doi words labels d4) as [d5 | e] eqn:H5; simpl; [| discriminate].
  destruct (set_arxiv_or_ascl words labels d5) as [d6 | e] eqn:H6; simpl; [| discriminate].
  destruct (set_from_label words labels "ISSN" "ISSN" d6) as [d7 | e] eqn:H7; simpl;
    [| discriminate].
  destruct (set_joined words labels "JOURNAL" "journal" _ d7) as [d8 | e] eqn:H8; simpl;
    [| discriminate].
  destruct (set_joined words labels "TITLE" "title" _ d8) as [d9 | e] eqn:H9; simpl;
    [| discriminate].
  ok_inv.
  apply set_from_label_dom in H1, H3, H4, H7. apply set_joined_dom in H8, H9.
  destruct (set_volume_dom _ _ _ _ H2) as (bv & Hv & Hbv).
  destruct (set_doi_dom _ _ _ _ H5) as (bd & kd & Hd & Hbd).
  destruct (set_arxiv_or_ascl_dom _ _ _ _ H6) as (ba & ka & Ha & Hba).
  exists bv, bd, ba, kd, ka.
  split; [| split; [apply lookup_insert_eq | tauto]].
  rewrite dom_insert_L, H9, H8, H7, Ha, Hd, H4, H3, Hv, H1, dom_insert_L, dom_empty_L.
  rewrite (right_id_L ∅ (∪)). apply union_comm_L.
Qed.

End WithClassifier.

Lemma elem_of_record_keys (k : string) :
  k ∈ record_keys
  <-> k = "authors" \/ k = "year" \/ k = "volume" \/ k = "page" \/ k = "issue" \/ k = "doi"
      \/ k = "arxiv" \/ k = "ascl" \/ k = "ISSN" \/ k = "journal" \/ k = "title"
      \/ k = "refstr".
Proof.
  unfold record_keys. rewrite !elem_of_union, !elem_of_singleton. tauto.
Qed.

(** C2, as amended.  A record returned by [reference] has its keys among
    authors, year, volume, page, issue, doi, arxiv, ascl, ISSN, journal,
    title and refstr.  The keys authors and refstr are always there, refstr
    with the reference string; year, page, issue, ISSN, journal and title
    are there exactly when their label is among the labels; volume and doi
    only when theirs is, arxiv only with the label ARXIV or DOI, ascl only
    with ASCL, ARXIV or DOI.  The call returns a record whenever there is a
    word for every label and [extract_doi] returns. *)
Theorem reference_keys (extract_doi : string -> result string) (refstr : string)
    (words labels : list string) :
  ((length labels <= length words)%nat ->
   (forall w, exists doi, extract_doi w = Ok doi) ->
   exists d, reference extract_doi refstr words labels = Ok d)
  /\ match reference extract_doi refstr words labels with
     | Raise _ => True
     | Ok d =>
         dom d ⊆ record_keys
         /\ "authors" ∈ dom d
         /\ d !! "refstr" = Some refstr
         /\ ("year" ∈ dom d <-> In "YEAR" labels)
         /\ ("page" ∈ dom d <-> In "PAGE" labels)
         /\ ("issue" ∈ dom d <-> In "ISSUE" labels)
         /\ ("ISSN" ∈ dom d <-> In "ISSN" labels)
         /\ ("journal" ∈ dom d <-> In "JOURNAL" labels)
         /\ ("title" ∈ dom d <-> In "TITLE" labels)
         /\ ("volume" ∈ dom d -> In "VOLUME" labels)
         /\ ("doi" ∈ dom d -> In "DOI" labels)
         /\ ("arxiv" ∈ dom d -> In "ARXIV" labels \/ In "DOI" labels)
         /\ ("ascl" ∈ dom d -> In "ASCL" labels \/ In "ARXIV" labels \/ In "DOI" labels)
     end.
Proof.
  split; [apply reference_total |].
  destruct (reference extract_doi refstr words labels) as [d | e] eqn:Href; [| exact I].
  destruct (reference_dom _ _ _ _ _ Href)
    as (bv & bd & ba & kd & ka & Hdom & Hrefstr & Hbv & Hbd & Hba).
  assert (Hmem : forall k,
    k ∈ dom d <->
    k = "authors" \/ (Str.mem "YEAR" labels = true /\ k = "year")
    \/ (bv = true /\ k = "volume") \/ (Str.mem "PAGE" labels = true /\ k = "page")
    \/ (Str.mem "ISSUE" labels = true /\ k = "issue") \/ (bd = true /\ k = kd)
    \/ (ba = true /\ k = ka) \/ (Str.mem "ISSN" labels = true /\ k = "ISSN")
    \/ (Str.mem "JOURNAL" labels = true /\ k = "journal")
    \/ (Str.mem "TITLE" labels = true /\ k = "title") \/ k = "refstr").
  { intros k. rewrite Hdom, !elem_of_union, !elem_of_adds, !elem_of_singleton. tauto. }
  assert (Hor : forall a b, (a || b) = true -> a = true \/ b = true)
    by (intros a b; apply orb_true_iff).
  assert (Hkd : bd = true -> kd = "doi" \/ kd = "arxiv" \/ kd = "ascl")
    by (intros Hb; apply (Hbd Hb)).
  assert (Hka : ba = true -> ka = "arxiv" \/ ka = "ascl")
    by (intros Hb; destruct (Hba Hb) as [[-> _] | [-> _]]; auto).
  assert (Hdoi : bd = true -> Str.mem "DOI" labels = true) by (intros Hb; apply (Hbd Hb)).
  assert (Harxiv : ba = true -> ka = "arxiv" -> Str.mem "ARXIV" labels = true).
  { intros Hb Hk. destruct (Hba Hb) as [[_ H] | [H _]]; [exact H | congruence]. }
  assert (Hascl : ba = true ->
                  Str.mem "ASCL" labels = true \/ Str.mem "ARXIV" labels = true).
  { intros Hb. destruct (Hba Hb) as [[_ H] | [_ H]]; [auto | apply Hor, H]. }
  clear Hbd Hba Hdom Href.
  repeat match goal with |- _ /\ _ => split end;
    try rewrite Hmem; rewrite <- ?str_mem_In; try exact Hrefstr.
  - intros k Hk. apply elem_of_record_keys. apply Hmem in Hk.
    clear - Hk Hkd Hka. intuition (subst; auto 15).
  - left. reflexivity.
  - clear - Hkd Hka. intuition (subst; try congruence; auto).
  - clear - Hkd Hka. intuition (subst; try congruence; auto).
  - clear - Hkd Hka. intuition (subst; try congruence; auto).
  - clear - Hkd Hka. intuition (subst; try congruence; auto).
  - clear - Hkd Hka. intuition (subst; try congruence; auto).
  - clear - Hkd Hka. intuition (subst; try congruence; auto).
  - clear - Hkd Hka Hbv. intuition (subst; try congruence; auto).
  - clear - Hkd Hka Hdoi. intuition (subst; try congruence; auto).
  - clear - Hkd Hka Hdoi Harxiv. intuition (subst; try congruence; auto).
  - clear - Hkd Hka Hdoi Hascl. intuition (subst; try congruence; auto).
Qed.

(** C2, the claim as stated: with the single label YEAR, no author label is
    found, and the record still has the key authors, with the empty
    string. *)
Lemma reference_authors_without_label :
  existsb (fun l => Str.mem l AUTHOR_TAGS) ["YEAR"] = false
  /\ reference Doi.extract_doi "2001" ["2001"] ["YEAR"]
     = Ok (<["refstr" := "2001"]> (<["year" := "2001"]> (<["authors" := ""]> ∅))).
Proof. split; vm_compute; reflexivity. Qed.

(** A reference with authors, year, journal, volume and page. *)
Example reference_of_tagged_words :
  reference Doi.extract_doi "Smith, J. 2001, ApJ, 42, 100"
    ["Smith"; ","; "J"; "."; "2001"; ","; "ApJ"; ","; "42"; ","; "100"]
    ["AUTHOR_LAST_NAME"; "PUNCTUATION_COMMA"; "AUTHOR_FIRST_NAME"; "PUNCTUATION_DOT"; "YEAR";
     "PUNCTUATION_COMMA"; "JOURNAL"; "PUNCTUATION_COMMA"; "VOLUME"; "PUNCTUATION_COMMA"; "PAGE"]
  = Ok (list_to_map
          [("authors", "Smith, J."); ("year", "2001"); ("volume", "42"); ("page", "100");
           ("journal", "ApJ"); ("refstr", "Smith, J. 2001, ApJ, 42, 100")]).
Proof. vm_compute. reflexivity. Qed.

End ReferenceProofs.

(** ** The feature vector *)

Module FeaturesProofs.
Import Re Crf Features StrFacts.

Lemma rsequence_length {A : Type} (ms : list (result A)) (v : list A) :
  rsequence ms = Ok v -> length v = length ms.
Proof.
  revert v. induction ms as [| m ms IH]; intros v; simpl.
  - intros H. injection H as <-. reflexivity.
  - destruct m as [a | e]; simpl; [| discriminate].
    destruct (rsequence ms) as [rest | e]; simpl; [| discriminate].
    intros H. injection H as <-. simpl. f_equal. apply IH. reflexivity.
Qed.

Lemma rsequence_total {A : Type} (ms : list (result A)) :
  Forall (fun m => exists a, m = Ok a) ms -> exists v, rsequence ms = Ok v.
Proof.
  induction 1 as [| m ms [a ->] _ [v IH]]; simpl; [eauto |]. rewrite IH. simpl. eauto.
Qed.

Lemma field_block_length (where_in is_in : nat -> result Z) (index : nat) (v : list Z) :
  field_block where_in is_in index = Ok v -> length v = 4%nat.
Proof.
  unfold field_block. destruct (where_in index) as [w | e]; simpl; [| discriminate].
  destruct (is_in index) as [m | e]; simpl; [| discriminate].
  intros H. injection H as <-. reflexivity.
Qed.

Section Vector.

Variable stopwords : list string.
Variable is_location_name : string -> bool.
Variable whole_word_search : string -> string -> bool.
Variable ref_data ref_label : list string.
Variable segment_dict : gmap string pyval.

Lemma base_features_count (index : nat) :
  length (base_features stopwords is_location_name whole_word_search
            ref_data ref_label segment_dict index) = 35%nat.
Proof. reflexivity. Qed.

Lemma identifying_word_length (index : nat) (v : list Z) :
  get_data_features_identifying_word ref_data ref_label index = Ok v -> length v = 12%nat.
Proof.
  unfold get_data_features_identifying_word.
  destruct (which_identifying_word ref_data ref_label index) as [w | e]; simpl;
    [| discriminate].
  destruct (item ref_data index) as [t | e]; simpl; [| discriminate].
  intros H. injection H as <-. reflexivity.
Qed.

Lemma punctuation_length (index : nat) (v : list Z) :
  get_data_features_punctuation ref_data ref_label index = Ok v -> length v = 11%nat.
Proof.
  unfold get_data_features_punctuation.
  destruct (which_punctuation ref_data ref_label index) as [w | e]; simpl; [| discriminate].
  destruct (item ref_data index) as [t | e]; simpl; [| discriminate].
  intros H. injection H as <-. reflexivity.
Qed.

(** The vector is made of seven blocks, in this order and of these sizes,
    whatever the labels and the segmentation dictionary are. *)
Lemma vector_layout (index : nat) (v : list Z) :
  get_data_features stopwords is_location_name whole_word_search
    ref_data ref_label segment_dict index = Ok v ->
  exists base author title journal identifying punctuation editor,
    v = base ++ author ++ title ++ journal ++ identifying ++ punctuation ++ editor
    /\ rsequence (base_features stopwords is_location_name whole_word_search
                    ref_data ref_label segment_dict index) = Ok base
    /\ get_data_features_author ref_data ref_label segment_dict index = Ok author
    /\ get_data_features_title stopwords ref_data ref_label segment_dict index = Ok title
    /\ get_data_features_journal ref_data ref_label segment_dict index = Ok journal
    /\ get_data_features_identifying_word ref_data ref_label index = Ok identifying
    /\ get_data_features_punctuation ref_data ref_label index = Ok punctuation
    /\ get_data_features_editor ref_data ref_label segment_dict index = Ok editor
    /\ length base = 35%nat /\ length author = 4%nat /\ length title = 4%nat
    /\ length journal = 4%nat /\ length identifying = 12%nat
    /\ length punctuation = 11%nat /\ length editor = 4%nat.
Proof.
  unfold get_data_features.
  destruct (rsequence _) as [base | e] eqn:Hb; simpl; [| discriminate].
  destruct (get_data_features_author _ _ _ _) as [author | e] eqn:Ha; simpl; [| discriminate].
  destruct (get_data_features_title _ _ _ _ _) as [title | e] eqn:Ht; simpl; [| discriminate].
  destruct (get_data_features_journal _ _ _ _) as [journal | e] eqn:Hj; simpl;
    [| discriminate].
  destruct (get_data_features_identifying_word _ _ _) as [identifying | e] eqn:Hi; simpl;
    [| discriminate].
  destruct (get_data_features_punctuation _ _ _) as [punctuation | e] eqn:Hp; simpl;
    [| discriminate].
  destruct (get_data_features_editor _ _ _ _) as [editor | e] eqn:He; simpl; [| discriminate].
  intros H. injection H as <-.
  exists base, author, title, journal, identifying, punctuation, editor.
  repeat match goal with |- _ /\ _ => split end; try reflexivity.
  - rewrite (rsequence_length _ _ Hb). apply base_features_count.
  - exact (field_block_length _ _ _ _ Ha).
  - exact (field_block_length _ _ _ _ Ht).
  - exact (field_block_length _ _ _ _ Hj).
  - exact (identifying_word_length _ _ Hi).
  - exact (punctuation_length _ _ Hp).
  - exact (field_block_length _ _ _ _ He).
Qed.

Lemma vector_length (index : nat) (v : list Z) :
  get_data_features stopwords is_location_name whole_word_search
    ref_data ref_label segment_dict index = Ok v ->
  length v = 74%nat.
Proof.
  intros H. destruct (vector_layout index v H)
    as (b & a & t & j & i & p & e & -> & _ & _ & _ & _ & _ & _ & _ & Hb & Ha & Ht & Hj & Hi
        & Hp & He).
  rewrite !length_app. lia.
Qed.


End Vector.

(** *** When the call returns *)

Lemma item_total (xs : list string) (i : nat) :
  (i < length xs)%nat -> exists x, item xs i = Ok x /\ In x xs.
Proof.
  intros H. unfold item. destruct (lookup_lt_is_Some_2 xs i H) as [x Hx].
  rewrite Hx. exists x. split; [reflexivity |].
  apply list_elem_of_In. exact (list_elem_of_lookup_2 _ _ _ Hx).
Qed.

Lemma item_from_end_total (xs : list string) (k : nat) :
  (1 <= k <= length xs)%nat -> exists x, item_from_end xs k = Ok x.
Proof.
  intros H. unfold item_from_end.
  destruct (Nat.leb_spec k (length xs)) as [_ | Hlt]; [| lia].
  destruct (item_total xs (length xs - k)) as [x [Hx _]]; [lia | eauto].
Qed.

Lemma first_index_in_total (tags xs : list string) :
  existsb (fun x => Str.mem x tags) xs = true -> exists i, first_index_in tags xs = Ok i.
Proof.
  induction xs as [| x xs IH]; simpl; [discriminate |].
  destruct (Str.mem x tags); simpl; [eauto |].
  intros H. destruct (IH H) as [i ->]. simpl. eauto.
Qed.

Lemma existsb_rev_weaken (tags tags' xs : list string) :
  (forall l, Str.mem l tags = true -> Str.mem l tags' = true) ->
  existsb (fun x => Str.mem x tags) xs = true ->
  existsb (fun x => Str.mem x tags') (List.rev xs) = true.
Proof.
  intros Hsub H. apply existsb_exists in H as [x [Hin Hx]].
  apply existsb_exists. exists x. split; [| auto]. apply List.in_rev.
  rewrite List.rev_involutive. exact Hin.
Qed.

Lemma where_by_labels_total (ref_label : list string) (present : bool)
    (first_tags last_tags : list string) (last_offset index : nat) :
  (present = true -> existsb (fun l => Str.mem l first_tags) ref_label = true) ->
  (forall l, Str.mem l first_tags = true -> Str.mem l last_tags = true) ->
  exists z, where_by_labels ref_label present first_tags last_tags last_offset index = Ok z.
Proof.
  intros Hpresent Hsub. unfold where_by_labels. destruct present; [| eauto].
  specialize (Hpresent eq_refl).
  destruct (first_index_in_total _ _ Hpresent) as [i ->]. cbn [rbind].
  destruct (index =? i)%nat; [eauto |].
  destruct (first_index_in_total _ _ (existsb_rev_weaken _ _ _ Hsub Hpresent)) as [j ->].
  cbn [rbind].
  repeat match goal with |- context [if ?c then _ else _] => destruct c end; eauto.
Qed.

Lemma mem_sublist (tags tags' : list string) :
  forallb (fun l => Str.mem l tags') tags = true ->
  forall l, Str.mem l tags = true -> Str.mem l tags' = true.
Proof.
  intros H l Hl. apply str_mem_In in Hl.
  rewrite forallb_forall in H. exact (H l Hl).
Qed.

Lemma mem_as_existsb (x : string) (xs : list string) :
  Str.mem x xs = existsb (fun l => Str.mem l [x]) xs.
Proof.
  unfold Str.mem. induction xs as [| y ys IH]; simpl; [reflexivity |].
  rewrite IH, orb_false_r, (str_eqb_sym y x). reflexivity.
Qed.

Lemma if_previous_total (n index : nat) (f : nat -> result Z) :
  total_on n f -> (index < n)%nat -> exists z, if_previous index f = Ok z.
Proof.
  intros Hf Hi. unfold if_previous. destruct (0 <? index)%nat; [| eauto].
  apply Hf. lia.
Qed.

Lemma if_next_total (ref_data : list string) (index : nat) (f : nat -> result Z) :
  total_on (length ref_data) f -> exists z, if_next ref_data index f = Ok z.
Proof.
  intros Hf. unfold if_next.
  destruct (Z.ltb_spec (Z.of_nat index) (Z.of_nat (length ref_data) - 1)); [| eauto].
  apply Hf. lia.
Qed.

Lemma with_neighbours_total (ref_data : list string) (index : nat) (f : nat -> result Z) :
  total_on (length ref_data) f -> (index < length ref_data)%nat ->
  Forall (fun m => exists z, m = Ok z) (with_neighbours ref_data index f).
Proof.
  intros Hf Hi. unfold with_neighbours. repeat constructor.
  - apply Hf, Hi.
  - exact (if_previous_total _ _ _ Hf Hi).
  - exact (if_next_total _ _ _ Hf).
Qed.

Lemma on_token_total (ref_data : list string) (f : string -> result Z) :
  (forall w, In w ref_data -> exists z, f w = Ok z) ->
  total_on (length ref_data) (on_token ref_data f).
Proof.
  intros Hf i Hi. unfold on_token.
  destruct (item_total _ _ Hi) as [w [-> Hin]]. cbn [rbind]. auto.
Qed.

Lemma first_is_upper_total (ref_data : list string) (w : string) :
  no_empty_token ref_data = true -> In w ref_data -> exists z, first_is_upper w = Ok z.
Proof.
  unfold no_empty_token. rewrite forallb_forall. intros H Hin.
  specialize (H w Hin). destruct w; [discriminate | simpl; eauto].
Qed.

Lemma field_block_total (where_in is_in : nat -> result Z) (index : nat) :
  (exists z, where_in index = Ok z) -> (exists z, is_in index = Ok z) ->
  exists v, field_block where_in is_in index = Ok v.
Proof.
  intros [w Hw] [m Hm]. unfold field_block. rewrite Hw, Hm. simpl. eauto.
Qed.

(** With labels every feature is read from the label of the token. *)
Section Training.

Variable stopwords : list string.
Variable is_location_name : string -> bool.
Variable whole_word_search : string -> string -> bool.
Variable ref_data ref_label : list string.
Variable segment_dict : gmap string pyval.

Hypothesis Htraining : training ref_label = true.
Hypothesis Hlabels : length ref_label = length ref_data.
Hypothesis Htokens : no_empty_token ref_data = true.
Hypothesis Hanchored : anchored ref_label = true.

Lemma label_at (i : nat) :
  (i < length ref_data)%nat -> exists l, item ref_label i = Ok l.
Proof.
  intros H. destruct (item_total ref_label i) as [l [Hl _]]; [lia | eauto].
Qed.

Ltac by_label :=
  let i := fresh "i" in
  let Hi := fresh "Hi" in
  let l := fresh "l" in
  intros i Hi; rewrite ?Htraining; destruct (label_at i Hi) as [l ->]; cbn [rbind]; eauto.

Lemma training_is_numeric_tag (tag : string) :
  total_on (length ref_data) (fun i => is_numeric_tag ref_data ref_label segment_dict i tag).
Proof. unfold is_numeric_tag. by_label. Qed.

Lemma training_is_numeric :
  total_on (length ref_data) (is_numeric ref_data ref_label segment_dict).
Proof. unfold is_numeric. by_label. Qed.

Lemma training_is_stopword :
  total_on (length ref_data) (is_stopword stopwords ref_data ref_label (training ref_label)).
Proof. unfold is_stopword. by_label. Qed.

Lemma training_is_location :
  total_on (length ref_data) (is_location is_location_name ref_data ref_label).
Proof. unfold is_location. by_label. Qed.

Lemma training_is_publisher :
  total_on (length ref_data) (is_publisher ref_data ref_label segment_dict).
Proof. unfold is_publisher. by_label. Qed.

Lemma training_is_unknown :
  total_on (length ref_data) (is_unknown whole_word_search ref_data ref_label segment_dict).
Proof. unfold is_unknown. by_label. Qed.

Lemma training_is_author :
  total_on (length ref_data) (is_author ref_data ref_label segment_dict).
Proof. unfold is_author. by_label. Qed.

Lemma training_is_title :
  total_on (length ref_data) (is_title ref_data ref_label segment_dict).
Proof. unfold is_title. by_label. Qed.

Lemma training_is_journal :
  total_on (length ref_data) (is_journal ref_data ref_label segment_dict).
Proof. unfold is_journal. by_label. Qed.

Lemma training_is_editor :
  total_on (length ref_data) (is_editor ref_data ref_label segment_dict).
Proof. unfold is_editor. by_label. Qed.

Lemma training_which_of_table (table : list (string * list string)) (by_token : string -> Z) :
  total_on (length ref_data) (which_of_table ref_data ref_label table by_token).
Proof. unfold which_of_table. by_label. Qed.

Lemma training_where_in_author (index : nat) :
  exists z, where_in_author ref_data ref_label segment_dict index = Ok z.
Proof.
  unfold where_in_author. rewrite Htraining. apply where_by_labels_total.
  - intros Hp. unfold anchored in Hanchored. rewrite Hp in Hanchored.
    apply andb_prop in Hanchored as [H _]. exact H.
  - apply mem_sublist. reflexivity.
Qed.

Lemma training_where_in_editor (index : nat) :
  exists z, where_in_editor ref_data ref_label segment_dict index = Ok z.
Proof.
  unfold where_in_editor. rewrite Htraining. apply where_by_labels_total.
  - intros Hp. unfold anchored in Hanchored. rewrite Hp in Hanchored.
    apply andb_prop in Hanchored as [_ H]. exact H.
  - apply mem_sublist. reflexivity.
Qed.

Lemma training_where_in_journal (index : nat) :
  exists z, where_in_journal ref_data ref_label segment_dict index = Ok z.
Proof.
  unfold where_in_journal. rewrite Htraining. apply where_by_labels_total.
  - intros Hp. rewrite <- mem_as_existsb. exact Hp.
  - auto.
Qed.

Lemma training_where_in_title (index : nat) :
  exists z, where_in_title stopwords ref_data ref_label segment_dict index = Ok z.
Proof.
  unfold where_in_title. rewrite Htraining. apply where_by_labels_total.
  - rewrite !mem_as_existsb. clear. induction ref_label as [| l ls IH]; simpl; [auto |].
    rewrite !orb_false_r. intros H.
    destruct (Str.eqb l "TITLE"), (Str.eqb l "BOOK_TITLE"); simpl in *; auto.
  - auto.
Qed.

Lemma training_base_features (index : nat) :
  (index < length ref_data)%nat ->
  exists base, rsequence (base_features stopwords is_location_name whole_word_search
                            ref_data ref_label segment_dict index) = Ok base.
Proof.
  intros Hi. apply rsequence_total. unfold base_features.
  repeat (apply Forall_app; split);
    try (apply with_neighbours_total; [| exact Hi]).
  - apply on_token_total. eauto.
  - apply on_token_total. eauto.
  - apply on_token_total. intros w. exact (first_is_upper_total _ _ Htokens).
  - apply on_token_total. eauto.
  - apply on_token_total. eauto.
  - exact training_is_numeric.
  - apply on_token_total. eauto.
  - exact training_is_stopword.
  - repeat constructor;
      first [ exact (training_is_numeric_tag _ index Hi)
            | exact (training_is_location index Hi)
            | exact (training_is_publisher index Hi)
            | exact (training_is_unknown index Hi) ].
Qed.

Lemma training_get_data_features (index : nat) :
  (index < length ref_data)%nat ->
  exists v, get_data_features stopwords is_location_name whole_word_search
              ref_data ref_label segment_dict index = Ok v.
Proof.
  intros Hi. unfold get_data_features.
  destruct (training_base_features index Hi) as [base ->]. cbn [rbind].
  destruct (field_block_total _ _ index (training_where_in_author index)
              (training_is_author index Hi)) as [author Ha].
  unfold get_data_features_author. rewrite Ha. cbn [rbind].
  destruct (field_block_total _ _ index (training_where_in_title index)
              (training_is_title index Hi)) as [title Ht].
  unfold get_data_features_title. rewrite Ht. cbn [rbind].
  destruct (field_block_total _ _ index (training_where_in_journal index)
              (training_is_journal index Hi)) as [journal Hj].
  unfold get_data_features_journal. rewrite Hj. cbn [rbind].
  unfold get_data_features_identifying_word, which_identifying_word.
  destruct (training_which_of_table IDENTIFYING_WORDS is_identifying_word index Hi) as [wi ->].
  destruct (item_total ref_data index Hi) as [w [Hw _]]. rewrite Hw. cbn [rbind].
  unfold get_data_features_punctuation, which_punctuation.
  destruct (training_which_of_table PUNCTUATIONS is_punctuation index Hi) as [wp ->].
  rewrite Hw. cbn [rbind].
  destruct (field_block_total _ _ index (training_where_in_editor index)
              (training_is_editor index Hi)) as [editor He].
  unfold get_data_features_editor. rewrite He. cbn [rbind]. eauto.
Qed.

End Training.

(** Without labels the features are read from the segmentation dictionary. *)
Section Inference.

Variable stopwords : list string.
Variable is_location_name : string -> bool.
Variable whole_word_search : string -> string -> bool.
Variable ref_data ref_label : list string.
Variable segment_dict : gmap string pyval.

Hypothesis Hinference : training ref_label = false.
Hypothesis Htokens : no_empty_token ref_data = true.
Hypothesis Hdict : segment_dict_ok segment_dict = true.

Lemma key_present (tag : string) :
  In tag NUMERIC_TAGS -> exists v, getitem segment_dict (Str.lower tag) = Ok v.
Proof.
  intros Hin. unfold segment_dict_ok in Hdict.
  apply andb_prop in Hdict as [H _]. apply andb_prop in H as [H _].
  rewrite forallb_forall in H. specialize (H tag Hin). unfold getitem.
  destruct (segment_dict !! Str.lower tag); [eauto | discriminate].
Qed.

Lemma tokenized_field (field : string) :
  In field [ "authors"; "editors"; "title"; "journal" ] ->
  exists s, get_or_empty segment_dict field = PStr s
            /\ ((0 < Str.len s)%nat ->
                (0 < length (tokenize_identified_multi_words s))%nat).
Proof.
  intros Hin. unfold segment_dict_ok in Hdict.
  apply andb_prop in Hdict as [H _]. apply andb_prop in H as [_ H].
  rewrite forallb_forall in H. specialize (H field Hin). unfold text_field_ok in H.
  destruct (get_or_empty segment_dict field) as [s | |]; try discriminate.
  exists s. split; [reflexivity |]. intros Hs.
  apply orb_prop in H as [H | H].
  - apply Nat.eqb_eq in H. lia.
  - apply Nat.ltb_lt in H. exact H.
Qed.

Lemma searched_field (field : string) :
  In field [ "publisher"; "unknown" ] ->
  exists s, get_or_empty segment_dict field = PStr s.
Proof.
  intros Hin. unfold segment_dict_ok in Hdict.
  apply andb_prop in Hdict as [_ H].
  rewrite forallb_forall in H. specialize (H field Hin). unfold is_text in H.
  destruct (get_or_empty segment_dict field) as [s | |]; try discriminate. eauto.
Qed.

(** One step of a run through a feature: an equation at hand is used, an
    indexing whose bound follows from the tests made so far is resolved,
    or the next test is split. *)
Ltac bounds :=
  rewrite ?andb_true_iff, ?Nat.leb_le, ?Nat.ltb_lt, ?Z.ltb_lt in *; lia.

Ltac run_step :=
  cbn [rbind as_text py_len py_split py_contains];
  match goal with
  | |- exists _, Ok _ = Ok _ => eexists; reflexivity
  | H : ?m = Ok _ |- context [?m] => rewrite H
  | |- context [item ?xs ?i] =>
      let H := fresh "Hbound" in
      let x := fresh "x" in
      let Hx := fresh "Hx" in
      assert (H : (i < length xs)%nat) by bounds;
      destruct (item_total xs i H) as [x [Hx _]]; rewrite Hx; clear H
  | |- context [item_from_end ?xs ?k] =>
      let H := fresh "Hbound" in
      let x := fresh "x" in
      let Hx := fresh "Hx" in
      assert (H : (1 <= k <= length xs)%nat) by bounds;
      destruct (item_from_end_total xs k H) as [x Hx]; rewrite Hx; clear H
  | |- context [if ?c then _ else _] => destruct c eqn:?
  end.

Ltac run_through := repeat run_step.

Lemma inference_is_numeric_tag (tag : string) :
  In tag NUMERIC_TAGS ->
  total_on (length ref_data) (fun i => is_numeric_tag ref_data ref_label segment_dict i tag).
Proof.
  intros Hin i Hi. unfold is_numeric_tag. rewrite Hinference.
  destruct (key_present tag Hin) as [v Hv]. run_through.
Qed.

Lemma inference_any_numeric (i : nat) (tags : list string) :
  (i < length ref_data)%nat -> incl tags NUMERIC_TAGS ->
  exists b, any_numeric ref_data segment_dict i tags = Ok b.
Proof.
  intros Hi. induction tags as [| tag tags IH]; intros Hsub; cbn [any_numeric]; [eauto |].
  destruct (key_present tag (Hsub tag (or_introl eq_refl))) as [v Hv].
  destruct (item_total ref_data i Hi) as [w [Hw _]]. rewrite Hw, Hv. cbn [rbind].
  destruct (equals_value w v); [eauto |].
  apply IH. intros t Ht. apply Hsub. right. exact Ht.
Qed.

Lemma inference_is_numeric :
  total_on (length ref_data) (is_numeric ref_data ref_label segment_dict).
Proof.
  intros i Hi. unfold is_numeric. rewrite Hinference.
  destruct (inference_any_numeric i NUMERIC_TAGS Hi (incl_refl _)) as [b ->].
  cbn [rbind]. eauto.
Qed.

Lemma inference_is_stopword :
  total_on (length ref_data) (is_stopword stopwords ref_data ref_label false).
Proof. intros i Hi. unfold is_stopword. run_through. Qed.

Lemma inference_is_location :
  total_on (length ref_data) (is_location is_location_name ref_data ref_label).
Proof. intros i Hi. unfold is_location. rewrite Hinference. run_through. Qed.

Lemma inference_is_publisher :
  total_on (length ref_data) (is_publisher ref_data ref_label segment_dict).
Proof.
  intros i Hi. unfold is_publisher. rewrite Hinference.
  destruct (searched_field "publisher") as [s ->]; [simpl; auto |]. run_through.
Qed.

Lemma inference_is_unknown :
  total_on (length ref_data) (is_unknown whole_word_search ref_data ref_label segment_dict).
Proof. intros i Hi. unfold is_unknown. rewrite Hinference. run_through. Qed.

Lemma inference_in_field (field : string) (accept : string -> bool) :
  In field [ "authors"; "editors"; "title"; "journal" ] ->
  total_on (length ref_data) (in_field ref_data segment_dict field accept).
Proof.
  intros Hin i Hi. unfold in_field.
  destruct (tokenized_field field Hin) as [s [-> _]]. run_through.
Qed.

Lemma inference_is_author :
  total_on (length ref_data) (is_author ref_data ref_label segment_dict).
Proof.
  unfold is_author. rewrite Hinference. apply inference_in_field. simpl. auto.
Qed.

Lemma inference_is_title :
  total_on (length ref_data) (is_title ref_data ref_label segment_dict).
Proof.
  unfold is_title. rewrite Hinference. apply inference_in_field. simpl. auto.
Qed.

Lemma inference_is_journal :
  total_on (length ref_data) (is_journal ref_data ref_label segment_dict).
Proof.
  unfold is_journal. rewrite Hinference. apply inference_in_field. simpl. auto.
Qed.

Lemma inference_is_editor :
  total_on (length ref_data) (is_editor ref_data ref_label segment_dict).
Proof.
  intros i Hi. unfold is_editor. rewrite Hinference.
  destruct (tokenized_field "editors") as [e [-> _]]; [simpl; auto |].
  destruct (tokenized_field "journal") as [j [-> _]]; [simpl; auto 6 |]. run_through.
Qed.

Lemma inference_which_of_table (table : list (string * list string)) (by_token : string -> Z) :
  total_on (length ref_data) (which_of_table ref_data ref_label table by_token).
Proof. intros i Hi. unfold which_of_table. rewrite Hinference. run_through. Qed.

Lemma inference_where_by_segment (field other : string)
    (middle : list string -> nat -> string -> bool) :
  In field [ "authors"; "editors"; "title"; "journal" ] ->
  In other [ "authors"; "editors"; "title"; "journal" ] ->
  total_on (length ref_data) (where_by_segment ref_data segment_dict field other middle).
Proof.
  intros Hfield Hother i Hi. unfold where_by_segment.
  destruct (tokenized_field field Hfield) as [s [-> Hs]].
  destruct (tokenized_field other Hother) as [o [-> _]].
  cbn [rbind py_len]. destruct (0 <? Str.len s)%nat eqn:Hlen; [| eauto].
  apply Nat.ltb_lt in Hlen. specialize (Hs Hlen). run_through.
Qed.

Lemma inference_where_in_author :
  total_on (length ref_data) (where_in_author ref_data ref_label segment_dict).
Proof.
  unfold where_in_author. rewrite Hinference.
  apply inference_where_by_segment; simpl; auto 6.
Qed.

Lemma inference_where_in_editor :
  total_on (length ref_data) (where_in_editor ref_data ref_label segment_dict).
Proof.
  unfold where_in_editor. rewrite Hinference.
  apply inference_where_by_segment; simpl; auto 6.
Qed.

Lemma inference_where_in_journal :
  total_on (length ref_data) (where_in_journal ref_data ref_label segment_dict).
Proof.
  unfold where_in_journal. rewrite Hinference.
  apply inference_where_by_segment; simpl; auto 6.
Qed.

Lemma inference_where_in_title :
  total_on (length ref_data) (where_in_title stopwords ref_data ref_label segment_dict).
Proof.
  intros i Hi. unfold where_in_title, is_stopword. rewrite Hinference.
  destruct (tokenized_field "title") as [s [-> Hs]]; [simpl; auto 6 |].
  destruct (searched_field "unknown") as [u ->]; [simpl; auto |].
  cbn [rbind py_len]. destruct (0 <? Str.len s)%nat eqn:Hlen; [| eauto].
  apply Nat.ltb_lt in Hlen. specialize (Hs Hlen). run_through.
Qed.

Lemma inference_base_features (index : nat) :
  (index < length ref_data)%nat ->
  exists base, rsequence (base_features stopwords is_location_name whole_word_search
                            ref_data ref_label segment_dict index) = Ok base.
Proof.
  intros Hi. apply rsequence_total. unfold base_features. rewrite Hinference.
  repeat (apply Forall_app; split);
    try (apply with_neighbours_total; [| exact Hi]).
  - apply on_token_total. eauto.
  - apply on_token_total. eauto.
  - apply on_token_total. intros w. exact (first_is_upper_total _ _ Htokens).
  - apply on_token_total. eauto.
  - apply on_token_total. eauto.
  - exact inference_is_numeric.
  - apply on_token_total. eauto.
  - exact inference_is_stopword.
  - repeat constructor;
      first [ exact (inference_is_location index Hi)
            | exact (inference_is_publisher index Hi)
            | exact (inference_is_unknown index Hi)
            | apply inference_is_numeric_tag; [simpl; tauto | exact Hi] ].
Qed.

Lemma inference_get_data_features (index : nat) :
  (index < length ref_data)%nat ->
  exists v, get_data_features stopwords is_location_name whole_word_search
              ref_data ref_label segment_dict index = Ok v.
Proof.
  intros Hi. unfold get_data_features.
  destruct (inference_base_features index Hi) as [base ->]. cbn [rbind].
  destruct (field_block_total _ _ index (inference_where_in_author index Hi)
              (inference_is_author index Hi)) as [author Ha].
  unfold get_data_features_author. rewrite Ha. cbn [rbind].
  destruct (field_block_total _ _ index (inference_where_in_title index Hi)
              (inference_is_title index Hi)) as [title Ht].
  unfold get_data_features_title. rewrite Ht. cbn [rbind].
  destruct (field_block_total _ _ index (inference_where_in_journal index Hi)
              (inference_is_journal index Hi)) as [journal Hj].
  unfold get_data_features_journal. rewrite Hj. cbn [rbind].
  unfold get_data_features_identifying_word, which_identifying_word.
  destruct (inference_which_of_table IDENTIFYING_WORDS is_identifying_word index Hi)
    as [wi ->].
  destruct (item_total ref_data index Hi) as [w [Hw _]]. rewrite Hw. cbn [rbind].
  unfold get_data_features_punctuation, which_punctuation.
  destruct (inference_which_of_table PUNCTUATIONS is_punctuation index Hi) as [wp ->].
  rewrite Hw. cbn [rbind].
  destruct (field_block_total _ _ index (inference_where_in_editor index Hi)
              (inference_is_editor index Hi)) as [editor He].
  unfold get_data_features_editor. rewrite He. cbn [rbind]. eauto.
Qed.

End Inference.

Lemma get_data_features_returns (stopwords : list string) (is_location_name : string -> bool)
    (whole_word_search : string -> string -> bool) (ref_data ref_label : list string)
    (segment_dict : gmap string pyval) (index : nat) :
  call_ok ref_data ref_label segment_dict index = true ->
  exists v, get_data_features stopwords is_location_name whole_word_search
              ref_data ref_label segment_dict index = Ok v.
Proof.
  unfold call_ok. intros H.
  apply andb_prop in H as [H Hmode]. apply andb_prop in H as [Hi Htokens].
  apply Nat.ltb_lt in Hi. destruct (training ref_label) eqn:Htraining.
  - apply andb_prop in Hmode as [Hlabels Hanchored]. apply Nat.eqb_eq in Hlabels.
    now apply training_get_data_features.
  - now apply inference_get_data_features.
Qed.



(** The two vectors of that token, element by element: the author block
    starts at position 35. *)
Example feature_vector_of_first_token :
  example_features example_words example_labels ∅ 0
  = Ok ([ 5; 0; 1; 0; 0; 0; 1; 0; 0; 1 ] ++ repeat 0 25 ++ [ 1; 1 ] ++ repeat 0 37)%Z
  /\ example_features example_words [] example_segments 0
     = Ok ([ 5; 0; 1; 0; 0; 0; 1; 0; 0; 1 ] ++ repeat 0 25 ++ [ 1; 1 ] ++ repeat 0 37)%Z.
Proof. split; vm_compute; reflexivity. Qed.

(** Outside these calls the function raises: on an index past the end, on
    an empty token, without the numeric keys, and on author labels none of
    which can start the authors. *)
Example feature_vector_raises :
  example_features example_words example_labels ∅ 11 = Raise IndexError
  /\ example_features [ "" ] [] example_segments 0 = Raise IndexError
  /\ example_features example_words [] ∅ 0 = Raise KeyError
  /\ example_features [ "M" ] [ "AUTHOR_MIDDLE_NAME" ] ∅ 0 = Raise StopIteration.
Proof. repeat split; vm_compute; reflexivity. Qed.

End FeaturesProofs.

(** * More properties *)

(** ** Reading an [Evidences] object *)

Module ScoresProofs.
Import Evidence Scores StrFacts.

Lemma built_parallel (self : Evidences) :
  built self -> length (labels self) = length (evidences self).
Proof.
  induction 1 as [a b | self after e l _ IH Hadd | self other after _ IH1 _ IH2 Hadd
                  | self _ IH].
  - reflexivity.
  - unfold add_evidence in Hadd. destruct (in_range self e); [| discriminate].
    injection Hadd as <-. cbn [labels evidences]. rewrite !length_app, IH. reflexivity.
  - unfold add in Hadd. destruct (forallb _ _); [| discriminate].
    injection Hadd as <-. cbn [labels evidences]. rewrite !length_app, IH1, IH2. reflexivity.
  - unfold get_score. destruct (evidences self) as [| e es] eqn:He.
    + cbn [snd]. rewrite He. exact IH.
    + destruct (score self); cbn [snd labels evidences]; rewrite ?He; exact IH.
Qed.

Lemma zip_lookup_mem (label : string) (ls : list string) (evs : list Q) :
  length ls = length evs -> Str.mem label ls = true ->
  exists e, zip_lookup label ls evs = Some e.
Proof.
  revert evs. induction ls as [| l ls IH]; intros [| e evs] Hlen Hmem; try discriminate.
  cbn [zip_lookup]. unfold Str.mem in Hmem. cbn [existsb] in Hmem.
  destruct (zip_lookup label ls evs) as [e' |] eqn:Hz; [eauto |].
  rewrite (str_eqb_sym l label).
  destruct (Str.eqb label l); [eauto |]. cbn [orb] in Hmem.
  injection Hlen as Hlen. destruct (IH evs Hlen Hmem) as [e' He']. congruence.
Qed.

Lemma neg_inds_from_bound (evs : list Q) (ind i : nat) :
  In i (neg_inds_from ind evs) -> (ind <= i < ind + length evs)%nat.
Proof.
  revert ind. induction evs as [| ev evs IH]; intros ind; cbn [neg_inds_from length];
    [intros [] |].
  destruct (Qle_bool ev 0).
  - intros [<- | H]; [lia | apply IH in H; lia].
  - intros H. apply IH in H. lia.
Qed.

(** X1.  Every object built by the methods of the class holds as many
    labels as scores, and its length is that number.  So [self[label]]
    returns for every label, with [None] exactly for the labels that were
    never entered, and [single_veto_from] returns for every label: the
    [KeyError] and the [IndexError] that unequal lists would give do not
    occur. *)
Theorem built_lists_parallel (self : Evidences) :
  built self ->
  length (labels self) = length (evidences self)
  /\ len self = length (labels self)
  /\ (forall label,
        if Str.mem label (labels self)
        then exists e, getitem self label = Ok (Some e)
        else getitem self label = Ok None)
  /\ (forall field_label, exists b, single_veto_from self field_label = Ok b).
Proof.
  intros Hb. pose proof (built_parallel self Hb) as Hp.
  split; [exact Hp |]. split; [unfold len; symmetry; exact Hp |]. split.
  - intros label. unfold getitem. destruct (Str.mem label (labels self)) eqn:Hm; [| reflexivity].
    destruct (zip_lookup_mem label _ _ Hp Hm) as [e ->]. eauto.
  - intros field_label. unfold single_veto_from, neg_inds.
    destruct (neg_inds_from 0 (evidences self)) as [| ind [| ind' rest]] eqn:Hn; eauto.
    assert (Hin : In ind (neg_inds_from 0 (evidences self))) by (rewrite Hn; left; reflexivity).
    apply neg_inds_from_bound in Hin.
    destruct (lookup_lt_is_Some_2 (labels self) ind) as [l Hl]; [lia |].
    rewrite Hl. eauto.
Qed.

Lemma built_lists_parallel_witness :
  built (appended (new (-1) 1) [1 # 2] ["year"])
  /\ (exists e, getitem (appended (new (-1) 1) [1 # 2] ["year"]) "year" = Ok (Some e))
  /\ getitem (appended (new (-1) 1) [1 # 2] ["year"]) "page" = Ok None.
Proof.
  assert (Hb : built (appended (new (-1) 1) [1 # 2] ["year"])).
  { apply (built_add_evidence (new (-1) 1) _ (1 # 2) "year"); [apply built_new | reflexivity]. }
  destruct (built_lists_parallel _ Hb) as (_ & _ & H3 & _).
  split; [exact Hb |]. split; [exact (H3 "year") | exact (H3 "page")].
Defined.

Lemma built_coherent (self : Evidences) :
  built self ->
  match score self with
  | Some s => s = sum self
  | None => True
  end.
Proof.
  induction 1 as [a b | self after e l _ IH Hadd | self other after _ IH1 _ IH2 Hadd
                  | self _ IH].
  - exact I.
  - unfold add_evidence in Hadd. destruct (in_range self e); [| discriminate].
    injection Hadd as <-. exact I.
  - unfold add in Hadd. destruct (forallb _ _); [| discriminate].
    injection Hadd as <-. exact I.
  - unfold get_score. destruct (evidences self) as [| e es] eqn:He; [exact IH |].
    destruct (score self) as [s |] eqn:Hs; cbn [snd score].
    + rewrite Hs. exact IH.
    + unfold sum. cbn [evidences]. rewrite He. reflexivity.
Qed.



Lemma zip_lookup_not_mem (label : string) (ls : list string) (evs : list Q) :
  Str.mem label ls = false -> zip_lookup label ls evs = None.
Proof.
  revert evs. induction ls as [| l ls IH]; intros [| e evs]; try reflexivity.
  unfold Str.mem. cbn [existsb zip_lookup]. rewrite (str_eqb_sym label l).
  destruct (Str.eqb l label); [discriminate |]. cbn [orb]. intros Hm.
  rewrite (IH evs Hm). reflexivity.
Qed.

Lemma zip_lookup_snoc (label l : string) (e : Q) (ls : list string) (evs : list Q) :
  length ls = length evs ->
  zip_lookup label (ls ++ [l]) (evs ++ [e])
  = if Str.eqb l label then Some e else zip_lookup label ls evs.
Proof.
  revert evs. induction ls as [| l0 ls IH]; intros [| e0 evs] Hlen; try discriminate.
  - cbn. destruct (Str.eqb l label); reflexivity.
  - injection Hlen as Hlen. cbn [app zip_lookup]. rewrite (IH evs Hlen).
    destruct (Str.eqb l label); reflexivity.
Qed.

Lemma mem_snoc (label l : string) (ls : list string) :
  Str.mem label (ls ++ [l]) = Str.mem label ls || Str.eqb l label.
Proof.
  unfold Str.mem. rewrite existsb_app. cbn [existsb]. rewrite orb_false_r.
  rewrite (str_eqb_sym label l). reflexivity.
Qed.

Lemma combine_snoc {A B : Type} (xs : list A) (ys : list B) (x : A) (y : B) :
  length xs = length ys -> combine (xs ++ [x]) (ys ++ [y]) = combine xs ys ++ [(x, y)].
Proof.
  revert ys. induction xs as [| x0 xs IH]; intros [| y0 ys] Hlen; try discriminate.
  - reflexivity.
  - injection Hlen as Hlen. cbn. rewrite (IH ys Hlen). reflexivity.
Qed.

Lemma zip_lookup_last (label : string) (ls : list string) (evs : list Q) :
  length ls = length evs ->
  zip_lookup label ls evs
  = match List.find (fun le => Str.eqb (fst le) label) (List.rev (combine ls evs)) with
    | Some le => Some (snd le)
    | None => None
    end.
Proof.
  revert evs. induction ls as [| l ls IH] using rev_ind; intros evs Hlen.
  - destruct evs; reflexivity.
  - destruct evs as [| e evs _] using rev_ind.
    + rewrite length_app in Hlen. cbn in Hlen. lia.
    + rewrite !length_app in Hlen. cbn in Hlen.
      assert (Hl : length ls = length evs) by lia.
      rewrite (zip_lookup_snoc _ _ _ _ _ Hl).
      rewrite (combine_snoc _ _ _ _ Hl), rev_app_distr.
      cbn [List.rev app List.find fst snd].
      destruct (Str.eqb l label); [reflexivity | apply IH, Hl].
Qed.

(** X3.  [self[label]] reads what [add_evidence] wrote: after
    [add_evidence(evidence, label)] on an object with as many labels as
    scores, [self[label]] is [evidence], also when the label was there
    before, and every other label reads as it did.  In general
    [self[label]] is the score entered last under the label, and [None]
    when there is none. *)
Theorem getitem_reads_last_entry (self after : Evidences) (evidence : Q) (label : string) :
  length (labels self) = length (evidences self) ->
  add_evidence self evidence label = Ok after ->
  getitem after label = Ok (Some evidence)
  /\ (forall other, other <> label -> getitem after other = getitem self other)
  /\ (forall any, getitem self any = Ok (last_under any self))
  /\ (forall any, getitem after any = Ok (last_under any after)).
Proof.
  intros Hp Hadd.
  assert (Hlast : forall s any, length (labels s) = length (evidences s) ->
                    getitem s any = Ok (last_under any s)).
  { intros s any Hs. unfold getitem, last_under. rewrite <- (zip_lookup_last any _ _ Hs).
    destruct (Str.mem any (labels s)) eqn:Hm.
    - destruct (zip_lookup_mem any _ _ Hs Hm) as [e ->]. reflexivity.
    - rewrite (zip_lookup_not_mem any _ _ Hm). reflexivity. }
  unfold add_evidence in Hadd. destruct (in_range self evidence); [| discriminate].
  injection Hadd as <-.
  assert (Hafter : length (labels self ++ [label]) = length (evidences self ++ [evidence]))
    by (rewrite !length_app, Hp; reflexivity).
  repeat split.
  - unfold getitem. cbn [labels evidences]. rewrite mem_snoc, str_eqb_refl, orb_true_r.
    rewrite (zip_lookup_snoc _ _ _ _ _ Hp), str_eqb_refl. reflexivity.
  - intros other Hne. unfold getitem. cbn [labels evidences].
    assert (Hf : Str.eqb label other = false) by (apply str_eqb_neq; congruence).
    rewrite mem_snoc, Hf, orb_false_r, (zip_lookup_snoc _ _ _ _ _ Hp), Hf. reflexivity.
  - intros any. apply Hlast, Hp.
  - intros any. apply Hlast. exact Hafter.
Qed.

Lemma getitem_reads_last_entry_witness :
  getitem (appended (appended (new (-1) 1) [1 # 2] ["year"]) [1 # 4] ["year"]) "year"
  = Ok (Some (1 # 4)).
Proof.
  refine (proj1 (getitem_reads_last_entry (appended (new (-1) 1) [1 # 2] ["year"]) _
                   (1 # 4) "year" _ _)); reflexivity.
Defined.

(** X4.  A new object has no veto; there is a veto exactly when some
    score held is zero or negative; and insertions only add vetoes: after
    [add_evidence] there is one when there was one or the new score is not
    positive, after [+] when either operand had one. *)
Theorem veto_is_kept (self other : Evidences) (evidence : Q) (label : string)
    (range_min range_max : Q) :
  has_veto (new range_min range_max) = false
  /\ (has_veto self = true <-> exists e, In e (evidences self) /\ (e <= 0)%Q)
  /\ (has_veto self = false <-> Forall (fun e => (0 < e)%Q) (evidences self))
  /\ (forall after, add_evidence self evidence label = Ok after ->
                    has_veto after = has_veto self || Qle_bool evidence 0)
  /\ (forall after, add self other = Ok after ->
                    has_veto after = has_veto self || has_veto other).
Proof.
  split; [reflexivity |]. split; [| split; [| split]].
  - unfold has_veto. rewrite existsb_exists. split; intros [e [Hin He]]; exists e;
      (split; [exact Hin |]); apply Qle_bool_iff; exact He.
  - unfold has_veto. rewrite List.Forall_forall. split.
    + intros H e Hin. apply Qnot_le_lt. intros Hle.
      assert (Ht : existsb (fun e0 => Qle_bool e0 0) (evidences self) = true).
      { apply existsb_exists. exists e. split; [exact Hin | apply Qle_bool_iff; exact Hle]. }
      congruence.
    + intros H. destruct (existsb _ _) eqn:Hex; [| reflexivity].
      apply existsb_exists in Hex as [e [Hin He]]. apply Qle_bool_iff in He.
      exfalso. exact (Qlt_not_le _ _ (H e Hin) He).
  - intros after Hadd. unfold add_evidence in Hadd.
    destruct (in_range self evidence); [| discriminate]. injection Hadd as <-.
    unfold has_veto. cbn [evidences]. rewrite existsb_app. cbn [existsb].
    rewrite orb_false_r. reflexivity.
  - intros after Hadd. unfold add in Hadd.
    destruct (forallb _ _); [| discriminate]. injection Hadd as <-.
    unfold has_veto. cbn [evidences]. apply existsb_app.
Qed.

Lemma neg_inds_from_spec (evs : list Q) (ind i : nat) :
  In i (neg_inds_from ind evs)
  <-> (ind <= i)%nat /\ exists e, evs !! (i - ind)%nat = Some e /\ Qle_bool e 0 = true.
Proof.
  revert ind. induction evs as [| ev evs IH]; intros ind; cbn [neg_inds_from].
  - split; [intros [] | intros [_ [e [He _]]]; discriminate].
  - assert (Hrest : In i (neg_inds_from (S ind) evs)
                    <-> (ind < i)%nat
                        /\ exists e, (ev :: evs) !! (i - ind)%nat = Some e /\ Qle_bool e 0 = true).
    { rewrite IH. split; intros [Hle [e [He Hn]]]; (split; [lia |]); exists e;
        (split; [| exact Hn]).
      - replace (i - ind)%nat with (S (i - S ind)) by lia. exact He.
      - replace (i - ind)%nat with (S (i - S ind)) in He by lia. exact He. }
    destruct (Qle_bool ev 0) eqn:Hev.
    + cbn [In]. rewrite Hrest. split.
      * intros [<- | [Hlt H]]; [| split; [lia | exact H]].
        split; [lia |]. exists ev. rewrite Nat.sub_diag. auto.
      * intros [Hle [e [He Hn]]]. destruct (Nat.eq_dec ind i) as [-> | Hne]; [left; reflexivity |].
        right. split; [lia |]. eauto.
    + rewrite Hrest. split.
      * intros [Hlt H]. split; [lia | exact H].
      * intros [Hle [e [He Hn]]]. split; [| eauto].
        destruct (Nat.eq_dec ind i) as [-> | Hne]; [| lia].
        rewrite Nat.sub_diag in He. cbn in He. injection He as <-. congruence.
Qed.

Lemma neg_inds_from_singleton (evs : list Q) (ind i : nat) :
  In i (neg_inds_from ind evs) -> (forall j, In j (neg_inds_from ind evs) -> j = i) ->
  neg_inds_from ind evs = [i].
Proof.
  revert ind. induction evs as [| ev evs IH]; intros ind; cbn [neg_inds_from];
    [intros [] |].
  destruct (Qle_bool ev 0); [| apply IH].
  intros _ Hall.
  destruct (neg_inds_from (S ind) evs) as [| j rest] eqn:Hrest;
    [rewrite (Hall ind (or_introl eq_refl)); reflexivity |].
  exfalso. assert (Hj : In j (neg_inds_from (S ind) evs)) by (rewrite Hrest; left; reflexivity).
  apply neg_inds_from_bound in Hj.
  pose proof (Hall ind (or_introl eq_refl)). pose proof (Hall j (or_intror (or_introl eq_refl))).
  lia.
Qed.

(** X5.  On an object with as many labels as scores,
    [single_veto_from(field_label)] is true exactly when one position
    holds a score that is zero or negative, no other position does, and
    the label at that position is [field_label]; it is then an object
    with a veto. *)
Theorem single_veto_from_one_position (self : Evidences) (field_label : string) :
  length (labels self) = length (evidences self) ->
  (single_veto_from self field_label = Ok true
   <-> exists i e, evidences self !! i = Some e /\ (e <= 0)%Q
                   /\ labels self !! i = Some field_label
                   /\ forall j e', evidences self !! j = Some e' -> (e' <= 0)%Q -> j = i)
  /\ (single_veto_from self field_label = Ok true -> has_veto self = true).
Proof.
  intros Hp.
  assert (Hspec : forall i, In i (neg_inds self)
                    <-> exists e, evidences self !! i = Some e /\ (e <= 0)%Q).
  { intros i. unfold neg_inds. rewrite neg_inds_from_spec, Nat.sub_0_r.
    split.
    - intros [_ [e [He Hn]]]. exists e. split; [exact He | apply Qle_bool_iff, Hn].
    - intros [e [He Hn]]. split; [lia |]. exists e. split; [exact He | apply Qle_bool_iff, Hn]. }
  assert (Hiff : single_veto_from self field_label = Ok true
                 <-> exists i e, evidences self !! i = Some e /\ (e <= 0)%Q
                     /\ labels self !! i = Some field_label
                     /\ forall j e', evidences self !! j = Some e' -> (e' <= 0)%Q -> j = i).
  { unfold single_veto_from. split.
    - destruct (neg_inds self) as [| i [| i' rest]] eqn:Hn; try discriminate.
      destruct (labels self !! i) as [l |] eqn:Hl; [| discriminate].
      intros H. injection H as H. apply str_eqb_eq in H. subst l.
      destruct (proj1 (Hspec i)) as [e [He Hle]]; [rewrite ?Hn; left; reflexivity |].
      exists i, e. repeat split; try assumption.
      intros j e' Hj Hle'. assert (Hin : In j [i]) by (apply Hspec; eauto).
      destruct Hin as [<- | []]. reflexivity.
    - intros (i & e & He & Hle & Hl & Hall).
      assert (Hn : neg_inds self = [i]).
      { apply neg_inds_from_singleton.
        - apply Hspec. eauto.
        - intros j Hj. apply Hspec in Hj as [e' [He' Hle']]. eauto. }
      rewrite Hn, Hl, str_eqb_refl. reflexivity. }
  split; [exact Hiff |].
  intros H. apply Hiff in H as (i & e & He & Hle & _).
  unfold has_veto. apply existsb_exists. exists e. split.
  - apply list_elem_of_In. exact (list_elem_of_lookup_2 _ _ _ He).
  - apply Qle_bool_iff. exact Hle.
Qed.

Lemma single_veto_from_one_position_witness :
  single_veto_from (appended (appended (new (-1) 1) [1 # 2] ["year"]) [-1 # 2] ["page"]) "page"
  = Ok true
  /\ has_veto (appended (appended (new (-1) 1) [1 # 2] ["year"]) [-1 # 2] ["page"]) = true.
Proof.
  split; [reflexivity |].
  apply (proj2 (single_veto_from_one_position
                  (appended (appended (new (-1) 1) [1 # 2] ["year"]) [-1 # 2] ["page"])
                  "page" eq_refl)).
  reflexivity.
Defined.

Lemma get_score_sum (self : Evidences) : built self -> fst (get_score self) = sum self.
Proof.
  intros Hb. pose proof (built_coherent self Hb) as Hc. unfold get_score.
  destruct (evidences self) as [| e es] eqn:He.
  - unfold sum. rewrite He. reflexivity.
  - destruct (score self) as [s |] eqn:Hs; cbn [fst]; [exact Hc | reflexivity].
Qed.



End ScoresProofs.

(** ** Decoding, and the training matrices *)

Module TrainingDataProofs.
Import Crf Features LabelCode TrainingData StrFacts LabelCodeProofs FeaturesProofs.

Lemma codes_lookup (d : label_code) (s i : nat) (k : string) (v : Z) :
  codes d = map Z.of_nat (seq s (length d)) -> d !! i = Some (k, v) -> v = Z.of_nat (s + i).
Proof.
  revert s i. induction d as [| [k0 v0] d IH]; intros s i Hd Hi; [discriminate |].
  cbn in Hd. injection Hd as Hv0 Hd. destruct i as [| i]; cbn in Hi.
  - injection Hi as <- <-. rewrite Nat.add_0_r. exact Hv0.
  - rewrite (IH (S s) i Hd Hi). f_equal. lia.
Qed.

Lemma dense_lookup (d : label_code) (i : nat) (k : string) (v : Z) :
  dense d -> d !! i = Some (k, v) -> v = Z.of_nat i.
Proof. intros Hd Hi. exact (codes_lookup d 0 i k v Hd Hi). Qed.

Lemma key_of_in_range (d : label_code) (c : Z) :
  dense d -> NoDup (keys d) -> (0 <= c < Z.of_nat (length d))%Z ->
  exists k, key_of d c = Ok k /\ get_item d k = Ok c /\ In k (keys d).
Proof.
  intros Hd Hnd Hc.
  destruct (lookup_lt_is_Some_2 d (Z.to_nat c)) as [[k v] Hkv]; [lia |].
  pose proof (dense_lookup d _ k v Hd Hkv) as Hv. rewrite Z2Nat.id in Hv by lia. subst v.
  exists k. split; [exact (key_of_position d 0 _ k c Hd Hkv) |].
  split; [exact (get_item_position d _ k c Hnd Hkv) |].
  unfold keys. apply in_map_iff. exists (k, c). split; [reflexivity |].
  apply list_elem_of_In. exact (list_elem_of_lookup_2 _ _ _ Hkv).
Qed.

Lemma key_of_found (d : label_code) (c : Z) (k : string) :
  key_of d c = Ok k -> In c (codes d).
Proof.
  induction d as [| [k0 v0] d IH]; cbn [key_of]; [discriminate |].
  destruct (Z.eqb_spec v0 c) as [-> | _]; [intros _; left; reflexivity |].
  intros H. right. exact (IH H).
Qed.

Lemma key_of_raises (d : label_code) (c : Z) :
  match key_of d c with Ok _ => True | Raise e => e = StopIteration end.
Proof.
  induction d as [| [k0 v0] d IH]; cbn [key_of]; [reflexivity |].
  destruct (v0 =? c)%Z; [exact I | exact IH].
Qed.

Lemma key_of_out_of_range (d : label_code) (c : Z) :
  dense d -> ~ (0 <= c < Z.of_nat (length d))%Z -> key_of d c = Raise StopIteration.
Proof.
  intros Hd Hc. pose proof (key_of_raises d c) as Hr.
  destruct (key_of d c) as [k | e] eqn:Hk; [| congruence].
  exfalso. apply Hc. apply key_of_found in Hk. rewrite Hd in Hk.
  apply in_map_iff in Hk as [j [<- Hj]]. apply in_seq in Hj. lia.
Qed.

Lemma encoder_well_formed (labels : list (list string)) :
  dense (encoder labels) /\ NoDup (keys (encoder labels)).
Proof.
  assert (Hwf : well_formed (run ([], (-1)%Z) (concat labels)))
    by apply run_well_formed, initial_well_formed.
  destruct Hwf as (Hd & Hn & _). rewrite encoder_as_run. split; assumption.
Qed.

(** X6.  With the table that [encoder] builds, [decoder] returns exactly
    on the sequences whose codes all lie in 0 .. n-1, where n is the number
    of labels of the table, and raises [StopIteration] on every other
    sequence.  When it returns, it gives one label of the table for each
    code, and encoding these labels gives the codes back. *)
Theorem decoder_returns_within_codes (labels : list (list string)) (numeric_label : list Z) :
  let d := encoder labels in
  let known (c : Z) := (0 <= c < Z.of_nat (length d))%Z in
  (Forall known numeric_label ->
   exists ls, decoder d numeric_label = Ok ls
              /\ length ls = length numeric_label
              /\ Forall (fun l => In l (keys d)) ls
              /\ encode d ls = Ok numeric_label)
  /\ (~ Forall known numeric_label -> decoder d numeric_label = Raise StopIteration).
Proof.
  intros d known. destruct (encoder_well_formed labels) as [Hd Hnd]. fold d in Hd, Hnd.
  split.
  - induction 1 as [| c cs Hc _ (ls & Hdec & Hlen & Hin & Henc)].
    + exists []. repeat split. constructor.
    + destruct (key_of_in_range d c Hd Hnd Hc) as (k & Hk & Hget & Hkin).
      exists (k :: ls). cbn [decoder encode length]. rewrite Hk, Hget. cbn [rbind].
      rewrite Hdec, Henc. cbn [rbind]. repeat split; [f_equal; exact Hlen |].
      constructor; assumption.
  - induction numeric_label as [| c cs IH]; intros Hnot.
    + exfalso. apply Hnot. constructor.
    + cbn [decoder]. destruct (Z_le_dec 0 c) as [Hlo |];
        [destruct (Z_lt_dec c (Z.of_nat (length d))) as [Hhi |] |].
      * destruct (key_of_in_range d c Hd Hnd (conj Hlo Hhi)) as (k & -> & _). cbn [rbind].
        rewrite IH; [reflexivity |]. intros Hall. apply Hnot. constructor; [split |]; assumption.
      * rewrite (key_of_out_of_range d c Hd); [reflexivity | unfold known; lia].
      * rewrite (key_of_out_of_range d c Hd); [reflexivity | unfold known; lia].
Qed.

Lemma rsequence_map {A B : Type} (f : A -> result B) (P : A -> B -> Prop) (xs : list A) :
  (forall x, In x xs -> exists y, f x = Ok y /\ P x y) ->
  exists ys, rsequence (map f xs) = Ok ys /\ Forall2 P xs ys.
Proof.
  induction xs as [| x xs IH]; intros H; cbn [map rsequence].
  - exists []. split; [reflexivity | constructor].
  - destruct (H x (or_introl eq_refl)) as (y & Hy & Hp).
    destruct IH as (ys & Hys & Hall); [intros x' Hx'; apply H; right; exact Hx' |].
    exists (y :: ys). rewrite Hy, Hys. split; [reflexivity | constructor; assumption].
Qed.

Lemma combine_maps {A B C : Type} (f : A -> B) (g : A -> C) (xs : list A) :
  combine (map f xs) (map g xs) = map (fun x => (f x, g x)) xs.
Proof. induction xs as [| x xs IH]; cbn; [| rewrite IH]; reflexivity. Qed.

Lemma Forall2_unzip {A B C : Type} (P : A -> B -> Prop) (Q : A -> C -> Prop) (xs : list A)
    (ys : list (B * C)) :
  Forall2 (fun x y => P x (fst y) /\ Q x (snd y)) xs ys ->
  Forall2 P xs (map fst ys) /\ Forall2 Q xs (map snd ys).
Proof.
  induction 1 as [| x y xs ys [Hp Hq] _ [IH1 IH2]]; cbn [map]; split; constructor; assumption.
Qed.

Lemma encode_length (d : label_code) (label : list string) (cs : list Z) :
  encode d label = Ok cs -> length cs = length label.
Proof.
  revert cs. induction label as [| l label IH]; intros cs; simpl.
  - intros H. injection H as <-. reflexivity.
  - destruct (get_item d l); simpl; [| discriminate].
    destruct (encode d label) as [cs' |]; simpl; [| discriminate].
    intros H. injection H as <-. simpl. f_equal. apply IH. reflexivity.
Qed.

Section WithConfiguration.

Variable stopwords : list string.
Variable is_location_name : string -> bool.
Variable whole_word_search : string -> string -> bool.

Lemma format_reference_returns (d : label_code) (ref : list (string * string)) :
  dense d -> NoDup (keys d) -> Forall (fun l => In l (keys d)) (map fst ref) ->
  no_empty_token (map snd ref) = true -> anchored (map fst ref) = true ->
  exists feature numeric_label,
    format_reference stopwords is_location_name whole_word_search d (map fst ref) (map snd ref)
    = Ok (feature, numeric_label)
    /\ length feature = length ref
    /\ Forall (fun v => length v = 74%nat) feature
    /\ length numeric_label = length ref
    /\ decoder d numeric_label = Ok (map fst ref).
Proof.
  intros Hd Hnd Hin Htok Hanch. unfold format_reference.
  destruct (roundtrip_sequence d (map fst ref) Hd Hnd Hin) as (cs & Henc & Hdec).
  rewrite Henc. cbn [rbind].
  destruct (rsequence_map
              (fun idx => get_data_features stopwords is_location_name whole_word_search
                            (map snd ref) (map fst ref) ∅ idx)
              (fun _ v => length v = 74%nat) (seq 0 (length (map snd ref))))
    as (feature & Hf & Hall).
  { intros idx Hidx. apply in_seq in Hidx.
    assert (Hok : call_ok (map snd ref) (map fst ref) ∅ idx = true).
    { unfold call_ok, training. rewrite !length_map in *.
      assert (Hlt : (idx <? length ref)%nat = true) by (apply Nat.ltb_lt; lia).
      assert (Hpos : (0 <? length ref)%nat = true) by (apply Nat.ltb_lt; lia).
      rewrite Hlt, Htok, Hpos, Nat.eqb_refl, Hanch. reflexivity. }
    destruct (get_data_features_returns stopwords is_location_name whole_word_search
                _ _ _ _ Hok) as [v Hv].
    exists v. split; [exact Hv | exact (vector_length _ _ _ _ _ _ _ _ Hv)]. }
  rewrite Hf. cbn [rbind]. exists feature, cs. split; [reflexivity |].
  pose proof (Forall2_length _ _ _ Hall) as Hlen. rewrite length_seq, length_map in Hlen.
  split; [symmetry; exact Hlen |]. split.
  - clear - Hall. induction Hall; constructor; assumption.
  - split; [| exact Hdec].
    rewrite <- (length_map fst ref). exact (encode_length d _ _ Henc).
Qed.

End WithConfiguration.

Lemma usable_reference (the_data : list (list (string * string))) (ref : list (string * string)) :
  usable the_data = true -> In ref the_data ->
  no_empty_token (map snd ref) = true /\ anchored (map fst ref) = true.
Proof.
  unfold usable. rewrite forallb_forall. intros H Hin.
  apply andb_prop. exact (H ref Hin).
Qed.



End TrainingDataProofs.

(** ** Indicators of the feature vector *)

Module IndicatorsProofs.
Import Re Crf Features Indicators StrFacts FeaturesProofs.

Lemma b2z_binary (b : bool) : binary (b2z b).
Proof. destruct b; [right | left]; reflexivity. Qed.

Lemma one_hot_binary (n : nat) (which : Z) : Forall binary (one_hot n which).
Proof.
  unfold one_hot. apply List.Forall_forall. intros z Hz.
  apply in_map_iff in Hz as [k [<- _]]. apply b2z_binary.
Qed.

Lemma one_hot_from (s n : nat) (which : Z) :
  set_bits (map (fun k => b2z (which =? Z.of_nat k)%Z) (seq s n))
  = b2z ((Z.of_nat s <=? which)%Z && (which <? Z.of_nat (s + n))%Z).
Proof.
  revert s. induction n as [| n IH]; intros s; cbn [seq map].
  - unfold set_bits. cbn. destruct (Z.leb_spec (Z.of_nat s) which), (Z.ltb_spec which (Z.of_nat (s + 0)));
      try reflexivity. lia.
  - change (set_bits (?x :: ?xs)) with (x + set_bits xs)%Z. rewrite IH.
    destruct (Z.eqb_spec which (Z.of_nat s)), (Z.leb_spec (Z.of_nat (S s)) which),
      (Z.ltb_spec which (Z.of_nat (S s + n))), (Z.leb_spec (Z.of_nat s) which),
      (Z.ltb_spec which (Z.of_nat (s + S n))); cbn; try reflexivity; lia.
Qed.

(** the one-hot list of [which] has a bit set exactly when [which] is one
    of 1, ..., [n] *)
Lemma one_hot_set_bits (n : nat) (which : Z) :
  set_bits (one_hot n which) = b2z ((1 <=? which)%Z && (which <=? Z.of_nat n)%Z).
Proof.
  unfold one_hot. rewrite one_hot_from. f_equal. f_equal.
  destruct (Z.ltb_spec which (Z.of_nat (1 + n))), (Z.leb_spec which (Z.of_nat n));
    try reflexivity; lia.
Qed.

Lemma first_position_range {A : Type} (p : A -> bool) (xs : list A) :
  (0 <= first_position p xs <= Z.of_nat (length xs))%Z.
Proof.
  induction xs as [| x xs IH]; cbn [first_position length]; [lia |].
  destruct (p x); [lia |]. destruct (Z.eqb_spec (first_position p xs) 0); lia.
Qed.

Lemma rsequence_app {A : Type} (ms1 ms2 : list (result A)) (v : list A) :
  rsequence (ms1 ++ ms2) = Ok v ->
  exists v1 v2, v = v1 ++ v2 /\ rsequence ms1 = Ok v1 /\ rsequence ms2 = Ok v2.
Proof.
  revert v. induction ms1 as [| m ms1 IH]; intros v; cbn [app rsequence].
  - intros H. exists [], v. auto.
  - destruct m as [a | e]; cbn [rbind]; [| discriminate].
    destruct (rsequence (ms1 ++ ms2)) as [rest | e] eqn:Hr; cbn [rbind]; [| discriminate].
    intros H. injection H as <-. destruct (IH rest eq_refl) as (v1 & v2 & -> & -> & H2).
    exists (a :: v1), v2. auto.
Qed.

Lemma rsequence_forall {A : Type} (P : A -> Prop) (ms : list (result A)) (v : list A) :
  rsequence ms = Ok v -> Forall (fun m => forall a, m = Ok a -> P a) ms -> Forall P v.
Proof.
  revert v. induction ms as [| m ms IH]; intros v; cbn [rsequence].
  - intros H _. injection H as <-. constructor.
  - destruct m as [a | e]; cbn [rbind]; [| discriminate].
    destruct (rsequence ms) as [rest | e]; cbn [rbind]; [| discriminate].
    intros H Hall. injection H as <-. inversion Hall; subst. constructor; auto.
Qed.

Ltac each_element :=
  repeat match goal with
         | |- Forall _ (_ :: _) => constructor
         | |- Forall _ [] => constructor
         end.

Lemma with_neighbours_binary (ref_data : list string) (index : nat) (f : nat -> result Z) :
  binary_valued f ->
  Forall (fun m => forall z, m = Ok z -> binary z) (with_neighbours ref_data index f).
Proof.
  intros Hf. unfold with_neighbours, if_previous, if_next. each_element.
  - apply Hf.
  - destruct (0 <? index)%nat; [apply Hf |]. intros z H. injection H as <-. left. reflexivity.
  - destruct (_ <? _)%Z; [apply Hf |]. intros z H. injection H as <-. left. reflexivity.
Qed.

(** A run through a feature function that has returned [z]: each test and
    each call on the way is split until the value is in sight. *)
Ltac value_of H :=
  repeat match type of H with
         | Ok _ = Ok _ => injection H as <-
         | Raise _ = Ok _ => discriminate H
         | context [rbind ?m _] => destruct m eqn:?; cbn [rbind] in H
         | context [if ?c then _ else _] => destruct c eqn:?
         | context [match ?x with _ => _ end] => destruct x eqn:?
         end.

Ltac indicator :=
  unfold binary, b2z;
  repeat match goal with |- context [if ?c then _ else _] => destruct c end;
  first [left; reflexivity | right; reflexivity].

Section Vector.

Variable stopwords : list string.
Variable is_location_name : string -> bool.
Variable whole_word_search : string -> string -> bool.
Variable ref_data ref_label : list string.
Variable segment_dict : gmap string pyval.

Lemma on_token_binary (p : string -> bool) :
  binary_valued (on_token ref_data (fun w => Ok (b2z (p w)))).
Proof. intros i z H. unfold on_token in H. value_of H. indicator. Qed.

Lemma first_is_upper_binary : binary_valued (on_token ref_data first_is_upper).
Proof. intros i z H. unfold on_token, first_is_upper in H. value_of H. indicator. Qed.

Lemma is_numeric_binary : binary_valued (is_numeric ref_data ref_label segment_dict).
Proof. intros i z H. unfold is_numeric in H. value_of H; indicator. Qed.

Lemma is_stopword_binary (in_training : bool) :
  binary_valued (is_stopword stopwords ref_data ref_label in_training).
Proof. intros i z H. unfold is_stopword in H. value_of H; indicator. Qed.

Lemma is_numeric_tag_binary (tag : string) :
  binary_valued (fun i => is_numeric_tag ref_data ref_label segment_dict i tag).
Proof. intros i z H. unfold is_numeric_tag in H. value_of H; indicator. Qed.

Lemma is_location_binary : binary_valued (is_location is_location_name ref_data ref_label).
Proof. intros i z H. unfold is_location in H. value_of H; indicator. Qed.

Lemma is_publisher_binary : binary_valued (is_publisher ref_data ref_label segment_dict).
Proof. intros i z H. unfold is_publisher in H. value_of H; indicator. Qed.

Lemma is_unknown_binary :
  binary_valued (is_unknown whole_word_search ref_data ref_label segment_dict).
Proof. intros i z H. unfold is_unknown in H. value_of H; indicator. Qed.

Lemma in_field_binary (field : string) (accept : string -> bool) :
  binary_valued (in_field ref_data segment_dict field accept).
Proof. intros i z H. unfold in_field in H. value_of H; indicator. Qed.

Lemma is_author_binary : binary_valued (is_author ref_data ref_label segment_dict).
Proof.
  intros i z H. unfold is_author in H. destruct (training ref_label).
  - value_of H; indicator.
  - exact (in_field_binary _ _ i z H).
Qed.

Lemma is_title_binary : binary_valued (is_title ref_data ref_label segment_dict).
Proof.
  intros i z H. unfold is_title in H. destruct (training ref_label).
  - value_of H; indicator.
  - exact (in_field_binary _ _ i z H).
Qed.

Lemma is_journal_binary : binary_valued (is_journal ref_data ref_label segment_dict).
Proof.
  intros i z H. unfold is_journal in H. destruct (training ref_label).
  - value_of H; indicator.
  - exact (in_field_binary _ _ i z H).
Qed.

Lemma is_editor_binary : binary_valued (is_editor ref_data ref_label segment_dict).
Proof. intros i z H. unfold is_editor in H. value_of H; indicator. Qed.

Lemma field_block_binary (where_in is_in : nat -> result Z) (index : nat) (block : list Z) :
  binary_valued is_in -> field_block where_in is_in index = Ok block ->
  exists member where_,
    is_in index = Ok member /\ where_in index = Ok where_
    /\ block = member :: one_hot 3 where_ /\ Forall binary block.
Proof.
  intros Hin H. unfold field_block in H.
  destruct (where_in index) as [w |] eqn:Hw; cbn [rbind] in H; [| discriminate].
  destruct (is_in index) as [m |] eqn:Hm; cbn [rbind] in H; [| discriminate].
  injection H as <-. exists m, w. repeat split.
  constructor; [exact (Hin index m Hm) | apply one_hot_binary].
Qed.

Lemma base_features_binary (index : nat) (base : list Z) :
  rsequence (base_features stopwords is_location_name whole_word_search
               ref_data ref_label segment_dict index) = Ok base ->
  exists lengths indicators,
    base = lengths ++ indicators /\ length lengths = 3%nat
    /\ Forall (fun z => (0 <= z)%Z) lengths /\ Forall binary indicators.
Proof.
  unfold base_features. intros H.
  apply rsequence_app in H as (lengths & indicators & -> & Hl & Hi).
  exists lengths, indicators. split; [reflexivity |].
  split; [rewrite (rsequence_length _ _ Hl); reflexivity |]. split.
  - apply (rsequence_forall _ _ _ Hl). unfold with_neighbours, if_previous, if_next, on_token.
    each_element; intros z Hz; value_of Hz; lia.
  - apply (rsequence_forall _ _ _ Hi).
    repeat (apply Forall_app; split); try apply with_neighbours_binary.
    + apply on_token_binary.
    + apply first_is_upper_binary.
    + apply on_token_binary.
    + apply on_token_binary.
    + apply is_numeric_binary.
    + apply on_token_binary.
    + apply is_stopword_binary.
    + each_element;
        first [ apply is_numeric_tag_binary | apply is_location_binary
              | apply is_publisher_binary | apply is_unknown_binary ].
Qed.

Lemma identifying_word_block (index : nat) (block : list Z) :
  get_data_features_identifying_word ref_data ref_label index = Ok block ->
  exists member which,
    block = member :: one_hot 11 which /\ binary member
    /\ (training ref_label = false -> member = set_bits (one_hot 11 which)).
Proof.
  unfold get_data_features_identifying_word, which_identifying_word, which_of_table.
  intros H. destruct (training ref_label) eqn:Ht.
  - value_of H. eexists _, _. split; [reflexivity |]. split; [apply b2z_binary | discriminate].
  - cbn [rbind] in H. destruct (item ref_data index) as [token | err]; cbn [rbind] in H;
      [| discriminate]. injection H as <-.
    exists (b2z (0 <? is_identifying_word token)%Z), (is_identifying_word token).
    split; [reflexivity |]. split; [apply b2z_binary |]. intros _.
    rewrite one_hot_set_bits. f_equal.
    assert (Hr : (0 <= is_identifying_word token <= 11)%Z).
    { unfold is_identifying_word. destruct (Str.isalpha token); [| lia].
      apply (first_position_range _ IDENTIFYING_WORDS). }
    destruct (Z.ltb_spec 0 (is_identifying_word token)),
      (Z.leb_spec 1 (is_identifying_word token)),
      (Z.leb_spec (is_identifying_word token) (Z.of_nat 11)); try reflexivity; lia.
Qed.

Lemma punctuation_block (index : nat) (block : list Z) :
  get_data_features_punctuation ref_data ref_label index = Ok block ->
  exists member which,
    block = member :: one_hot 10 which /\ binary member
    /\ (training ref_label = false -> member = set_bits (one_hot 10 which)).
Proof.
  unfold get_data_features_punctuation, which_punctuation, which_of_table.
  intros H. destruct (training ref_label) eqn:Ht.
  - value_of H. eexists _, _. split; [reflexivity |]. split; [apply b2z_binary | discriminate].
  - cbn [rbind] in H. destruct (item ref_data index) as [token | err]; cbn [rbind] in H;
      [| discriminate]. injection H as <-.
    exists (b2z (0 <? is_punctuation token)%Z), (is_punctuation token).
    split; [reflexivity |]. split; [apply b2z_binary |]. intros _.
    rewrite one_hot_set_bits. f_equal.
    assert (Hr : (0 <= is_punctuation token <= 10)%Z)
      by apply (first_position_range _ PUNCTUATIONS).
    destruct (Z.ltb_spec 0 (is_punctuation token)),
      (Z.leb_spec 1 (is_punctuation token)),
      (Z.leb_spec (is_punctuation token) (Z.of_nat 10)); try reflexivity; lia.
Qed.

End Vector.

Lemma set_bits_one_hot (n : nat) (which : Z) : binary (set_bits (one_hot n which)).
Proof. rewrite one_hot_set_bits. apply b2z_binary. Qed.





End IndicatorsProofs.

(** ** Looking around a token, and joining text *)

Module LookAroundProofs.
Import Re Crf Features StrFacts.

Lemma find_first {A : Type} (p : A -> bool) (l : list A) (x : A) :
  List.find p l = Some x
  <-> exists m, l !! m = Some x /\ p x = true
                /\ forall k y, (k < m)%nat -> l !! k = Some y -> p y = false.
Proof.
  induction l as [| a l IH]; cbn [List.find].
  - split; [discriminate | intros (m & H & _); discriminate].
  - destruct (p a) eqn:Hpa.
    + split.
      * intros H. injection H as <-. exists 0%nat. repeat split; [exact Hpa |].
        intros k y Hk. lia.
      * intros (m & Hm & Hx & Hbefore). destruct m as [| m]; [cbn in Hm; congruence |].
        specialize (Hbefore 0%nat a ltac:(lia) eq_refl). congruence.
    + rewrite IH. split.
      * intros (m & Hm & Hx & Hbefore). exists (S m). repeat split; [exact Hm | exact Hx |].
        intros [| k] y Hk Hy; [cbn in Hy; congruence |].
        apply (Hbefore k y); [lia | exact Hy].
      * intros (m & Hm & Hx & Hbefore). destruct m as [| m]; [cbn in Hm; congruence |].
        exists m. repeat split; [exact Hm | exact Hx |].
        intros k y Hk Hy. apply (Hbefore (S k) y); [lia | exact Hy].
Qed.

Lemma find_none {A : Type} (p : A -> bool) (l : list A) :
  List.find p l = None <-> forall k y, l !! k = Some y -> p y = false.
Proof.
  induction l as [| a l IH]; cbn [List.find].
  - split; [intros _ k y H; discriminate | reflexivity].
  - destruct (p a) eqn:Hpa.
    + split; [discriminate |]. intros H. specialize (H 0%nat a eq_refl). congruence.
    + rewrite IH. split.
      * intros H [| k] y Hy; [cbn in Hy; congruence | exact (H k y Hy)].
      * intros H k y Hy. exact (H (S k) y Hy).
Qed.

Lemma rev_lookup {A : Type} (l : list A) (m : nat) :
  (m < length l)%nat -> List.rev l !! m = l !! (length l - S m)%nat.
Proof.
  revert m. induction l as [| a l IH]; intros m Hm; [cbn in Hm; lia |].
  cbn [List.rev length]. destruct (Nat.eq_dec m (length l)) as [-> | Hne].
  - rewrite lookup_app_r by (rewrite length_rev; lia).
    rewrite length_rev, !Nat.sub_diag. reflexivity.
  - rewrite lookup_app_l by (rewrite length_rev; cbn in Hm; lia).
    rewrite IH by (cbn in Hm; lia).
    replace (S (length l) - S m)%nat with (S (length l - S m)) by (cbn in Hm; lia).
    reflexivity.
Qed.

Lemma lookup_before (tokens : list string) (index m : nat) :
  (index <= length tokens)%nat ->
  List.rev (firstn index tokens) !! m
  = if (m <? index)%nat then tokens !! (index - 1 - m)%nat else None.
Proof.
  intros Hi. destruct (Nat.ltb_spec m index) as [Hm | Hm].
  - rewrite rev_lookup by (rewrite length_take; lia).
    rewrite length_take, lookup_take_lt by lia. f_equal. lia.
  - apply lookup_ge_None_2. rewrite length_rev, length_take. lia.
Qed.

(** X10.  For a position [index] that is not beyond the end of the list,
    [lookahead(tokens, index)] is the nearest token after the position in
    which [MATCH_PUNCTUATION] finds nothing, and [lookbehind(tokens, index)]
    the nearest such token before it; each is [None] exactly when every
    token on that side has a punctuation character. *)
Theorem look_around_nearest (tokens : list string) (index : nat) (t : string) :
  (index <= length tokens)%nat ->
  (lookahead tokens index = Some t
   <-> exists j, (index < j)%nat /\ tokens !! j = Some t /\ is_punct_token t = false
                 /\ forall k u, (index < k < j)%nat -> tokens !! k = Some u ->
                                is_punct_token u = true)
  /\ (lookbehind tokens index = Some t
      <-> exists j, (j < index)%nat /\ tokens !! j = Some t /\ is_punct_token t = false
                    /\ forall k u, (j < k < index)%nat -> tokens !! k = Some u ->
                                   is_punct_token u = true)
  /\ (lookahead tokens index = None
      <-> forall k u, (index < k)%nat -> tokens !! k = Some u -> is_punct_token u = true)
  /\ (lookbehind tokens index = None
      <-> forall k u, (k < index)%nat -> tokens !! k = Some u -> is_punct_token u = true).
Proof.
  intros Hi. unfold lookahead, lookbehind.
  assert (Hafter : forall m, skipn (S index) tokens !! m = tokens !! (S index + m)%nat)
    by (intros m; apply lookup_drop).
  repeat split.
  - intros H. apply find_first in H as (m & Hm & Hp & Hbefore).
    exists (S index + m)%nat. rewrite <- Hafter. repeat split; [lia | exact Hm | |].
    + apply negb_true_iff. exact Hp.
    + intros k u Hk Hu. apply negb_false_iff.
      apply (Hbefore (k - S index)%nat u); [lia |].
      rewrite Hafter. replace (S index + (k - S index))%nat with k by lia. exact Hu.
  - intros (j & Hj & Ht & Hp & Hbetween). apply find_first.
    exists (j - S index)%nat. rewrite Hafter.
    replace (S index + (j - S index))%nat with j by lia.
    repeat split; [exact Ht | apply negb_true_iff; exact Hp |].
    intros k y Hk Hy. rewrite Hafter in Hy. apply negb_false_iff.
    apply (Hbetween (S index + k)%nat y); [lia | exact Hy].
  - intros H. apply find_first in H as (m & Hm & Hp & Hbefore).
    rewrite (lookup_before _ _ _ Hi) in Hm.
    destruct (Nat.ltb_spec m index) as [Hlt |]; [| discriminate].
    exists (index - 1 - m)%nat. repeat split; [lia | exact Hm | apply negb_true_iff; exact Hp |].
    intros k u Hk Hu. apply negb_false_iff.
    apply (Hbefore (index - 1 - k)%nat u); [lia |].
    rewrite (lookup_before _ _ _ Hi).
    destruct (Nat.ltb_spec (index - 1 - k) index); [| lia].
    replace (index - 1 - (index - 1 - k))%nat with k by lia. exact Hu.
  - intros (j & Hj & Ht & Hp & Hbetween). apply find_first.
    exists (index - 1 - j)%nat. rewrite (lookup_before _ _ _ Hi).
    destruct (Nat.ltb_spec (index - 1 - j) index); [| lia].
    replace (index - 1 - (index - 1 - j))%nat with j by lia.
    repeat split; [exact Ht | apply negb_true_iff; exact Hp |].
    intros k y Hk Hy. rewrite (lookup_before _ _ _ Hi) in Hy.
    destruct (Nat.ltb_spec k index); [| discriminate].
    apply negb_false_iff. apply (Hbetween (index - 1 - k)%nat y); [lia | exact Hy].
  - intros H k u Hk Hu. apply negb_false_iff.
    apply (proj1 (find_none _ _) H (k - S index)%nat u).
    rewrite Hafter. replace (S index + (k - S index))%nat with k by lia. exact Hu.
  - intros H. apply find_none. intros k y Hy. rewrite Hafter in Hy.
    apply negb_false_iff. apply (H (S index + k)%nat y); [lia | exact Hy].
  - intros H k u Hk Hu. apply negb_false_iff.
    apply (proj1 (find_none _ _) H (index - 1 - k)%nat u).
    rewrite (lookup_before _ _ _ Hi). destruct (Nat.ltb_spec (index - 1 - k) index); [| lia].
    replace (index - 1 - (index - 1 - k))%nat with k by lia. exact Hu.
  - intros H. apply find_none. intros k y Hy. rewrite (lookup_before _ _ _ Hi) in Hy.
    destruct (Nat.ltb_spec k index); [| discriminate].
    apply negb_false_iff. apply (H (index - 1 - k)%nat y); [lia | exact Hy].
Qed.

Lemma look_around_nearest_witness :
  lookahead example_words 0 = Some "J" /\ lookbehind example_words 4 = Some "J".
Proof.
  split.
  - apply (proj1 (look_around_nearest example_words 0 "J" ltac:(cbn; lia))).
    exists 2%nat. repeat split; [lia |].
    intros [| [| [| k]]] u Hk Hu; try lia. injection Hu as <-. reflexivity.
  - apply (proj1 (proj2 (look_around_nearest example_words 4 "J" ltac:(cbn; lia)))).
    exists 2%nat. repeat split; [lia |].
    intros [| [| [| [| k]]]] u Hk Hu; try lia. injection Hu as <-. reflexivity.
Defined.

Lemma append_cons (x : ascii) (a b : string) :
  (String x a ++ b)%string = String x (a ++ b)%string.
Proof. reflexivity. Qed.

Lemma append_nil_l (b : string) : ("" ++ b)%string = b.
Proof. reflexivity. Qed.

Lemma append_assoc (a b c : string) : ((a ++ b) ++ c = a ++ (b ++ c))%string.
Proof.
  induction a as [| x a IH]; [reflexivity |]. rewrite !append_cons, IH. reflexivity.
Qed.

Lemma append_empty_r (a : string) : (a ++ "")%string = a.
Proof.
  induction a as [| x a IH]; [reflexivity |]. rewrite append_cons, IH. reflexivity.
Qed.

(** X11.  [concatenate] joins two texts with one space and treats the
    empty text as absent: the empty text is neutral on both sides, and the
    order in which three texts are joined does not matter.  So what is
    collected in [unknown] by repeated calls is the non-empty pieces, in
    order, separated by single spaces. *)
Theorem concatenate_is_a_monoid (a b c : string) :
  concatenate a "" = a
  /\ concatenate "" b = b
  /\ concatenate (concatenate a b) c = concatenate a (concatenate b c)
  /\ (a <> "" -> b <> "" -> concatenate a b = (a ++ " " ++ b)%string)
  /\ (concatenate a b = "" <-> a = "" /\ b = "").
Proof.
  unfold concatenate, Str.len.
  destruct a as [| x a], b as [| y b], c as [| z c]; cbn;
    rewrite ?append_cons, ?append_nil_l, ?append_assoc, ?append_empty_r; cbn;
    rewrite ?append_cons, ?append_nil_l;
    repeat split; try reflexivity; try congruence; try tauto;
    try (intros [H1 H2]; congruence); try discriminate.
Qed.

End LookAroundProofs.

(** ** Parts of a text *)

Module PartFacts.
Import StrFacts.

Lemma app_cons (x : ascii) (a b : string) : (String x a ++ b)%string = String x (a ++ b)%string.
Proof. reflexivity. Qed.

Lemma app_assoc (a b c : string) : ((a ++ b) ++ c = a ++ (b ++ c))%string.
Proof. induction a as [| x a IH]; [reflexivity |]. rewrite !app_cons, IH. reflexivity. Qed.

Lemma app_nil_r (a : string) : (a ++ "")%string = a.
Proof. induction a as [| x a IH]; [reflexivity |]. rewrite app_cons, IH. reflexivity. Qed.

Lemma same_eq (a b : ascii) : Char.same a b = true <-> a = b.
Proof.
  unfold Char.same, Char.code. rewrite N.eqb_eq. split; [| intros ->; reflexivity].
  intros H. rewrite <- (ascii_N_embedding a), <- (ascii_N_embedding b), H. reflexivity.
Qed.

Lemma take_drop (n : nat) (s : string) : s = (Str.take n s ++ Str.drop n s)%string.
Proof.
  revert s. induction n as [| n IH]; intros [| c s]; try reflexivity.
  cbn [Str.take Str.drop]. rewrite app_cons, <- IH. reflexivity.
Qed.

Lemma startswith_iff (p s : string) :
  Str.startswith p s = true <-> exists t, s = (p ++ t)%string.
Proof.
  revert s. induction p as [| a p IH]; intros s; cbn [Str.startswith].
  - split; [intros _; exists s; reflexivity | reflexivity].
  - destruct s as [| b s]; [split; [discriminate | intros [t H]; discriminate] |].
    rewrite andb_true_iff, same_eq, IH. split.
    + intros [-> [t ->]]. exists t. reflexivity.
    + intros [t H]. rewrite app_cons in H. injection H as -> ->. eauto.
Qed.

(** [x] is a contiguous part of [s] *)
Lemma contains_iff (sub s : string) :
  Str.contains sub s = true <-> exists a t, s = (a ++ sub ++ t)%string.
Proof.
  unfold Str.contains, Str.find. generalize 0%nat.
  induction s as [| c s IH]; intros pos; cbn [Str.find_from].
  - destruct (Str.startswith sub "") eqn:Hs.
    + split; [intros _ | reflexivity]. apply startswith_iff in Hs as [t Ht].
      exists "", t. exact Ht.
    + split; [discriminate |]. intros (a & t & H). exfalso.
      destruct a as [| x a]; [| discriminate].
      assert (Str.startswith sub "" = true) by (apply startswith_iff; exists t; exact H).
      congruence.
  - destruct (Str.startswith sub (String c s)) eqn:Hs.
    + split; [intros _ | reflexivity]. apply startswith_iff in Hs as [t Ht].
      exists "", t. exact Ht.
    + rewrite IH. split.
      * intros (a & t & ->). exists (String c a), t. reflexivity.
      * intros (a & t & H). destruct a as [| x a].
        -- exfalso. assert (Str.startswith sub (String c s) = true)
             by (apply startswith_iff; exists t; exact H). congruence.
        -- rewrite app_cons in H. injection H as _ ->. eauto.
Qed.

Lemma part_of_take (x s : string) (n : nat) :
  (exists a t, Str.take n s = (a ++ x ++ t)%string) -> exists a t, s = (a ++ x ++ t)%string.
Proof.
  intros (a & t & H). exists a, (t ++ Str.drop n s)%string.
  rewrite (take_drop n s) at 1. rewrite H, !app_assoc. reflexivity.
Qed.

Lemma part_of_drop (x s : string) (n : nat) :
  (exists a t, Str.drop n s = (a ++ x ++ t)%string) -> exists a t, s = (a ++ x ++ t)%string.
Proof.
  intros (a & t & H). exists (Str.take n s ++ a)%string, t.
  rewrite (take_drop n s) at 1. rewrite H, !app_assoc. reflexivity.
Qed.

Lemma part_refl (s : string) : exists a t, s = (a ++ s ++ t)%string.
Proof. exists "", "". rewrite app_nil_r. reflexivity. Qed.

Lemma part_trans (x y s : string) :
  (exists a t, y = (a ++ x ++ t)%string) -> (exists a t, s = (a ++ y ++ t)%string) ->
  exists a t, s = (a ++ x ++ t)%string.
Proof.
  intros (a & t & ->) (a' & t' & ->). exists (a' ++ a)%string, (t ++ t')%string.
  rewrite !app_assoc. reflexivity.
Qed.

Lemma contains_part (sub x s : string) :
  (exists a t, s = (a ++ x ++ t)%string) -> Str.contains sub s = false ->
  Str.contains sub x = false.
Proof.
  intros Hpart Hs. destruct (Str.contains sub x) eqn:Hx; [| reflexivity].
  apply contains_iff in Hx.
  assert (Str.contains sub s = true) by (apply contains_iff; exact (part_trans _ _ _ Hx Hpart)).
  congruence.
Qed.

Lemma startswith_take (p s : string) (n : nat) :
  Str.startswith p (Str.take n s) = true -> Str.startswith p s = true.
Proof.
  rewrite !startswith_iff. intros [t H]. exists (t ++ Str.drop n s)%string.
  rewrite (take_drop n s) at 1. rewrite H, app_assoc. reflexivity.
Qed.

Lemma find_from_cut (sub s : string) (pos k : nat) :
  sub <> "" -> Str.find_from sub s pos = Some (pos + k)%nat ->
  Str.contains sub (Str.take k s) = false.
Proof.
  intros Hsub. revert pos k. induction s as [| c s IH]; intros pos k; cbn [Str.find_from].
  - destruct sub as [| x sub]; [congruence |]. cbn [Str.startswith]. discriminate.
  - destruct (Str.startswith sub (String c s)) eqn:Hs.
    + intros H. injection H as H. replace k with 0%nat by lia. cbn [Str.take].
      destruct sub as [| x sub]; [congruence | reflexivity].
    + intros H. destruct k as [| k].
      * cbn [Str.take]. destruct sub as [| x sub]; [congruence | reflexivity].
      * cbn [Str.take]. unfold Str.contains, Str.find. cbn [Str.find_from].
        destruct (Str.startswith sub (String c (Str.take k s))) eqn:Hs'.
        -- apply (startswith_take sub (String c s) (S k)) in Hs'. congruence.
        -- replace (pos + S k)%nat with (S pos + k)%nat in H by lia.
           specialize (IH (S pos) k H). unfold Str.contains, Str.find in IH.
           destruct (Str.find_from sub (Str.take k s) 0) eqn:H0.
           ++ discriminate.
           ++ assert (Hshift : forall t p q, Str.find_from sub t p = None ->
                                 Str.find_from sub t q = None).
              { clear. induction t as [| d t IHt]; intros p q; cbn [Str.find_from];
                  destruct (Str.startswith sub _); try discriminate; [reflexivity |].
                apply IHt. }
              rewrite (Hshift _ _ 1%nat H0). reflexivity.
Qed.

(** what is kept of [s] before the first [sep] has no [sep] in it *)
Lemma before_first_free (sep s : string) :
  sep <> "" -> Str.contains sep (Str.before_first sep s) = false.
Proof.
  intros Hsep. unfold Str.before_first, Str.find.
  destruct (Str.find_from sep s 0) as [i |] eqn:Hf.
  - apply (find_from_cut sep s 0 i Hsep). exact Hf.
  - unfold Str.contains, Str.find. rewrite Hf. reflexivity.
Qed.

Lemma before_first_part (sep s : string) :
  exists a t, s = (a ++ Str.before_first sep s ++ t)%string.
Proof.
  unfold Str.before_first. destruct (Str.find sep s) as [i |]; [| apply part_refl].
  apply (part_of_take _ s i). apply part_refl.
Qed.

End PartFacts.

(** ** Matches are parts of the subject *)

Module MatchFacts.
Import Re StrFacts PartFacts ReFacts.

(** what a match returns has gone through its continuation *)
Lemma rmatch_continues (r : regex) :
  forall (k : mstate -> option mstate) (s e : mstate),
    rmatch r k s = Some e -> exists s', k s' = Some e.
Proof.
  induction r as [| p | a IHa b IHb | a IHa b IHb | a IHa | n a IHa | | | | | a IHa | a IHa];
    intros k s e; cbn [rmatch].
  - eauto.
  - destruct (m_rest s) as [| c t]; [discriminate |]. destruct (p c); [eauto | discriminate].
  - intros H. apply IHa in H as [s1 H]. exact (IHb _ _ _ H).
  - destruct (rmatch a k s) as [e' |] eqn:Ha.
    + intros H. injection H as <-. exact (IHa _ _ _ Ha).
    + apply IHb.
  - generalize (Str.len (m_rest s)). intros fuel. revert s.
    induction fuel as [| fuel IH]; intros s; [eauto |].
    match goal with
    | |- match ?m with Some _ => _ | None => _ end = _ -> _ => destruct m as [e' |] eqn:Hm
    end; [| eauto].
    intros H. injection H as <-. apply IHa in Hm as [s' Hs'].
    destruct (m_pos s <? m_pos s')%nat; [exact (IH _ Hs') | discriminate].
  - intros H. apply IHa in H as [s' H]. eauto.
  - destruct (at_boundary s); [eauto | discriminate].
  - destruct (at_boundary s); [discriminate | eauto].
  - destruct (m_pos s =? 0)%nat; [eauto | discriminate].
  - destruct (at_end s); [eauto | discriminate].
  - destruct (succeeds _); [eauto | discriminate].
  - destruct (succeeds _); [discriminate | eauto].
Qed.

(** the text of a group that encloses the whole pattern is the beginning
    of the subject *)
Lemma outer_group_text (n : nat) (a : regex) (prev : option ascii) (s : string) (pos : nat)
    (m : mobj) :
  match_at (Grp n a) prev s pos = Some m ->
  exists k, group_or_empty n m = Str.take k s.
Proof.
  unfold match_at. destruct (rmatch (Grp n a) Some _) as [e |] eqn:He; [| discriminate].
  intros H. injection H as <-. rewrite rmatch_grp in He.
  apply rmatch_continues in He as [s' Hs']. injection Hs' as <-.
  unfold group_or_empty, group. cbn [mo_caps m_caps lookup_cap m_rest].
  rewrite Nat.eqb_refl. eauto.
Qed.

Lemma advance_drop (n : nat) (prev : option ascii) (s : string) :
  snd (advance n prev s) = Str.drop n s.
Proof.
  revert prev s. induction n as [| n IH]; intros prev [| c s]; try reflexivity.
  cbn [advance Str.drop]. apply IH.
Qed.

Lemma drop_drop (n k : nat) (s : string) : Str.drop n (Str.drop k s) = Str.drop (k + n) s.
Proof.
  revert s. induction k as [| k IH]; intros s; [reflexivity |].
  destruct s as [| c s]; cbn [Str.drop Nat.add]; [destruct n; reflexivity | apply IH].
Qed.

(** every match of [finditer] is a match at the start of what is left of
    the subject after some characters *)
Lemma finditer_at_subjects (r : regex) (fuel : nat) :
  forall (prev : option ascii) (s : string) (pos : nat) (m : mobj),
    In m (finditer_at fuel r prev s pos) ->
    exists prev' n pos', match_at r prev' (Str.drop n s) pos' = Some m.
Proof.
  assert (Hsearch : forall s prev pos m, search_at r prev s pos = Some m ->
                      exists prev' n pos', match_at r prev' (Str.drop n s) pos' = Some m).
  { induction s as [| c s IH]; intros prev pos m; cbn [search_at];
      destruct (match_at r prev _ pos) as [m' |] eqn:Hm.
    - intros H. injection H as <-. exists prev, 0%nat, pos. exact Hm.
    - discriminate.
    - intros H. injection H as <-. exists prev, 0%nat, pos. exact Hm.
    - intros H. apply IH in H as (prev' & n & pos' & H). exists prev', (S n), pos'. exact H. }
  induction fuel as [| fuel IH]; intros prev s pos m; cbn [finditer_at]; [intros [] |].
  destruct (search_at r prev s pos) as [m' |] eqn:Hs; [| intros []].
  destruct (Str.len s <? _)%nat.
  - intros [<- | []]. exact (Hsearch _ _ _ _ Hs).
  - destruct (advance _ prev s) as [prev' s'] eqn:Ha. intros [<- | Hin].
    + exact (Hsearch _ _ _ _ Hs).
    + apply IH in Hin as (prev'' & n & pos' & H).
      pose proof (advance_drop (if (mo_end m' =? mo_start m')%nat
                                then S (mo_end m' - pos) else (mo_end m' - pos)%nat) prev s)
        as Hd.
      rewrite Ha in Hd. cbn [snd] in Hd. subst s'. rewrite drop_drop in H. eauto.
Qed.

(** the pieces of [split] are parts of the subject *)
Lemma split_go_parts (ms : list mobj) :
  forall (s : string) (pos : nat) (piece : string),
    In piece (split_go false ms s pos) -> exists a t, s = (a ++ piece ++ t)%string.
Proof.
  induction ms as [| m ms IH]; intros s pos piece; cbn [split_go].
  - intros [<- | []]. apply part_refl.
  - cbn [app]. intros [<- | Hin].
    + apply (part_of_take _ s (mo_start m - pos)). apply part_refl.
    + apply IH in Hin. exact (part_of_drop _ s _ Hin).
Qed.

End MatchFacts.

(** ** DOI extraction, for every reference *)

Module DoiFacts.
Import Re Doi StrFacts PartFacts MatchFacts.

Lemma truncate_at_urls_part (doi : string) :
  exists a t, doi = (a ++ truncate_at_urls doi ++ t)%string.
Proof.
  unfold truncate_at_urls.
  eapply part_trans; [apply before_first_part |].
  eapply part_trans; [apply before_first_part |].
  eapply part_trans; [apply before_first_part |]. apply before_first_part.
Qed.

Lemma truncate_at_urls_free (doi marker : string) :
  In marker [ "https://"; "http://"; "arXiv:"; "ascl:" ] ->
  Str.contains marker (truncate_at_urls doi) = false.
Proof.
  unfold truncate_at_urls. cbn [In].
  intros [<- | [<- | [<- | [<- | []]]]].
  - eapply contains_part; [apply before_first_part |].
    eapply contains_part; [apply before_first_part |].
    eapply contains_part; [apply before_first_part |].
    apply before_first_free. discriminate.
  - eapply contains_part; [apply before_first_part |].
    eapply contains_part; [apply before_first_part |].
    apply before_first_free. discriminate.
  - eapply contains_part; [apply before_first_part |].
    apply before_first_free. discriminate.
  - apply before_first_free. discriminate.
Qed.

Lemma drop_trailing_dot_part (doi : string) :
  exists a t, doi = (a ++ drop_trailing_dot doi ++ t)%string.
Proof.
  unfold drop_trailing_dot, Str.drop_last. destruct (Str.endswith "." doi); [| apply part_refl].
  apply (part_of_take _ doi (Str.len doi - 1)). apply part_refl.
Qed.



End DoiFacts.

(** ** What [identify_numeric_tokens] leaves in [unknown] *)

Module UnknownFacts.
Import Re Crf Numeric StrFacts PartFacts.

Lemma prefix_refl (u : string) : Str.startswith u u = true.
Proof. apply startswith_iff. exists "". rewrite app_nil_r. reflexivity. Qed.

Lemma prefix_trans (u v w : string) :
  Str.startswith u v = true -> Str.startswith v w = true -> Str.startswith u w = true.
Proof.
  rewrite !startswith_iff. intros [a ->] [b ->]. exists (a ++ b)%string.
  rewrite app_assoc. reflexivity.
Qed.

Lemma concatenate_extends (u x : string) : Str.startswith u (concatenate u x) = true.
Proof.
  unfold concatenate. destruct (Str.len x =? 0)%nat; [apply prefix_refl |].
  apply startswith_iff. eauto.
Qed.

Lemma trim_leftovers_extends (volume unknown : string) (the_rest : list string) :
  Str.startswith unknown (snd (trim_leftovers volume unknown the_rest)) = true.
Proof.
  unfold trim_leftovers. destruct (Str.len volume =? 0)%nat; [| apply prefix_refl].
  destruct (from_first_digit the_rest); cbn [snd]; apply concatenate_extends.
Qed.

Lemma assign_leftovers_extends (the_rest : list string) (volume page issue unknown : string) :
  Str.startswith unknown (snd (assign_leftovers the_rest volume page issue unknown)) = true.
Proof.
  unfold assign_leftovers.
  repeat match goal with |- context [if ?c then _ else _] => destruct c end;
    cbn [snd]; first [apply prefix_refl | apply concatenate_extends].
Qed.

Lemma guess_fields_extends (reference_str volume page issue unknown : string) :
  Str.startswith unknown (snd (guess_fields reference_str volume page issue unknown)) = true.
Proof.
  unfold guess_fields. destruct (_ || _); [| apply prefix_refl].
  destruct (0 <? length (leftovers reference_str))%nat;
    [| cbn [snd]; apply concatenate_extends].
  match goal with
  | |- context [trim_leftovers ?v ?u ?r] =>
      pose proof (trim_leftovers_extends v u r) as Ht; destruct (trim_leftovers v u r) as [r' u']
  end.
  cbn [snd] in Ht. eapply prefix_trans; [apply concatenate_extends |].
  eapply prefix_trans; [exact Ht | apply assign_leftovers_extends].
Qed.

(** X13.  [identify_numeric_tokens] only adds to the text it is given as
    [unknown]: the [unknown] of the result begins with it.  The words it
    cannot place are appended after it, and nothing of it is lost. *)
Theorem unknown_only_grows (year_now : Z) (reference_str unknown : string) :
  Str.startswith unknown
    (Numeric.unknown (identify_numeric_tokens year_now reference_str unknown)) = true
  /\ exists added,
       Numeric.unknown (identify_numeric_tokens year_now reference_str unknown)
       = (unknown ++ added)%string.
Proof.
  assert (H : Str.startswith unknown
                (Numeric.unknown (identify_numeric_tokens year_now reference_str unknown))
              = true).
  { unfold identify_numeric_tokens.
    destruct (settle_year year_now reference_str) as [y s1].
    destruct (formatted_numeric s1) as [[[v p] i] s2].
    destruct (standalone PAGE_EXTRACTOR 1 p s2) as [p' s3].
    destruct (standalone VOLUME_EXTRACTOR 2 v s3) as [v' s4].
    pose proof (guess_fields_extends s4 v' p' i unknown) as Hg.
    destruct (guess_fields s4 v' p' i unknown) as [[[v'' p''] i'] u']. exact Hg. }
  split; [exact H | apply startswith_iff; exact H].
Qed.

End UnknownFacts.

(** ** The shape that [get_author_pattern] returns *)

Module AuthorShapeProofs.
Import Re Authors AuthorShape StrFacts AuthorsProofs.

Lemma decide_pattern_positive (a b c d : nat) (p : author_pattern) :
  decide_pattern [a; b; c; d] = Some p -> (0 < nth (pattern_index p) [a; b; c; d] 0)%nat.
Proof.
  rewrite decide_pattern_bits. cbv zeta.
  assert (Hm : max_of [a; b; c; d] = Nat.max a (Nat.max b (Nat.max c (Nat.max d 0))))
    by reflexivity.
  rewrite Hm. clear Hm.
  destruct (Nat.eqb_spec (Nat.max a (Nat.max b (Nat.max c (Nat.max d 0)))) a),
    (Nat.eqb_spec (Nat.max a (Nat.max b (Nat.max c (Nat.max d 0)))) b),
    (Nat.eqb_spec (Nat.max a (Nat.max b (Nat.max c (Nat.max d 0)))) c),
    (Nat.eqb_spec (Nat.max a (Nat.max b (Nat.max c (Nat.max d 0)))) d),
    (Nat.ltb_spec 0 a), (Nat.ltb_spec 0 b), (Nat.ltb_spec 0 c), (Nat.ltb_spec 0 d);
    try (exfalso; lia);
    cbn; intros Hdec; try discriminate Hdec; injection Hdec as <-; cbn; lia.
Qed.

Lemma decide_pattern_single (a b c d : nat) (p : author_pattern) :
  (forall q, q <> p -> (nth (pattern_index q) [a; b; c; d] 0 < nth (pattern_index p) [a; b; c; d] 0)%nat) ->
  decide_pattern [a; b; c; d] = Some p.
Proof.
  intros H. rewrite decide_pattern_bits. cbv zeta.
  assert (Hm : max_of [a; b; c; d] = Nat.max a (Nat.max b (Nat.max c (Nat.max d 0))))
    by reflexivity.
  rewrite Hm. clear Hm.
  assert (H0 := H TrailingInit). assert (H1 := H LeadingInit).
  assert (H2 := H TrailingFull). assert (H3 := H LeadingFull). clear H.
  destruct p; cbn in H0, H1, H2, H3;
    repeat match goal with
           | Hq : ?x <> ?x -> _ |- _ => clear Hq
           | Hq : _ <> _ -> _ |- _ => specialize (Hq ltac:(discriminate))
           end;
    destruct (Nat.eqb_spec (Nat.max a (Nat.max b (Nat.max c (Nat.max d 0)))) a),
      (Nat.eqb_spec (Nat.max a (Nat.max b (Nat.max c (Nat.max d 0)))) b),
      (Nat.eqb_spec (Nat.max a (Nat.max b (Nat.max c (Nat.max d 0)))) c),
      (Nat.eqb_spec (Nat.max a (Nat.max b (Nat.max c (Nat.max d 0)))) d);
    try (exfalso; lia);
    destruct (Nat.ltb_spec 0 a), (Nat.ltb_spec 0 b), (Nat.ltb_spec 0 c), (Nat.ltb_spec 0 d);
    try (exfalso; lia); reflexivity.
Qed.

Lemma lengths_of (ref_string : string) :
  pattern_lengths ref_string
  = [ matched_length ref_string TrailingInit; matched_length ref_string LeadingInit;
      matched_length ref_string TrailingFull; matched_length ref_string LeadingFull ].
Proof.
  unfold matched_length. destruct (pattern_lengths_four ref_string) as (a & b & c & d & ->).
  reflexivity.
Qed.

(** X14.  A shape that [get_author_pattern] returns accounts for at least
    one character at the start of the string.  When one shape accounts
    for more characters than each of the other three, it is the one
    returned; when no shape accounts for any, the result is [None]. *)
Theorem author_pattern_matches_the_start (ref_string : string) (p : author_pattern) :
  (get_author_pattern ref_string = Some p -> (0 < matched_length ref_string p)%nat)
  /\ ((forall q, q <> p -> (matched_length ref_string q < matched_length ref_string p)%nat) ->
      get_author_pattern ref_string = Some p)
  /\ ((forall q, matched_length ref_string q = 0%nat) -> get_author_pattern ref_string = None).
Proof.
  unfold get_author_pattern. rewrite (lengths_of ref_string).
  split; [| split].
  - intros H. apply decide_pattern_positive in H. destruct p; exact H.
  - intros H. apply decide_pattern_single. intros q Hq. specialize (H q Hq).
    destruct p, q; exact H.
  - intros H. rewrite !H. reflexivity.
Qed.

(** *** A plain pattern matches wherever the text from there on is the same *)

Lemma rmatch_star (a : regex) (k : mstate -> option mstate) (s : mstate) :
  rmatch (Star a) k s = star_loop (rmatch a) k (Str.len (m_rest s)) s.
Proof. reflexivity. Qed.

Lemma plain_success (d1 d2 : nat) (r : regex) :
  plain r = true ->
  forall k k' s s' e,
    same_text d1 d2 s s' ->
    (forall t t' e1, same_text d1 d2 t t' -> k t = Some e1 -> exists e2, k' t' = Some e2) ->
    rmatch r k s = Some e ->
    exists e', rmatch r k' s' = Some e'.
Proof.
  induction r as [| p | a IHa b IHb | a IHa b IHb | a IHa | n a IHa | | | | | a IHa | a IHa];
    cbn [plain]; intros Hplain k k' s s' e Hs Hk; try discriminate Hplain.
  - cbn [rmatch]. apply Hk, Hs.
  - cbn [rmatch]. destruct Hs as [Hrest Hpos]. rewrite <- Hrest.
    destruct (m_rest s) as [| c t]; [discriminate |]. destruct (p c); [| discriminate].
    apply Hk. split; cbn [m_rest m_pos]; [reflexivity | lia].
  - cbn [rmatch]. apply andb_prop in Hplain as [Ha Hb]. apply (IHa Ha _ _ _ _ _ Hs).
    intros t t' e1 Ht. apply (IHb Hb _ _ _ _ _ Ht Hk).
  - cbn [rmatch]. apply andb_prop in Hplain as [Ha Hb].
    destruct (rmatch a k s) as [e1 |] eqn:H1.
    + intros _. destruct (IHa Ha _ _ _ _ _ Hs Hk H1) as [e' ->]. eauto.
    + intros H2. destruct (IHb Hb _ _ _ _ _ Hs Hk H2) as [e' He'].
      destruct (rmatch a k' s'); eauto.
  - rewrite !rmatch_star. destruct Hs as [Hrest Hpos]. rewrite <- Hrest.
    generalize (Str.len (m_rest s)). intros fuel.
    revert s s' e Hrest Hpos. induction fuel as [| fuel IH]; intros s s' e Hrest Hpos;
      cbn [star_loop].
    + apply Hk. split; assumption.
    + destruct (rmatch a _ s) as [e1 |] eqn:Hm.
      * intros _.
        destruct (IHa Hplain
                    (fun t => if (m_pos s <? m_pos t)%nat
                              then star_loop (rmatch a) k fuel t else None)
                    (fun t' => if (m_pos s' <? m_pos t')%nat
                               then star_loop (rmatch a) k' fuel t' else None)
                    s s' e1 (conj Hrest Hpos)) as [e' ->]; [| exact Hm | eauto].
        intros t t' e2 [Ht1 Ht2].
        destruct (Nat.ltb_spec (m_pos s) (m_pos t)) as [Hlt |]; [| discriminate].
        destruct (Nat.ltb_spec (m_pos s') (m_pos t')) as [_ | Hge]; [| lia].
        apply IH; assumption.
      * intros H2. destruct (rmatch a _ s'); [eauto |].
        apply (Hk s s' e); [split; assumption | exact H2].
  - cbn [rmatch]. apply (IHa Hplain _ _ _ _ _ Hs). intros t t' e1 [Ht1 Ht2].
    apply Hk. split; cbn [m_rest m_pos]; assumption.
  - cbn [rmatch]. destruct Hs as [Hrest Hpos]. unfold at_end. rewrite <- Hrest.
    destruct (match m_rest s with "" => true | String c "" => Char.same c Char.newline
                                | _ => false end); [| discriminate].
    apply Hk. split; assumption.
Qed.

Lemma plain_match_at (r : regex) (prev prev' : option ascii) (s : string) (pos pos' : nat)
    (m : mobj) :
  plain r = true -> match_at r prev s pos = Some m ->
  exists m', match_at r prev' s pos' = Some m'.
Proof.
  intros Hplain. unfold match_at.
  destruct (rmatch r Some (MState prev s pos [])) as [e |] eqn:He; [| discriminate].
  intros _.
  destruct (plain_success pos' pos r Hplain Some Some (MState prev s pos [])
              (MState prev' s pos' []) e) as [e' ->];
    [split; cbn [m_rest m_pos]; [reflexivity | lia] | intros t t' e1 _ _; eauto | exact He
    | eauto].
Qed.

Lemma plain_search_at (r : regex) :
  plain r = true ->
  forall (n : nat) (s : string) (prev prev' : option ascii) (pos pos' : nat) (m : mobj),
    match_at r prev' (Str.drop n s) pos' = Some m ->
    exists m', search_at r prev s pos = Some m'.
Proof.
  intros Hplain. induction n as [| n IH]; intros s prev prev' pos pos' m Hm.
  - destruct (plain_match_at r prev' prev s pos' pos m Hplain Hm) as [m' Hm'].
    destruct s; cbn [search_at]; rewrite Hm'; eauto.
  - destruct s as [| c s].
    + replace (Str.drop (S n) "") with (Str.drop n "") in Hm by (destruct n; reflexivity).
      exact (IH "" prev prev' pos pos' m Hm).
    + cbn [search_at]. destruct (match_at r prev (String c s) pos); [eauto |].
      exact (IH s (Some c) prev' (S pos) pos' m Hm).
Qed.

Lemma plain_shapes (p : author_pattern) : plain (pattern_regex p) = true.
Proof. destruct p; reflexivity. Qed.

Lemma matched_length_has_match (ref_string : string) (p : author_pattern) :
  (0 < matched_length ref_string p)%nat ->
  exists n m, In m (finditer (pattern_regex p) (Str.drop n ref_string)).
Proof.
  unfold matched_length, pattern_lengths.
  destruct (get_collaborators ref_string) as [idx len].
  set (subject := if (idx =? 0)%Z then ref_string else Str.drop len ref_string).
  assert (Hsub : exists n, subject = Str.drop n ref_string).
  { unfold subject. destruct (idx =? 0)%Z; [exists 0%nat | exists len]; reflexivity. }
  destruct Hsub as [n Hn]. intros H. exists n. rewrite <- Hn.
  assert (Hlen : (0 < get_length_matched_authors subject
                        (findall_groups 3 (pattern_regex p) subject))%nat)
    by (destruct p; exact H).
  unfold findall_groups in Hlen.
  destruct (finditer (pattern_regex p) subject) as [| m ms]; [| exists m; left; reflexivity].
  exfalso. cbn in Hlen. destruct subject; cbn in Hlen; lia.
Qed.

(** X15.  [get_first_author] never fails on a missing match: the shape
    that [get_author_pattern] returns is found by [search] in the author
    string, so the call either returns or raises [Undecidable], which it
    does exactly when [get_author_pattern] returns [None]. *)
Theorem get_first_author_finds_its_shape (author_string : string) (initials : bool) :
  match get_author_pattern author_string with
  | None =>
      get_first_author author_string initials
      = Raise (Undecidable "Both leading and trailing found without a majority")
  | Some p =>
      exists m, search (pattern_regex p) author_string = Some m
                /\ get_first_author author_string initials
                   = Ok (if initials
                         then (group_or_empty (last_group p) m ++ ", "
                               ++ group_or_empty (first_group p) m)%string
                         else group_or_empty (last_group p) m)
  end.
Proof.
  unfold get_first_author.
  destruct (get_author_pattern author_string) as [p |] eqn:Hp; [| reflexivity].
  assert (Hpos : (0 < matched_length author_string p)%nat).
  { unfold get_author_pattern in Hp. rewrite (lengths_of author_string) in Hp.
    apply decide_pattern_positive in Hp. destruct p; exact Hp. }
  destruct (matched_length_has_match _ _ Hpos) as (n & m & Hin).
  unfold finditer in Hin.
  apply MatchFacts.finditer_at_subjects in Hin as (prev' & n' & pos' & Hm).
  rewrite MatchFacts.drop_drop in Hm.
  destruct (plain_search_at _ (plain_shapes p) _ author_string None prev' 0 pos' m Hm)
    as [m' Hm'].
  unfold search. rewrite Hm'. exists m'. split; [reflexivity |].
  destruct initials; reflexivity.
Qed.

End AuthorShapeProofs.

(** ** Tokens *)

Module TokensProofs.
Import Re Crf Features Tokens StrFacts PartFacts.

Section OneClass.

Variable p : ascii -> bool.

Lemma match_at_class (prev : option ascii) (s : string) (pos : nat) :
  match_at (Grp 1 (Cls p)) prev s pos
  = match s with
    | String c _ =>
        if p c then Some (MObj pos (S pos) (String c "") [(1%nat, String c "")]) else None
    | EmptyString => None
    end.
Proof.
  unfold match_at. cbn [rmatch m_rest m_pos m_caps m_prev].
  destruct s as [| c s]; [reflexivity |]. destruct (p c); [| reflexivity].
  cbn [m_pos m_caps]. replace (S pos - pos)%nat with 1%nat by lia. reflexivity.
Qed.

Lemma search_at_class (s : string) (prev : option ascii) (pos : nat) :
  search_at (Grp 1 (Cls p)) prev s pos
  = match class_matches p s pos with m :: _ => Some m | [] => None end.
Proof.
  revert prev pos. induction s as [| c s IH]; intros prev pos; cbn [search_at class_matches];
    rewrite match_at_class; [reflexivity |].
  destruct (p c); [reflexivity | apply IH].
Qed.

(** the first match, and what follows it *)
Lemma class_matches_first (s : string) (pos : nat) (m : mobj) (ms : list mobj) :
  class_matches p s pos = m :: ms ->
  exists j, mo_start m = (pos + j)%nat /\ mo_end m = S (pos + j) /\ (j < Str.len s)%nat
            /\ ms = class_matches p (Str.drop (S j) s) (pos + S j).
Proof.
  revert pos. induction s as [| c s IH]; intros pos; cbn [class_matches]; [discriminate |].
  destruct (p c).
  - intros H. injection H as <- <-. exists 0%nat. cbn [mo_start mo_end Str.drop Str.len].
    rewrite Nat.add_0_r, Nat.add_1_r. repeat split; cbn; lia.
  - intros H. apply IH in H as (j & H1 & H2 & H3 & H4). exists (S j).
    cbn [Str.drop]. repeat split; [lia | lia | cbn; unfold Str.len in H3; lia |].
    rewrite H4. f_equal. lia.
Qed.

Lemma drop_len (n : nat) (s : string) : Str.len (Str.drop n s) = (Str.len s - n)%nat.
Proof.
  revert s. induction n as [| n IH]; intros [| c s]; cbn; try reflexivity; try lia. apply IH.
Qed.

Lemma finditer_at_class (fuel : nat) :
  forall (s : string) (prev : option ascii) (pos : nat),
    (Str.len s < fuel)%nat ->
    finditer_at fuel (Grp 1 (Cls p)) prev s pos = class_matches p s pos.
Proof.
  induction fuel as [| fuel IH]; intros s prev pos Hfuel; [lia |].
  cbn [finditer_at]. rewrite search_at_class.
  destruct (class_matches p s pos) as [| m ms] eqn:Hc; [reflexivity |].
  apply class_matches_first in Hc as (j & Hs & He & Hj & Hms).
  rewrite Hs, He. replace (S (pos + j) =? pos + j)%nat with false
    by (symmetry; apply Nat.eqb_neq; lia).
  replace (S (pos + j) - pos)%nat with (S j) by lia.
  destruct (Nat.ltb_spec (Str.len s) (S j)) as [Hlt | _]; [lia |].
  pose proof (MatchFacts.advance_drop (S j) prev s) as Ha.
  destruct (advance (S j) prev s) as [prev' s'] eqn:Hadv. cbn [snd] in Ha. subst s'.
  rewrite IH by (rewrite drop_len; lia). rewrite Hms. reflexivity.
Qed.

Lemma class_matches_after (s : string) (pos : nat) :
  Forall (fun m => (pos <= mo_start m)%nat /\ (pos <= mo_end m)%nat) (class_matches p s pos).
Proof.
  revert pos. induction s as [| c s IH]; intros pos; cbn [class_matches]; [constructor |].
  assert (Hrest : Forall (fun m => (pos <= mo_start m)%nat /\ (pos <= mo_end m)%nat)
                    (class_matches p s (S pos))).
  { apply List.Forall_forall. intros m Hm.
    pose proof (proj1 (List.Forall_forall _ _) (IH (S pos)) m Hm) as [H1 H2]. lia. }
  destruct (p c); [constructor; [cbn; lia | exact Hrest] | exact Hrest].
Qed.

Lemma split_go_shift (c : ascii) (s : string) (pos : nat) (ms : list mobj) :
  Forall (fun m => (S pos <= mo_start m)%nat /\ (S pos <= mo_end m)%nat) ms ->
  split_go true ms (String c s) pos
  = match split_go true ms s (S pos) with
    | first :: rest => String c first :: rest
    | [] => [String c ""]
    end.
Proof.
  destruct ms as [| m ms]; cbn [split_go]; [reflexivity |].
  intros H. inversion H as [| ? ? [H1 H2] _]; subst. cbn [app].
  replace (mo_start m - pos)%nat with (S (mo_start m - S pos)) by lia.
  replace (mo_end m - pos)%nat with (S (mo_end m - S pos)) by lia.
  reflexivity.
Qed.

Lemma split_go_class (s : string) (pos : nat) :
  split_go true (class_matches p s pos) s pos = split_chars p s.
Proof.
  revert pos. induction s as [| c s IH]; intros pos; cbn [class_matches split_chars];
    [reflexivity |].
  destruct (p c).
  - cbn [split_go app]. unfold group_or_empty, group. cbn [mo_caps lookup_cap Nat.eqb mo_start
                                                          mo_end].
    rewrite Nat.sub_diag. replace (S pos - pos)%nat with 1%nat by lia.
    cbn [Str.take Str.drop]. rewrite IH. reflexivity.
  - rewrite split_go_shift by apply class_matches_after. rewrite IH. reflexivity.
Qed.

(** [split] with one class in one group is [split_chars] *)
Lemma split_class (s : string) : split true (Grp 1 (Cls p)) s = split_chars p s.
Proof.
  unfold split, finditer. rewrite finditer_at_class by lia. apply split_go_class.
Qed.

(** *** The pieces of [split_chars] *)

Lemma split_chars_shape (s : string) :
  exists first rest,
    split_chars p s = first :: rest
    /\ Str.all_chars (fun c => negb (p c)) first = true
    /\ Forall (piece p) rest.
Proof.
  induction s as [| c s (first & rest & Heq & Hfirst & Hrest)]; cbn [split_chars].
  - exists "", []. repeat split. constructor.
  - destruct (p c) eqn:Hc.
    + exists "", (String c "" :: split_chars p s). repeat split.
      constructor; [left; exists c; split; [reflexivity | exact Hc] |].
      rewrite Heq. constructor; [right; exact Hfirst | exact Hrest].
    + rewrite Heq. exists (String c first), rest. repeat split; [| exact Hrest].
      unfold Str.all_chars in *. cbn [list_ascii_of_string forallb]. rewrite Hc. exact Hfirst.
Qed.

Lemma split_chars_pieces (s : string) : Forall (piece p) (split_chars p s).
Proof.
  destruct (split_chars_shape s) as (first & rest & -> & Hfirst & Hrest).
  constructor; [right; exact Hfirst | exact Hrest].
Qed.

Lemma join_cons (w : string) (l : list string) :
  Str.join "" (w :: l) = (w ++ Str.join "" l)%string.
Proof.
  destruct l as [| v l]; cbn [Str.join]; [symmetry; apply app_nil_r | reflexivity].
Qed.

Lemma split_chars_join (s : string) : Str.join "" (split_chars p s) = s.
Proof.
  induction s as [| c s IH]; cbn [split_chars]; [reflexivity |].
  destruct (p c).
  - rewrite !join_cons, IH. reflexivity.
  - destruct (split_chars_shape s) as (first & rest & Heq & _). rewrite Heq in *.
    rewrite join_cons in *. rewrite app_cons, IH. reflexivity.
Qed.

(** *** White space *)

Hypothesis space_separates : forall c, Char.space c = true -> p c = true.

Lemma without_space_cons (c : ascii) (s : string) :
  without_space (String c s)
  = if Char.space c then without_space s else String c (without_space s).
Proof.
  unfold without_space. cbn [list_ascii_of_string List.filter].
  destruct (Char.space c); reflexivity.
Qed.

Lemma without_space_app (a b : string) :
  without_space (a ++ b) = (without_space a ++ without_space b)%string.
Proof.
  induction a as [| c a IH]; [reflexivity |].
  rewrite app_cons, !without_space_cons, IH. destruct (Char.space c); reflexivity.
Qed.

Lemma no_separator_no_space (w : string) :
  Str.all_chars (fun c => negb (p c)) w = true ->
  Str.all_chars (fun c => negb (Char.space c)) w = true.
Proof.
  unfold Str.all_chars. rewrite !forallb_forall. intros H c Hc. specialize (H c Hc).
  destruct (Char.space c) eqn:Hs; [| reflexivity].
  rewrite (space_separates c Hs) in H. discriminate.
Qed.

End OneClass.

Lemma without_space_id (w : string) :
  Str.all_chars (fun c => negb (Char.space c)) w = true -> without_space w = w.
Proof.
  unfold Str.all_chars. induction w as [| c w IH]; [reflexivity |].
  cbn [list_ascii_of_string forallb]. intros H. apply andb_prop in H as [Hc Hw].
  rewrite without_space_cons. destruct (Char.space c); [discriminate |].
  rewrite (IH Hw). reflexivity.
Qed.

Lemma lstrip_id (w : string) :
  Str.all_chars (fun c => negb (Char.space c)) w = true -> Str.lstrip w = w.
Proof.
  unfold Str.all_chars. destruct w as [| c w]; [reflexivity |].
  cbn [list_ascii_of_string forallb Str.lstrip]. intros H. apply andb_prop in H as [Hc _].
  destruct (Char.space c); [discriminate | reflexivity].
Qed.

Lemma rev_all_chars (q : ascii -> bool) (w : string) :
  Str.all_chars q w = true -> Str.all_chars q (Str.rev w) = true.
Proof.
  unfold Str.all_chars, Str.rev. rewrite list_ascii_of_string_of_list_ascii.
  rewrite !forallb_forall. intros H c Hc. apply H. apply in_rev. exact Hc.
Qed.

Lemma rev_rev (w : string) : Str.rev (Str.rev w) = w.
Proof.
  unfold Str.rev. rewrite list_ascii_of_string_of_list_ascii, rev_involutive.
  apply string_of_list_ascii_of_string.
Qed.

Lemma strip_id (w : string) :
  Str.all_chars (fun c => negb (Char.space c)) w = true -> Str.strip w = w.
Proof.
  intros H. unfold Str.strip, Str.rstrip. rewrite (lstrip_id w H).
  rewrite (lstrip_id _ (rev_all_chars _ _ H)). apply rev_rev.
Qed.

Lemma strip_one (c : ascii) :
  Str.strip (String c "") = if Char.space c then "" else String c "".
Proof.
  unfold Str.strip, Str.rstrip. cbn [Str.lstrip].
  destruct (Char.space c) eqn:Hc; [reflexivity |].
  change (Str.rev (String c "")) with (String c ""). cbn [Str.lstrip]. rewrite Hc. reflexivity.
Qed.

Section Tokenizer.

Variable p : ascii -> bool.
Hypothesis space_separates : forall c, Char.space c = true -> p c = true.

Lemma strip_piece (w : string) : piece p w -> Str.strip w = without_space w.
Proof.
  intros [(c & -> & _) | H].
  - rewrite strip_one, without_space_cons. destruct (Char.space c); reflexivity.
  - apply (no_separator_no_space p space_separates) in H.
    rewrite (strip_id w H), (without_space_id w H). reflexivity.
Qed.

Lemma strip_piece_token (w : string) :
  piece p w -> Str.strip w <> "" -> token_of p (Str.strip w).
Proof.
  intros [(c & -> & Hp) | H] Hne.
  - rewrite strip_one in *. destruct (Char.space c) eqn:Hs; [contradiction |].
    split; [exact Hne |]. left. exists c. repeat split; assumption.
  - pose proof (no_separator_no_space p space_separates w H) as Hs.
    rewrite (strip_id w Hs) in *. split; [exact Hne |]. right. exact H.
Qed.

Lemma eqb_empty (w : string) : Str.eqb w "" = true <-> w = "".
Proof. unfold Str.eqb. apply String.eqb_eq. Qed.

Lemma join_tokens (l : list string) :
  Forall (piece p) l ->
  Str.join "" (List.filter (fun w => negb (Str.eqb w "")) (map Str.strip l))
  = without_space (Str.join "" l).
Proof.
  induction 1 as [| w l Hw _ IH]; [reflexivity |].
  cbn [map List.filter]. rewrite (join_cons w l), without_space_app, <- IH.
  rewrite <- (strip_piece w Hw).
  destruct (Str.eqb (Str.strip w) "") eqn:He; cbn [negb].
  - apply eqb_empty in He. rewrite He. reflexivity.
  - apply join_cons.
Qed.

Lemma tokens_of_pieces (l : list string) :
  Forall (piece p) l ->
  Forall (token_of p) (List.filter (fun w => negb (Str.eqb w "")) (map Str.strip l)).
Proof.
  induction 1 as [| w l Hw _ IH]; [constructor |].
  cbn [map List.filter]. destruct (Str.eqb (Str.strip w) "") eqn:He; cbn [negb]; [exact IH |].
  constructor; [| exact IH]. apply strip_piece_token; [exact Hw |].
  intros Hempty. apply eqb_empty in Hempty. congruence.
Qed.

Lemma tokenizer_is_lossless (s : string) :
  let tokens := List.filter (fun w => negb (Str.eqb w ""))
                            (map Str.strip (split true (Grp 1 (Cls p)) s)) in
  Forall (token_of p) tokens /\ Str.join "" tokens = without_space s.
Proof.
  cbn zeta. rewrite split_class. split.
  - apply tokens_of_pieces, split_chars_pieces.
  - rewrite join_tokens by apply split_chars_pieces. rewrite split_chars_join. reflexivity.
Qed.

End Tokenizer.

Lemma space_is_a_field_separator (c : ascii) :
  Char.space c = true -> field_separator c = true.
Proof. unfold field_separator. intros ->. reflexivity. Qed.

Lemma space_is_a_reference_separator (c : ascii) :
  Char.space c = true -> reference_separator c = true.
Proof. unfold reference_separator. intros ->. reflexivity. Qed.

Lemma field_tokens (text : string) :
  Forall (token_of field_separator) (tokenize_identified_multi_words text)
  /\ Str.join "" (tokenize_identified_multi_words text) = without_space text.
Proof. exact (tokenizer_is_lossless field_separator space_is_a_field_separator text). Qed.

Lemma reference_tokens (text : string) :
  Forall (token_of reference_separator) (tokenize_reference text)
  /\ Str.join "" (tokenize_reference text) = without_space text.
Proof. exact (tokenizer_is_lossless reference_separator space_is_a_reference_separator text). Qed.


End TokensProofs.

(** ** Tagged references *)

Module XmlProofs.
Import Re Crf Features Reference Tokens Xml StrFacts.

Lemma item_at {A B : Type} (f : A -> B) (l : list A) (i : nat) (x : A) :
  l !! i = Some x -> map f l !! i = Some (f x).
Proof.
  revert i. induction l as [| y l IH]; intros [| i]; cbn; try discriminate.
  - intros H. injection H as ->. reflexivity.
  - apply IH.
Qed.

Lemma item_found (xs : list string) (i : nat) (x : string) : xs !! i = Some x -> item xs i = Ok x.
Proof. unfold item. intros ->. reflexivity. Qed.

(** [get_labeled_multi_words] on parallel lists *)
Lemma labeled_words (current_label : string) (t : list (string * string)) :
  forall pre,
  exists inds,
    indices_of (map fst (pre ++ t)) current_label (seq (length pre) (length t)) = Ok inds
    /\ rsequence (map (item (map snd (pre ++ t))) inds) = Ok (words_of_label t current_label).
Proof.
  induction t as [| [l w] t IH]; intros pre.
  - exists []. split; reflexivity.
  - cbn [length seq indices_of].
    assert (Hat : (pre ++ (l, w) :: t) !! length pre = Some (l, w))
      by (apply list_lookup_middle; reflexivity).
    rewrite (item_found _ _ _ (item_at fst _ _ _ Hat)). cbn [rbind fst].
    destruct (IH (pre ++ [(l, w)])) as (inds & Hi & Hr).
    rewrite <- List.app_assoc, length_app, Nat.add_1_r in Hi. cbn [app] in Hi.
    rewrite <- List.app_assoc in Hr. cbn [app] in Hr.
    rewrite Hi. cbn [rbind]. unfold words_of_label. cbn [List.filter fst].
    destruct (Str.eqb l current_label).
    + exists (length pre :: inds). split; [reflexivity |]. cbn [map rsequence].
      rewrite (item_found _ _ _ (item_at snd _ _ _ Hat)). cbn [rbind snd].
      rewrite Hr. reflexivity.
    + exists inds. split; [reflexivity | exact Hr].
Qed.

Lemma get_labeled_multi_words_returns (tagged : list (string * string)) (current_label : string) :
  get_labeled_multi_words (map snd tagged) (map fst tagged) current_label
  = Ok (words_of_label tagged current_label).
Proof.
  unfold get_labeled_multi_words. rewrite length_map.
  destruct (labeled_words current_label tagged []) as (inds & Hi & Hr).
  cbn [app length] in Hi, Hr. rewrite Hi. cbn [rbind]. exact Hr.
Qed.

Lemma words_of_label_absent (tagged : list (string * string)) (l : string) :
  Str.mem l (map fst tagged) = false -> words_of_label tagged l = [].
Proof.
  unfold Str.mem, words_of_label.
  induction tagged as [| [l0 w] t IH]; cbn [map existsb List.filter fst]; [reflexivity |].
  intros H. apply orb_false_iff in H as [H1 H2]. rewrite str_eqb_sym, H1. exact (IH H2).
Qed.

Lemma words_of_label_in (tagged : list (string * string)) (l w : string) :
  In w (words_of_label tagged l) -> In w (map snd tagged).
Proof.
  unfold words_of_label. intros H. apply in_map_iff in H as (lw & <- & Hin).
  apply filter_In in Hin as [Hin _]. apply in_map. exact Hin.
Qed.

(** the loop over the keys *)
Lemma segment_keys_returns (tagged : list (string * string)) (keys : list string) :
  forall (segment_dict : gmap string pyval) (ref_words : list string),
    segment_keys (map snd tagged) (map fst tagged) keys (segment_dict, ref_words)
    = Ok (fold_left (fun d key => <[key := PStr (Str.join " " (words_of_label tagged (upper key)))]> d)
                    keys segment_dict,
          ref_words ++ flat_map (fun key => words_of_label tagged (upper key)) keys).
Proof.
  induction keys as [| key keys IH]; intros segment_dict ref_words;
    cbn [segment_keys fold_left flat_map].
  - rewrite List.app_nil_r. reflexivity.
  - unfold segment_key. destruct (Str.mem (upper key) (map fst tagged)) eqn:Hm.
    + rewrite get_labeled_multi_words_returns. cbn [rbind]. rewrite IH, List.app_assoc.
      reflexivity.
    + cbn [rbind]. rewrite IH. rewrite (words_of_label_absent _ _ Hm). reflexivity.
Qed.

Lemma fold_fields_lookup (value : string -> pyval) (keys : list string) :
  forall (d : gmap string pyval) (k : string),
    fold_left (fun d key => <[key := value key]> d) keys d !! k
    = if Str.mem k keys then Some (value k) else d !! k.
Proof.
  induction keys as [| key keys IH]; intros d k; cbn [fold_left]; [reflexivity |].
  rewrite IH. unfold Str.mem. cbn [existsb]. fold (Str.mem k keys).
  destruct (Str.mem k keys); [rewrite orb_true_r; reflexivity |]. rewrite orb_false_r.
  destruct (Str.eqb k key) eqn:He.
  - apply str_eqb_eq in He. subst. apply lookup_insert_eq.
  - apply str_eqb_neq in He. apply lookup_insert_ne. congruence.
Qed.

Lemma fold_fields_dom (value : string -> pyval) (keys : list string) :
  forall d : gmap string pyval,
    dom (fold_left (fun d key => <[key := value key]> d) keys d) = dom d ∪ list_to_set keys.
Proof.
  induction keys as [| key keys IH]; intros d; cbn [fold_left list_to_set].
  - set_solver.
  - rewrite IH, dom_insert_L. set_solver.
Qed.

(** [words[labels.index(tag)]] on parallel lists *)
Lemma word_of_absent (tagged : list (string * string)) (tag : string) :
  Str.mem tag (map fst tagged) = false ->
  word_of (map snd tagged) (map fst tagged) tag = Raise ValueError.
Proof.
  unfold word_of, Str.mem. intros H.
  replace (Str.index_of tag (map fst tagged)) with (@None nat); [reflexivity |].
  symmetry. revert H. induction tagged as [| [l w] t IH]; cbn [map Str.index_of existsb fst];
    [reflexivity |].
  intros H. apply orb_false_iff in H as [H1 H2].
  rewrite (str_eqb_sym l tag), H1, (IH H2). reflexivity.
Qed.

Lemma word_of_present (tagged : list (string * string)) (tag : string) :
  Str.mem tag (map fst tagged) = true ->
  exists w, word_of (map snd tagged) (map fst tagged) tag = Ok w /\ In w (map snd tagged).
Proof.
  unfold word_of, Str.mem. intros H.
  assert (Hi : exists i lw, Str.index_of tag (map fst tagged) = Some i /\ tagged !! i = Some lw).
  { revert H. induction tagged as [| [l w] t IH]; cbn [map Str.index_of existsb fst];
      [discriminate |].
    rewrite (str_eqb_sym tag l). destruct (Str.eqb l tag).
    - intros _. exists 0%nat, (l, w). split; reflexivity.
    - cbn [orb]. intros H. destruct (IH H) as (i & lw & -> & Hlw). exists (S i), lw.
      split; [reflexivity | exact Hlw]. }
  destruct Hi as (i & [l w] & -> & Hlw). exists w. unfold py_item.
  destruct (Z.ltb_spec (Z.of_nat i) 0) as [Hneg | _]; [lia |].
  destruct (Z.ltb_spec (Z.of_nat i) 0) as [Hneg | _]; [lia |].
  rewrite Nat2Z.id, (item_at snd _ _ _ Hlw). split; [reflexivity |].
  apply in_map_iff. exists (l, w). split; [reflexivity |].
  apply list_elem_of_In. apply (list_elem_of_lookup_2 _ i). exact Hlw.
Qed.

(** the labels after the dots were set apart *)
Lemma labels_after_split (reference_list : list (string * string)) (tag : string) :
  Str.eqb tag "PUNCTUATION_DOT" = false ->
  Str.mem tag (map fst (flat_map split_dot reference_list)) = Str.mem tag (map fst reference_list).
Proof.
  intros Hdot. unfold Str.mem.
  induction reference_list as [| [l w] t IH]; cbn [flat_map map existsb fst]; [reflexivity |].
  rewrite map_app, existsb_app, IH. f_equal. unfold split_dot.
  destruct (_ && _); cbn [map existsb fst]; rewrite ?Hdot, ?orb_false_r; reflexivity.
Qed.

Lemma authors_words (authors : string) :
  (if (0 <? Str.len authors)%nat then tokenize_identified_multi_words authors else [])
  = tokenize_identified_multi_words authors.
Proof. destruct authors; reflexivity. Qed.

Lemma segment_without_refstr (reference_list : list (string * string)) :
  Str.mem "REFSTR" (map fst reference_list) = false -> segment reference_list = Raise ValueError.
Proof.
  intros H. unfold segment. cbn zeta. rewrite segment_keys_returns. cbn [rbind].
  rewrite word_of_absent; [reflexivity |]. rewrite labels_after_split; [exact H | reflexivity].
Qed.

Lemma segment_with_refstr (reference_list : list (string * string)) :
  Str.mem "REFSTR" (map fst reference_list) = true ->
  exists (refstr : string) (refplaintext : pyval),
    segment reference_list
    = Ok (<["refplaintext" := refplaintext]>
            (<["refstr" := PStr refstr]>
               (fold_left
                  (fun d key =>
                     <[key := PStr (Str.join " " (words_of_label (flat_map split_dot reference_list)
                                                    (upper key)))]> d)
                  SEGMENT_DICT_KEYS (<["authors" := PStr (merge_authors reference_list)]> ∅))),
          tokenize_identified_multi_words (merge_authors reference_list)
            ++ flat_map (fun key => words_of_label (flat_map split_dot reference_list) (upper key))
                 SEGMENT_DICT_KEYS)
    /\ (refplaintext = PNone <-> Str.mem "REFPLAINTEXT" (map fst reference_list) = false).
Proof.
  intros H. unfold segment. cbn zeta. rewrite segment_keys_returns, authors_words. cbn [rbind].
  destruct (word_of_present (flat_map split_dot reference_list) "REFSTR") as (refstr & -> & _);
    [rewrite labels_after_split; [exact H | reflexivity] |].
  cbn [rbind]. rewrite (labels_after_split reference_list "REFPLAINTEXT") by reflexivity.
  destruct (Str.mem "REFPLAINTEXT" (map fst reference_list)) eqn:Hp.
  - destruct (word_of_present (flat_map split_dot reference_list) "REFPLAINTEXT")
      as (w & -> & _); [rewrite labels_after_split; [exact Hp | reflexivity] |].
    cbn [rbind]. exists refstr, (PStr w). split; [reflexivity |].
    split; intros; discriminate.
  - cbn [rbind]. exists refstr, PNone. split; [reflexivity |]. split; reflexivity.
Qed.

Lemma field_is_no_other_key (key : string) :
  In key SEGMENT_DICT_KEYS ->
  key <> "refplaintext" /\ key <> "refstr" /\ key <> "authors".
Proof.
  intros Hin. repeat split; intros ->; cbn in Hin;
    repeat (destruct Hin as [Hin | Hin]; [discriminate Hin |]); exact Hin.
Qed.


(** *** Words that are not blank *)

Lemma blank_app (a b : string) : blank (a ++ b) = blank a && blank b.
Proof.
  unfold blank, Str.all_chars. induction a as [| c a IH]; [reflexivity |].
  rewrite PartFacts.app_cons. cbn [list_ascii_of_string forallb]. rewrite IH, andb_assoc.
  reflexivity.
Qed.

Lemma blank_without_space (s : string) : blank s = true <-> without_space s = "".
Proof.
  unfold blank, Str.all_chars. induction s as [| c s IH]; [split; reflexivity |].
  rewrite TokensProofs.without_space_cons. cbn [list_ascii_of_string forallb].
  destruct (Char.space c); cbn [andb]; [exact IH | split; discriminate].
Qed.

(** a text that is not blank has a token *)
Lemma text_has_token (s : string) :
  blank s = false -> tokenize_identified_multi_words s <> [].
Proof.
  intros Hb Htok. destruct (TokensProofs.field_tokens s) as [_ Hjoin].
  rewrite Htok in Hjoin. cbn [Str.join] in Hjoin. symmetry in Hjoin.
  apply blank_without_space in Hjoin. congruence.
Qed.

Lemma token_not_empty (s t : string) : In t (tokenize_identified_multi_words s) -> t <> "".
Proof.
  destruct (TokensProofs.field_tokens s) as [Hall _]. intros Hin. exact (proj1 (proj1 (List.Forall_forall _ _) Hall t Hin)).
Qed.

Lemma join_not_blank (sep w : string) (ws : list string) :
  blank w = false -> blank (Str.join sep (w :: ws)) = false.
Proof.
  intros Hw. destruct ws as [| v ws]; cbn [Str.join]; [exact Hw |].
  rewrite blank_app, Hw. reflexivity.
Qed.

Lemma text_ok (s : string) :
  s = "" \/ blank s = false ->
  (Str.len s =? 0)%nat || (0 <? length (tokenize_identified_multi_words s))%nat = true.
Proof.
  intros [-> | Hb]; [reflexivity |]. apply orb_true_iff. right. apply Nat.ltb_lt.
  pose proof (text_has_token s Hb) as Ht.
  destruct (tokenize_identified_multi_words s); [congruence | cbn; lia].
Qed.

Lemma joined_words_ok (ws : list string) :
  Forall (fun w => blank w = false) ws ->
  Str.join " " ws = "" \/ blank (Str.join " " ws) = false.
Proof.
  intros [| w ws' Hw _]; [left; reflexivity | right; apply join_not_blank; exact Hw].
Qed.

Lemma endswith_dot_not_blank (w : string) : Str.endswith "." w = true -> blank w = false.
Proof.
  unfold Str.endswith. change (Str.rev ".") with ".". intros H.
  apply PartFacts.startswith_iff in H as [t Ht].
  destruct (blank w) eqn:Hb; [| reflexivity]. exfalso.
  unfold blank in Hb. apply (TokensProofs.rev_all_chars Char.space) in Hb. rewrite Ht in Hb.
  discriminate Hb.
Qed.

Lemma original_words_not_blank (reference_list : list (string * string)) :
  forallb (fun w => negb (blank w)) (map snd (flat_map split_dot reference_list)) = true ->
  Forall (fun lw => blank (snd lw) = false) reference_list.
Proof.
  induction reference_list as [| [l w] t IH]; cbn [flat_map]; [constructor |].
  rewrite map_app, forallb_app. intros H. apply andb_prop in H as [H1 H2].
  constructor; [| exact (IH H2)]. cbn [snd]. unfold split_dot in H1.
  destruct (Str.mem l _ && Str.endswith "." w) eqn:Hc.
  - apply andb_prop in Hc as [_ Hdot]. exact (endswith_dot_not_blank w Hdot).
  - cbn [map snd forallb] in H1. rewrite andb_true_r in H1. apply negb_true_iff in H1. exact H1.
Qed.

Lemma author_pieces (reference_list : list (string * string)) :
  Forall (fun lw => blank (snd lw) = false) reference_list ->
  flat_map author_piece reference_list = []
  \/ exists w rest, flat_map author_piece reference_list = w :: rest /\ blank w = false.
Proof.
  induction 1 as [| [l w] t Hw _ IH]; cbn [flat_map]; [left; reflexivity |].
  cbn [snd] in Hw.
  assert (Hp : author_piece (l, w) = [] \/ exists rest, author_piece (l, w) = w :: rest).
  { unfold author_piece. destruct (Str.mem l AUTHOR_TAGS); [right | left; reflexivity].
    destruct (Str.eqb l "AUTHOR_LAST_NAME"); [| destruct (Str.mem l _)]; eauto. }
  destruct Hp as [-> | [rest ->]]; cbn [app]; [exact IH | right; eauto].
Qed.

Lemma drop_trailing_space_keeps_first (w : string) (rest : list string) :
  blank w = false -> exists rest', drop_trailing_space (w :: rest) = w :: rest'.
Proof.
  intros Hw. unfold drop_trailing_space.
  destruct (List.rev (w :: rest)) as [| last before] eqn:Hr; [eauto |].
  destruct (Str.eqb last " ") eqn:He; [| eauto]. apply str_eqb_eq in He. subst last.
  assert (Hn : w :: rest = List.rev before ++ [" "]).
  { rewrite <- (rev_involutive (w :: rest)), Hr. reflexivity. }
  destruct (List.rev before) as [| x xs]; cbn [app] in Hn.
  - injection Hn as -> _. discriminate Hw.
  - injection Hn as -> _. eauto.
Qed.

Lemma merged_authors_ok (reference_list : list (string * string)) :
  Forall (fun lw => blank (snd lw) = false) reference_list ->
  merge_authors reference_list = "" \/ blank (merge_authors reference_list) = false.
Proof.
  intros H. unfold merge_authors.
  destruct (author_pieces reference_list H) as [-> | (w & rest & -> & Hw)];
    [left; reflexivity |].
  destruct (drop_trailing_space_keeps_first w rest Hw) as [rest' ->].
  right. apply join_not_blank. exact Hw.
Qed.

Lemma returned_lookup (value : string -> pyval) (authors refstr refplaintext : pyval)
    (k : string) :
  (<["refplaintext" := refplaintext]>
     (<["refstr" := refstr]>
        (fold_left (fun d key => <[key := value key]> d) SEGMENT_DICT_KEYS
           (<["authors" := authors]> (∅ : gmap string pyval))))) !! k
  = if Str.eqb k "refplaintext" then Some refplaintext
    else if Str.eqb k "refstr" then Some refstr
    else if Str.mem k SEGMENT_DICT_KEYS then Some (value k)
    else if Str.eqb k "authors" then Some authors
    else None.
Proof.
  destruct (Str.eqb k "refplaintext") eqn:H1;
    [apply str_eqb_eq in H1; subst; apply lookup_insert_eq |].
  apply str_eqb_neq in H1. rewrite lookup_insert_ne by congruence.
  destruct (Str.eqb k "refstr") eqn:H2;
    [apply str_eqb_eq in H2; subst; apply lookup_insert_eq |].
  apply str_eqb_neq in H2. rewrite lookup_insert_ne by congruence.
  rewrite fold_fields_lookup. destruct (Str.mem k SEGMENT_DICT_KEYS); [reflexivity |].
  destruct (Str.eqb k "authors") eqn:H3;
    [apply str_eqb_eq in H3; subst; apply lookup_insert_eq |].
  apply str_eqb_neq in H3. rewrite lookup_insert_ne by congruence. apply lookup_empty.
Qed.

Lemma returned_dict_ok (value : string -> string) (authors refstr : string)
    (refplaintext : pyval) :
  (forall key, value key = "" \/ blank (value key) = false) ->
  authors = "" \/ blank authors = false ->
  segment_dict_ok
    (<["refplaintext" := refplaintext]>
       (<["refstr" := PStr refstr]>
          (fold_left (fun d key => <[key := PStr (value key)]> d) SEGMENT_DICT_KEYS
             (<["authors" := PStr authors]> (∅ : gmap string pyval))))) = true.
Proof.
  intros Hvalue Hauthors. unfold segment_dict_ok.
  rewrite !andb_true_iff. split; [split |].
  - apply forallb_forall. intros tag Hin. cbn in Hin.
    rewrite (returned_lookup (fun key => PStr (value key))).
    repeat (destruct Hin as [<- | Hin]; [reflexivity |]). contradiction.
  - apply forallb_forall. intros field Hin. cbn in Hin. unfold text_field_ok, get_or_empty.
    rewrite (returned_lookup (fun key => PStr (value key))).
    destruct Hin as [<- | [<- | [<- | [<- | []]]]]; cbn [Str.eqb String.eqb Ascii.eqb Bool.eqb];
      try (apply text_ok; assumption || apply Hvalue); reflexivity.
  - apply forallb_forall. intros field Hin. cbn in Hin. unfold is_text, get_or_empty.
    rewrite (returned_lookup (fun key => PStr (value key))).
    destruct Hin as [<- | [<- | []]]; reflexivity.
Qed.

Lemma returned_words_not_empty (reference_list : list (string * string)) :
  forallb (fun w => negb (blank w)) (map snd (flat_map split_dot reference_list)) = true ->
  no_empty_token
    (tokenize_identified_multi_words (merge_authors reference_list)
       ++ flat_map (fun key => words_of_label (flat_map split_dot reference_list) (upper key))
            SEGMENT_DICT_KEYS) = true.
Proof.
  intros H. unfold no_empty_token. apply forallb_forall. intros w Hin.
  apply negb_true_iff, str_eqb_neq. apply in_app_or in Hin as [Hin | Hin].
  - exact (token_not_empty _ _ Hin).
  - apply in_flat_map in Hin as (key & _ & Hin). apply words_of_label_in in Hin.
    pose proof (proj1 (forallb_forall _ _) H w Hin) as Hw. intros ->. discriminate Hw.
Qed.

Lemma words_of_label_not_blank (tagged : list (string * string)) (l : string) :
  forallb (fun w => negb (blank w)) (map snd tagged) = true ->
  Forall (fun w => blank w = false) (words_of_label tagged l).
Proof.
  intros H. apply List.Forall_forall. intros w Hin. apply words_of_label_in in Hin.
  apply negb_true_iff. exact (proj1 (forallb_forall _ _) H w Hin).
Qed.

Lemma Forall2_right {A B : Type} (P : B -> Prop) (xs : list A) (ys : list B) :
  Forall2 (fun _ y => P y) xs ys -> length ys = length xs /\ Forall P ys.
Proof.
  induction 1 as [| x y xs ys Hy _ [IH1 IH2]]; [split; [reflexivity | constructor] |].
  split; [cbn; rewrite IH1; reflexivity | constructor; assumption].
Qed.



(** The words of the example, and a journal that is a lone dot: its text
    without the dot is an empty word, on which the features raise. *)
Example tagged_reference_words :
  (do state <- segment example_reference; Ok (snd state))
  = Ok [ "Smith"; "J"; "."; "2001"; "ApJ"; "42"; "100" ]
  /\ classify_features example_stopwords (fun _ => false) example_search example_lone_dot
     = Raise IndexError.
Proof. split; vm_compute; reflexivity. Qed.

End XmlProofs.

(** ** Normalized names *)

Module NamesProofs.
Import Authors Names StrFacts PartFacts.

Lemma replace_hyphen_fuel (fuel : nat) :
  forall s, (Str.len s < fuel)%nat ->
    Str.replace_fuel fuel "-" " " s
    = string_of_list_ascii (map hyphen_to_space (list_ascii_of_string s)).
Proof.
  induction fuel as [| fuel IH]; intros s Hlen; [lia |].
  destruct s as [| c s]; [reflexivity |]. cbn [Str.replace_fuel Str.startswith].
  cbn [list_ascii_of_string map string_of_list_ascii]. unfold hyphen_to_space at 1.
  rewrite andb_true_r. cbn in Hlen. destruct (Char.same "-" c).
  - change (Str.drop (Str.len "-") (String c s)) with s.
    rewrite IH by (unfold Str.len; lia). reflexivity.
  - rewrite IH by (unfold Str.len; lia). reflexivity.
Qed.

Lemma replace_hyphen (s : string) :
  Str.replace "-" " " s = string_of_list_ascii (map hyphen_to_space (list_ascii_of_string s)).
Proof. unfold Str.replace. apply replace_hyphen_fuel. lia. Qed.

Lemma to_lower_hyphen (c : ascii) :
  Char.to_lower (hyphen_to_space c) = hyphen_to_space (Char.to_lower c)
  /\ Char.to_lower (Char.to_lower c) = Char.to_lower c
  /\ hyphen_to_space (hyphen_to_space c) = hyphen_to_space c
  /\ Char.upper (Char.to_lower (hyphen_to_space c)) = false
  /\ Char.same "-" (Char.to_lower (hyphen_to_space c)) = false.
Proof.
  destruct c as [[] [] [] [] [] [] [] []]; vm_compute; repeat split; reflexivity.
Qed.

Lemma normalize_single_author_chars (s : string) :
  normalize_single_author s
  = string_of_list_ascii
      (map (fun c => Char.to_lower (hyphen_to_space c)) (list_ascii_of_string s)).
Proof.
  unfold normalize_single_author, Str.lower.
  rewrite replace_hyphen, list_ascii_of_string_of_list_ascii, map_map. reflexivity.
Qed.

Lemma len_of_chars (l : list ascii) : Str.len (string_of_list_ascii l) = length l.
Proof. unfold Str.len. induction l as [| c l IH]; cbn; [reflexivity | rewrite IH; reflexivity]. Qed.

(** X20. [normalize_single_author] changes each character by itself: the
    result has the length of the name, no capital letter and no hyphen; to
    normalize twice is to normalize once; and the result is the one that
    [get_author_last_name_only] gives a last name, which lowers the case
    before it replaces the hyphens. *)
Theorem normalize_single_author_is_stable (author_string : string) :
  normalize_single_author (normalize_single_author author_string)
  = normalize_single_author author_string
  /\ Str.len (normalize_single_author author_string) = Str.len author_string
  /\ Str.all_chars (fun c => negb (Char.upper c) && negb (Char.same "-" c))
       (normalize_single_author author_string) = true
  /\ normalize_single_author author_string = normalize_last_name author_string.
Proof.
  rewrite !normalize_single_author_chars. rewrite list_ascii_of_string_of_list_ascii, map_map.
  split; [| split; [| split]].
  - f_equal. apply map_ext. intros c.
    destruct (to_lower_hyphen c) as (_ & _ & H3 & _).
    destruct (to_lower_hyphen (hyphen_to_space c)) as (H1 & H2 & _).
    rewrite <- H1, H3. exact H2.
  - rewrite len_of_chars, length_map. unfold Str.len.
    rewrite <- (string_of_list_ascii_of_string author_string) at 2.
    generalize (list_ascii_of_string author_string) as l.
    induction l as [| c l IH]; cbn; [reflexivity | rewrite IH; reflexivity].
  - unfold Str.all_chars. rewrite list_ascii_of_string_of_list_ascii.
    apply forallb_forall. intros c Hin. apply in_map_iff in Hin as (c0 & <- & _).
    destruct (to_lower_hyphen c0) as (_ & _ & _ & -> & ->). reflexivity.
  - unfold normalize_last_name, Str.lower.
    rewrite replace_hyphen, list_ascii_of_string_of_list_ascii, map_map.
    f_equal. apply map_ext. intros c. exact (proj1 (to_lower_hyphen c)).
Qed.

Lemma find_from_splits (sub s : string) :
  forall pos i, Str.find_from sub s pos = Some i ->
    exists k t, i = (pos + k)%nat /\ s = (Str.take k s ++ sub ++ t)%string.
Proof.
  induction s as [| c s IH]; intros pos i; cbn [Str.find_from].
  - destruct (Str.startswith sub "") eqn:Hs; [| discriminate].
    intros H. injection H as <-. apply startswith_iff in Hs as [t Ht].
    exists 0%nat, t. split; [lia | exact Ht].
  - destruct (Str.startswith sub (String c s)) eqn:Hs.
    + intros H. injection H as <-. apply startswith_iff in Hs as [t Ht].
      exists 0%nat, t. split; [lia | exact Ht].
    + intros H. apply IH in H as (k & t & -> & Hk). exists (S k), t.
      split; [lia |]. cbn [Str.take]. rewrite app_cons, <- Hk. reflexivity.
Qed.

Lemma before_first_splits (sep s : string) :
  Str.before_first sep s = s \/ exists t, s = (Str.before_first sep s ++ sep ++ t)%string.
Proof.
  unfold Str.before_first, Str.find. destruct (Str.find_from sep s 0) as [i |] eqn:Hf;
    [| left; reflexivity].
  apply find_from_splits in Hf as (k & t & -> & Hk). right. exists t. exact Hk.
Qed.

(** X21. [get_first_author_last_name] returns [None] for the empty string
    only.  Otherwise it returns the start of the string up to the first
    comma or semicolon, whichever comes first: the name has neither, and
    what follows it in the string is nothing or starts with one of them. *)
Theorem first_author_last_name_is_the_start (author_string : string) :
  (get_first_author_last_name author_string = None <-> author_string = "")
  /\ (forall name, get_first_author_last_name author_string = Some name ->
        Str.contains "," name = false
        /\ Str.contains ";" name = false
        /\ exists rest, author_string = (name ++ rest)%string /\ ends_the_name rest = true).
Proof.
  unfold get_first_author_last_name. split.
  - destruct (Str.eqb author_string "") eqn:He.
    + apply str_eqb_eq in He. split; [intros _; exact He | reflexivity].
    + apply str_eqb_neq in He. split; [discriminate | contradiction].
  - intros name. destruct (Str.eqb author_string ""); [discriminate |].
    intros H. injection H as <-.
    split; [apply before_first_free; discriminate |]. split.
    + apply (contains_part ";" _ (Str.before_first ";" author_string));
        [apply before_first_part | apply before_first_free; discriminate].
    + destruct (before_first_splits ";" author_string) as [Hs | [t Hs]];
        destruct (before_first_splits "," (Str.before_first ";" author_string))
        as [Hc | [t' Hc]].
      * exists "". rewrite app_nil_r, Hc, Hs. split; reflexivity.
      * exists ("," ++ t')%string. rewrite <- Hc, Hs. split; reflexivity.
      * exists (";" ++ t)%string. rewrite Hc. split; [exact Hs | reflexivity].
      * exists ("," ++ t' ++ ";" ++ t)%string. split; [| reflexivity].
        rewrite Hs at 1. rewrite Hc at 1. rewrite !app_assoc. reflexivity.
Qed.

End NamesProofs.

(** ** The authors at the start of a reference *)

Module GetAuthorsProofs.
Import Re Authors GetAuthors StrFacts PartFacts ReFacts.

Lemma len_app (a b : string) : Str.len (a ++ b) = (Str.len a + Str.len b)%nat.
Proof.
  unfold Str.len. induction a as [| c a IH]; [reflexivity |].
  rewrite app_cons. cbn [String.length]. rewrite IH. reflexivity.
Qed.

(** What a pattern has taken when it hands over to its continuation: a
    text at the start of what was left of the subject, by whose length the
    position has moved, and which is not empty for a pattern that takes a
    character. *)
Lemma rmatch_consumes (r : regex) :
  forall (k : mstate -> option mstate) (s e : mstate),
    rmatch r k s = Some e ->
    exists s' w,
      k s' = Some e
      /\ m_rest s = (w ++ m_rest s')%string
      /\ m_pos s' = (m_pos s + Str.len w)%nat
      /\ (takes_a_character r = true -> w <> "").
Proof.
  assert (Hstay : forall (k : mstate -> option mstate) (s e : mstate),
             k s = Some e ->
             exists s' w, k s' = Some e /\ m_rest s = (w ++ m_rest s')%string
                          /\ m_pos s' = (m_pos s + Str.len w)%nat
                          /\ (false = true -> w <> "")).
  { intros k s e H. exists s, "". repeat split; [exact H | cbn; lia | discriminate]. }
  induction r as [| p | a IHa b IHb | a IHa b IHb | a IHa | n a IHa | | | | | a IHa | a IHa];
    intros k s e; cbn [rmatch takes_a_character].
  - apply Hstay.
  - destruct (m_rest s) as [| c t] eqn:Hrest; [discriminate |].
    destruct (p c); [| discriminate]. intros H.
    exists (MState (Some c) t (S (m_pos s)) (m_caps s)), (String c "").
    repeat split; [exact H | cbn; lia | discriminate].
  - intros H. apply IHa in H as (s1 & w1 & H & Hr1 & Hp1 & Hn1).
    apply IHb in H as (s2 & w2 & H & Hr2 & Hp2 & Hn2).
    exists s2, (w1 ++ w2)%string. split; [exact H |]. split; [| split].
    + rewrite Hr1, Hr2, app_assoc. reflexivity.
    + rewrite Hp2, Hp1, len_app. lia.
    + intros Ht Hw. apply orb_true_iff in Ht.
      destruct w1 as [| c w1]; [| rewrite app_cons in Hw; discriminate Hw].
      change w2 with (EmptyString ++ w2)%string in Hn2. rewrite Hw in Hn2. clear Hw.
      destruct Ht as [Ht | Ht]; [exact (Hn1 Ht eq_refl) | exact (Hn2 Ht eq_refl)].
  - destruct (rmatch a k s) as [e' |] eqn:Ha.
    + intros H. injection H as <-. apply IHa in Ha as (s' & w & H & Hr & Hp & Hn).
      exists s', w. repeat split; try assumption. intros Ht. apply andb_prop in Ht as [Ht _].
      exact (Hn Ht).
    + intros H. apply IHb in H as (s' & w & H & Hr & Hp & Hn).
      exists s', w. repeat split; try assumption. intros Ht. apply andb_prop in Ht as [_ Ht].
      exact (Hn Ht).
  - generalize (Str.len (m_rest s)). intros fuel. revert s.
    induction fuel as [| fuel IH]; intros s; [apply Hstay |].
    match goal with
    | |- match ?m with Some _ => _ | None => _ end = _ -> _ => destruct m as [e' |] eqn:Hm
    end; [| apply Hstay].
    intros H. injection H as <-. apply IHa in Hm as (s1 & w1 & H & Hr1 & Hp1 & _).
    destruct (m_pos s <? m_pos s1)%nat; [| discriminate].
    apply IH in H as (s2 & w2 & H & Hr2 & Hp2 & _).
    exists s2, (w1 ++ w2)%string. split; [exact H |]. split; [| split; [| discriminate]].
    + rewrite Hr1, Hr2, app_assoc. reflexivity.
    + rewrite Hp2, Hp1, len_app. lia.
  - intros H. apply IHa in H as (s' & w & H & Hr & Hp & Hn).
    eexists _, w. split; [exact H |]. cbn [m_rest m_pos]. auto.
  - destruct (at_boundary s); [apply Hstay | discriminate].
  - destruct (at_boundary s); [discriminate | apply Hstay].
  - destruct (m_pos s =? 0)%nat; [apply Hstay | discriminate].
  - destruct (at_end s); [apply Hstay | discriminate].
  - destruct (succeeds _); [apply Hstay | discriminate].
  - destruct (succeeds _); [discriminate | apply Hstay].
Qed.

Lemma take_app_len (w t : string) : Str.take (Str.len w) (w ++ t) = w.
Proof.
  induction w as [| c w IH]; [reflexivity |].
  rewrite app_cons. cbn [Str.len String.length Str.take]. f_equal. exact IH.
Qed.

(** the text of a match is the start of the subject *)
Lemma match_at_consumes (r : regex) (prev : option ascii) (s : string) (pos : nat) (m : mobj) :
  match_at r prev s pos = Some m ->
  exists t, s = (mo_text m ++ t)%string
            /\ mo_end m = (pos + Str.len (mo_text m))%nat
            /\ (takes_a_character r = true -> mo_text m <> "").
Proof.
  unfold match_at. destruct (rmatch r Some _) as [e |] eqn:He; [| discriminate].
  intros H. injection H as <-. apply rmatch_consumes in He as (s' & w & Hk & Hr & Hp & Hn).
  injection Hk as ->. cbn [m_rest m_pos] in Hr, Hp. cbn [mo_text mo_end].
  rewrite Hp. replace (pos + Str.len w - pos)%nat with (Str.len w) by lia.
  subst s. rewrite take_app_len. exists (m_rest e). auto.
Qed.

Lemma shapes_take_a_character (p : author_pattern) : takes_a_character (pattern_regex p) = true.
Proof. destruct p; reflexivity. Qed.

Lemma skip_to_capital_grows (ref_string : string) (start_idx author_len : nat) :
  (author_len <= skip_to_capital ref_string start_idx author_len)%nat.
Proof.
  unfold skip_to_capital. destruct (0 <? author_len)%nat; [| lia].
  destruct (match_start FIRST_CAPTIAL _); lia.
Qed.

(** The turns that [get_authors_recursive] is given are enough: with more
    of them the loop returns the same length. *)
Lemma authors_loop_turns (ref_string : string) (start_idx : nat) (p : author_pattern) :
  forall turns author_len extra,
    (Str.len ref_string - (start_idx + author_len) < turns)%nat ->
    authors_loop (turns + extra) ref_string start_idx p author_len
    = authors_loop turns ref_string start_idx p author_len.
Proof.
  induction turns as [| turns IH]; intros author_len extra Hturns; [lia |].
  cbn [Nat.add authors_loop].
  pose proof (skip_to_capital_grows ref_string start_idx author_len) as Hskip.
  set (skipped := skip_to_capital ref_string start_idx author_len) in *.
  destruct (match_start (pattern_regex p) (Str.drop (start_idx + skipped) ref_string))
    as [m |] eqn:Hm; [| reflexivity].
  apply match_at_consumes in Hm as (t & Hsub & _ & Hne).
  specialize (Hne (shapes_take_a_character p)).
  assert (Hlen : (Str.len (mo_text m) + Str.len t
                  = Str.len ref_string - (start_idx + skipped))%nat).
  { rewrite <- len_app, <- Hsub. apply TokensProofs.drop_len. }
  assert (Hpos : (0 < Str.len (mo_text m))%nat)
    by (destruct (mo_text m); [congruence | cbn; lia]).
  apply IH. lia.
Qed.

Lemma get_authors_recursive_turns (ref_string : string) (start_idx : nat) (p : author_pattern)
    (extra : nat) :
  authors_loop (S (Str.len ref_string) + extra) ref_string start_idx p 0
  = get_authors_recursive ref_string start_idx p.
Proof. unfold get_authors_recursive. apply authors_loop_turns. lia. Qed.

(** *** The text that [ETAL_HOOK] matches *)

Lemma rmatch_three (p1 p2 p3 : ascii -> bool) (k : mstate -> option mstate) (s e : mstate) :
  rmatch (Cat (Cls p1) (Cat (Cls p2) (Cat (Cls p3) Eps))) k s = Some e ->
  exists c1 c2 c3 t,
    m_rest s = String c1 (String c2 (String c3 t))
    /\ p1 c1 = true /\ p2 c2 = true /\ p3 c3 = true
    /\ k (MState (Some c3) t (3 + m_pos s) (m_caps s)) = Some e.
Proof.
  intros H. rewrite rmatch_cat in H. apply rmatch_cls in H as (c1 & t1 & Hr1 & Hp1 & H).
  rewrite rmatch_cat in H. apply rmatch_cls in H as (c2 & t2 & Hr2 & Hp2 & H).
  rewrite rmatch_cat in H. apply rmatch_cls in H as (c3 & t3 & Hr3 & Hp3 & H).
  rewrite rmatch_eps in H. cbn [m_rest m_pos m_caps] in *. subst t1 t2.
  exists c1, c2, c3, t3. repeat split; assumption.
Qed.

Lemma rmatch_opt_dot (k : mstate -> option mstate) (s e : mstate) :
  rmatch (Opt (Chr ".")) k s = Some e ->
  exists d s',
    (d = "" \/ d = ".")
    /\ m_rest s = (d ++ m_rest s')%string
    /\ m_pos s' = (m_pos s + Str.len d)%nat
    /\ k s' = Some e.
Proof.
  intros H. apply rmatch_alt in H as [H | H].
  - apply rmatch_cls in H as (c & t & Hr & Hc & H). apply same_eq in Hc. subst c.
    eexists ".", _. split; [right; reflexivity |]. split; [| split; [| exact H]].
    + exact Hr.
    + cbn. lia.
  - rewrite rmatch_eps in H. exists "", s. split; [left; reflexivity |].
    split; [reflexivity |]. split; [cbn; lia | exact H].
Qed.

Lemma letter_is_no_space (l x : ascii) :
  Char.alpha l = true -> Char.same (Char.to_lower l) (Char.to_lower x) = true ->
  Char.space x = false.
Proof.
  intros Hl Hx. apply same_eq in Hx. destruct (Char.space x) eqn:Hs; [| reflexivity].
  exfalso. assert (Hx' : Char.to_lower x = x /\ Char.alpha x = false).
  { revert Hs. clear. destruct x as [[] [] [] [] [] [] [] []]; vm_compute; intros H;
      try discriminate H; split; reflexivity. }
  destruct Hx' as [Hx1 Hx2]. rewrite Hx1 in Hx. subst x.
  revert Hl Hx2. clear. destruct l as [[] [] [] [] [] [] [] []]; vm_compute; congruence.
Qed.

Lemma etal_text (ref_string : string) (m : mobj) :
  match_start ETAL_HOOK ref_string = Some m ->
  exists a first y last,
    mo_text m = (a ++ String first (y ++ String last ""))%string
    /\ Char.space first = false /\ Char.space last = false /\ y <> "".
Proof.
  unfold match_start, match_at.
  destruct (rmatch ETAL_HOOK Some _) as [e |] eqn:He; [| discriminate].
  intros H. injection H as <-. cbn [mo_text]. unfold ETAL_HOOK in He.
  rewrite rmatch_cat, rmatch_grp in He. cbn [Seq] in He. rewrite rmatch_cat in He.
  apply rmatch_consumes in He as (s1 & w1 & He & Hr1 & Hp1 & _).
  cbn [m_rest m_pos] in Hr1, Hp1.
  rewrite rmatch_cat in He. cbn [LitI] in He.
  apply rmatch_three in He as (x1 & x2 & x3 & t1 & Hr2 & _ & Hx2 & _ & He).
  rewrite rmatch_cat in He.
  apply rmatch_opt_dot in He as (d1 & s2 & Hd1 & Hr3 & Hp3 & He).
  cbn [m_rest m_pos] in Hr3, Hp3.
  rewrite rmatch_cat in He.
  apply rmatch_three in He as (y1 & y2 & y3 & t2 & Hr4 & _ & _ & Hy3 & He).
  apply rmatch_opt_dot in He as (d2 & s3 & Hd2 & Hr5 & Hp5 & He).
  cbn [m_rest m_pos] in Hr5, Hp5.
  apply rmatch_wordb in He. injection He as <-. cbn [m_pos].
  apply (letter_is_no_space "e") in Hx2; [| reflexivity].
  apply (letter_is_no_space "l") in Hy3; [| reflexivity].
  assert (Hsubject :
            ref_string
            = ((w1 ++ String x1 (String x2 (String x3 (d1 ++ String y1 (String y2 (String y3 d2))))))
                 ++ m_rest s3)%string).
  { rewrite Hr1, Hr2, Hr3, Hr4, Hr5. rewrite !app_assoc, !app_cons, !app_assoc, !app_cons.
    reflexivity. }
  assert (Hend :
            m_pos s3
            = Str.len (w1 ++ String x1 (String x2 (String x3
                                (d1 ++ String y1 (String y2 (String y3 d2))))))).
  { rewrite Hp5, Hp3, len_app. cbn [Str.len String.length]. fold (Str.len w1).
    change (String.length (d1 ++ String y1 (String y2 (String y3 d2))))
      with (Str.len (d1 ++ String y1 (String y2 (String y3 d2)))).
    rewrite len_app. cbn [Str.len String.length]. fold (Str.len d1) (Str.len d2). lia. }
  rewrite Nat.sub_0_r, Hend, Hsubject, take_app_len.
  destruct Hd2 as [-> | ->].
  - exists (w1 ++ String x1 "")%string, x2, (String x3 (d1 ++ String y1 (String y2 ""))), y3.
    split; [| split; [exact Hx2 | split; [exact Hy3 | discriminate]]].
    rewrite !app_assoc, !app_cons. do 4 f_equal. rewrite !app_assoc, !app_cons. reflexivity.
  - exists (w1 ++ String x1 "")%string, x2,
      (String x3 (d1 ++ String y1 (String y2 (String y3 "")))), "."%char.
    split; [| split; [exact Hx2 | split; [reflexivity | discriminate]]].
    rewrite !app_assoc, !app_cons. do 4 f_equal. rewrite !app_assoc, !app_cons. reflexivity.
Qed.

(** *** What [strip] keeps *)

Lemma lstrip_keeps (a z : string) (first : ascii) :
  Char.space first = false ->
  exists a', Str.lstrip (a ++ String first z) = (a' ++ String first z)%string.
Proof.
  intros Hf. induction a as [| c a [a' IH]].
  - exists "". change ("" ++ String first z)%string with (String first z).
    cbn [Str.lstrip]. rewrite Hf. reflexivity.
  - rewrite app_cons. cbn [Str.lstrip]. destruct (Char.space c).
    + exists a'. exact IH.
    + exists (String c a). reflexivity.
Qed.

Lemma chars_of_app (a b : string) :
  list_ascii_of_string (a ++ b) = list_ascii_of_string a ++ list_ascii_of_string b.
Proof.
  induction a as [| c a IH]; [reflexivity |].
  rewrite app_cons. cbn [list_ascii_of_string]. rewrite IH. reflexivity.
Qed.

Lemma rev_snoc (x : string) (c : ascii) : Str.rev (x ++ String c "") = String c (Str.rev x).
Proof.
  unfold Str.rev. rewrite chars_of_app. cbn [list_ascii_of_string].
  rewrite rev_unit. reflexivity.
Qed.

Lemma rstrip_keeps (x : string) (last : ascii) :
  Char.space last = false -> Str.rstrip (x ++ String last "") = (x ++ String last "")%string.
Proof.
  intros Hl. unfold Str.rstrip. rewrite rev_snoc. cbn [Str.lstrip]. rewrite Hl.
  rewrite <- rev_snoc. apply TokensProofs.rev_rev.
Qed.

Lemma strip_keeps (a y : string) (first last : ascii) :
  Char.space first = false -> Char.space last = false ->
  (2 + Str.len y <= Str.len (Str.strip (a ++ String first (y ++ String last ""))))%nat.
Proof.
  intros Hf Hl. unfold Str.strip.
  destruct (lstrip_keeps a (y ++ String last "") first Hf) as [a' ->].
  replace (a' ++ String first (y ++ String last ""))%string
    with ((a' ++ String first y) ++ String last "")%string
    by (rewrite !app_assoc, !app_cons; reflexivity).
  rewrite (rstrip_keeps _ last Hl), !len_app. unfold Str.len. cbn [String.length]. lia.
Qed.

(** the length that [get_authors] takes from a match of [ETAL_HOOK] *)
Lemma etal_length (ref_string : string) (m : mobj) :
  match_start ETAL_HOOK ref_string = Some m ->
  (3 <= Str.len (Str.strip (mo_text m)))%nat.
Proof.
  intros H. apply etal_text in H as (a & first & y & last & -> & Hf & Hl & Hy).
  pose proof (strip_keeps a y first last Hf Hl) as Hlen.
  destruct y as [| c y]; [congruence |]. cbn [Str.len String.length] in Hlen. lia.
Qed.

(** X22. [get_authors] never returns the authors that stand before an
    [et al]: in the branch that finds one, the variable [author_pattern] is
    read without having been assigned.  The call raises [UnboundLocalError]
    exactly when no colleagues are found, no collaboration is found after
    the start of the reference, and [ETAL_HOOK] matches the reference; the
    length taken from that match is never below three, so that the last
    attempt is not made then. *)
Theorem get_authors_is_unbound_on_et_al (ref_string : string) :
  get_authors ref_string = Fails (UnboundLocalError "author_pattern")
  <-> (snd (get_and_colleagues ref_string) = 0%nat
       /\ (fst (get_collaborators ref_string) <= 0)%Z
       /\ match_start ETAL_HOOK ref_string <> None).
Proof.
  unfold get_authors.
  destruct (get_collaborators ref_string) as [collaborators_idx collaborators_len].
  destruct (get_and_colleagues ref_string) as [and_colleagues_idx and_colleagues_len].
  cbn [fst snd].
  destruct (Nat.ltb_spec 0 and_colleagues_len) as [Hc | Hc];
    [split; [discriminate | intros (-> & _); lia] |].
  destruct (Z.ltb_spec 0 collaborators_idx) as [Hi | Hi];
    [split; [discriminate | intros (_ & Hle & _); lia] |].
  destruct (match_start ETAL_HOOK ref_string) as [m |] eqn:Hm.
  - pose proof (etal_length ref_string m Hm) as Hlen.
    destruct (Z.ltb_spec (Z.of_nat (Str.len (Str.strip (mo_text m)))) 3) as [Hlt | _]; [lia |].
    split; [intros _ | reflexivity]. repeat split; [lia | exact Hi | discriminate].
  - split; [| intros (_ & _ & H); contradiction].
    destruct (get_author_pattern ref_string) as [p |].
    + destruct (_ <? 3)%Z.
      * destruct (get_authors_last_attempt ref_string) as [authors |];
          [destruct (Str.eqb authors "") |]; discriminate.
      * discriminate.
    + destruct (_ <? 3)%Z.
      * destruct (get_authors_last_attempt ref_string) as [authors |];
          [destruct (Str.eqb authors "") |]; discriminate.
      * discriminate.
Qed.

(** A reference with [et al]: the three conditions hold, and the call
    raises. *)
Lemma get_authors_is_unbound_on_et_al_witness :
  get_authors "Smith, J. et al. 2000, ApJ, 1, 2" = Fails (UnboundLocalError "author_pattern").
Proof.
  apply (proj2 (get_authors_is_unbound_on_et_al "Smith, J. et al. 2000, ApJ, 1, 2")).
  split; [vm_compute; reflexivity |]. split; [vm_compute; discriminate |].
  vm_compute. discriminate.
Defined.

(** *** What is returned is in the reference *)

Lemma text_of_app (l1 l2 : list ascii) :
  string_of_list_ascii (l1 ++ l2) = (string_of_list_ascii l1 ++ string_of_list_ascii l2)%string.
Proof.
  induction l1 as [| c l1 IH]; [reflexivity |].
  cbn [app string_of_list_ascii]. rewrite app_cons, IH. reflexivity.
Qed.

Lemma rev_app (a b : string) : Str.rev (a ++ b) = (Str.rev b ++ Str.rev a)%string.
Proof. unfold Str.rev. rewrite chars_of_app, rev_app_distr. apply text_of_app. Qed.

Lemma lstrip_is_the_end (x : string) : exists a, x = (a ++ Str.lstrip x)%string.
Proof.
  induction x as [| c x [a IH]]; [exists ""; reflexivity |].
  cbn [Str.lstrip]. destruct (Char.space c).
  - exists (String c a). rewrite app_cons, <- IH. reflexivity.
  - exists "". reflexivity.
Qed.

Lemma lstrip_commas_is_the_end (x : string) : exists a, x = (a ++ lstrip_commas x)%string.
Proof.
  induction x as [| c x [a IH]]; [exists ""; reflexivity |].
  cbn [lstrip_commas]. destruct (Char.same "," c).
  - exists (String c a). rewrite app_cons, <- IH. reflexivity.
  - exists "". reflexivity.
Qed.

(** a function that cuts the start, applied to the reversed text, cuts the
    end *)
Lemma cut_of_the_end (cut : string -> string) (x : string) :
  (forall y, exists a, y = (a ++ cut y)%string) ->
  exists t, x = (Str.rev (cut (Str.rev x)) ++ t)%string.
Proof.
  intros Hcut. destruct (Hcut (Str.rev x)) as [a Ha].
  exists (Str.rev a). rewrite <- rev_app, <- Ha. symmetry. apply TokensProofs.rev_rev.
Qed.

Lemma strip_is_a_part (x : string) : exists a t, x = (a ++ Str.strip x ++ t)%string.
Proof.
  unfold Str.strip, Str.rstrip. destruct (lstrip_is_the_end x) as [a Ha].
  destruct (cut_of_the_end Str.lstrip (Str.lstrip x) lstrip_is_the_end) as [t Ht].
  exists a, t. rewrite <- Ht. exact Ha.
Qed.

Lemma strip_commas_is_a_part (x : string) : exists a t, x = (a ++ strip_commas x ++ t)%string.
Proof.
  unfold strip_commas. destruct (lstrip_commas_is_the_end x) as [a Ha].
  destruct (cut_of_the_end lstrip_commas (lstrip_commas x) lstrip_commas_is_the_end)
    as [t Ht].
  exists a, t. rewrite <- Ht. exact Ha.
Qed.

Lemma authors_up_to_is_a_part (ref_string : string) (authors_len : Z) :
  exists a t, ref_string = (a ++ authors_up_to ref_string authors_len ++ t)%string.
Proof.
  unfold authors_up_to.
  apply (part_trans _ (Str.strip (slice_to authors_len ref_string)));
    [apply strip_commas_is_a_part |].
  apply (part_trans _ (slice_to authors_len ref_string)); [apply strip_is_a_part |].
  unfold slice_to. destruct (authors_len <? 0)%Z.
  - apply (part_of_take _ ref_string (Z.to_nat (Z.of_nat (Str.len ref_string) + authors_len))).
    apply part_refl.
  - apply (part_of_take _ ref_string (Z.to_nat authors_len)). apply part_refl.
Qed.

Lemma search_at_is_a_part (r : regex) (s : string) :
  forall (prev : option ascii) (pos : nat) (m : mobj),
    search_at r prev s pos = Some m -> exists a t, s = (a ++ mo_text m ++ t)%string.
Proof.
  induction s as [| c s IH]; intros prev pos m; cbn [search_at];
    destruct (match_at r prev _ pos) as [m' |] eqn:Hm.
  - intros H. injection H as <-. apply match_at_consumes in Hm as (t & Ht & _).
    exists "", t. exact Ht.
  - discriminate.
  - intros H. injection H as <-. apply match_at_consumes in Hm as (t & Ht & _).
    exists "", t. exact Ht.
  - intros H. apply IH in H as (a & t & H). exists (String c a), t.
    rewrite app_cons, <- H. reflexivity.
Qed.

Lemma last_attempt_is_a_part (ref_string authors : string) :
  get_authors_last_attempt ref_string = Some authors ->
  exists a t, ref_string = (a ++ authors ++ t)%string.
Proof.
  unfold get_authors_last_attempt.
  destruct (match_start AND_HOOK ref_string) as [m |] eqn:Hm.
  - intros H. injection H as <-. apply match_at_consumes in Hm as (t & Ht & _).
    apply (part_trans _ (mo_text m)); [apply strip_is_a_part |]. exists "", t. exact Ht.
  - destruct (search LAST_NAME_PAT ref_string) as [m |] eqn:Hs; [| discriminate].
    intros H. injection H as <-.
    apply (part_trans _ (mo_text m)); [apply strip_is_a_part |].
    exact (search_at_is_a_part _ _ _ _ _ Hs).
Qed.

(** X24. What [get_authors] returns is text of the reference: the authors
    returned are a contiguous part of [ref_string], on every path that
    returns. *)
Theorem get_authors_returns_a_part (ref_string authors : string) :
  get_authors ref_string = Returns authors ->
  exists before after, ref_string = (before ++ authors ++ after)%string.
Proof.
  unfold get_authors.
  destruct (get_collaborators ref_string) as [collaborators_idx collaborators_len].
  destruct (get_and_colleagues ref_string) as [and_colleagues_idx and_colleagues_len].
  destruct (0 <? and_colleagues_len)%nat;
    [intros H; injection H as <-; apply authors_up_to_is_a_part |].
  destruct (0 <? collaborators_idx)%Z;
    [intros H; injection H as <-; apply authors_up_to_is_a_part |].
  match goal with
  | |- (let '(_, _) := ?state in _) = _ -> _ => destruct state as [author_pattern authors_len]
  end.
  destruct (authors_len <? 3)%Z.
  - destruct (get_authors_last_attempt ref_string) as [found |] eqn:Hl; [| discriminate].
    destruct (Str.eqb found ""); [discriminate |]. intros H. injection H as <-.
    exact (last_attempt_is_a_part _ _ Hl).
  - destruct author_pattern as [| value]; [discriminate |].
    intros H. injection H as <-. apply authors_up_to_is_a_part.
Qed.

Lemma get_authors_returns_a_part_witness :
  exists before after,
    "Smith, J., Jones, K. 2000, ApJ, 1, 2" = (before ++ "Smith, J., Jones, K." ++ after)%string.
Proof.
  apply (get_authors_returns_a_part "Smith, J., Jones, K. 2000, ApJ, 1, 2"). vm_compute.
  reflexivity.
Defined.

End GetAuthorsProofs.

(** ** The subtitle *)

Module TitleProofs.
Import Re Crf Title StrFacts PartFacts.

(** [search] returns the leftmost match: the pattern does not match at the
    positions before it, and at no position when there is no match *)
Lemma search_at_leftmost (r : regex) (s : string) :
  forall (prev : option ascii) (pos : nat),
    match search_at r prev s pos with
    | Some m =>
        exists n, mo_start m = (pos + n)%nat
                  /\ forall j, (j < n)%nat ->
                       exists prev', match_at r prev' (Str.drop j s) (pos + j) = None
    | None =>
        forall j, (j <= Str.len s)%nat ->
          exists prev', match_at r prev' (Str.drop j s) (pos + j) = None
    end.
Proof.
  induction s as [| c s IH]; intros prev pos; cbn [search_at];
    destruct (match_at r prev _ pos) as [m |] eqn:Hm.
  - exists 0%nat. split; [| intros j Hj; lia].
    unfold match_at in Hm. destruct (rmatch r Some _); [| discriminate].
    injection Hm as <-. cbn. lia.
  - intros j Hj. cbn in Hj. replace j with 0%nat by lia. rewrite Nat.add_0_r.
    exists prev. exact Hm.
  - exists 0%nat. split; [| intros j Hj; lia].
    unfold match_at in Hm. destruct (rmatch r Some _); [| discriminate].
    injection Hm as <-. cbn. lia.
  - specialize (IH (Some c) (S pos)).
    destruct (search_at r (Some c) s (S pos)) as [m |].
    + destruct IH as (n & Hn & Hbefore). exists (S n). split; [lia |].
      intros [| j] Hj.
      * rewrite Nat.add_0_r. exists prev. exact Hm.
      * destruct (Hbefore j ltac:(lia)) as [prev' Hp]. exists prev'.
        cbn [Str.drop]. replace (pos + S j)%nat with (S pos + j)%nat by lia. exact Hp.
    + intros [| j] Hj.
      * rewrite Nat.add_0_r. exists prev. exact Hm.
      * cbn in Hj. destruct (IH j ltac:(unfold Str.len; lia)) as [prev' Hp]. exists prev'.
        cbn [Str.drop]. replace (pos + S j)%nat with (S pos + j)%nat by lia. exact Hp.
Qed.

Lemma colon_is_matched (prev : option ascii) (t : string) (pos : nat) :
  match_at TITLE_TOKENIZER prev (String ":" t) pos <> None.
Proof. unfold match_at. cbn. discriminate. Qed.

Lemma drop_app_len (a b : string) : Str.drop (Str.len a) (a ++ b) = b.
Proof. induction a as [| c a IH]; [reflexivity |]. rewrite app_cons. exact IH. Qed.

Lemma len_take (n : nat) (s : string) : (Str.len (Str.take n s) <= n)%nat.
Proof.
  revert s. induction n as [| n IH]; intros [| c s]; cbn; try lia.
  specialize (IH s). unfold Str.len in IH. lia.
Qed.

Lemma take_all (n : nat) (s : string) : (Str.len s <= n)%nat -> Str.take n s = s.
Proof.
  revert s. induction n as [| n IH]; intros [| c s] Hn; try reflexivity.
  - cbn in Hn. lia.
  - cbn [Str.take]. f_equal. apply IH. cbn in Hn. unfold Str.len. lia.
Qed.

Lemma no_colon_before (title : string) (n pos : nat) :
  (forall j, (j < n)%nat ->
     exists prev', match_at TITLE_TOKENIZER prev' (Str.drop j title) (pos + j) = None) ->
  Str.contains ":" (Str.take n title) = false.
Proof.
  intros Hbefore. destruct (Str.contains ":" (Str.take n title)) eqn:Hc; [| reflexivity].
  exfalso. apply contains_iff in Hc as (a & b & Hab).
  pose proof (len_take n title) as Hlen. rewrite Hab, !GetAuthorsProofs.len_app in Hlen.
  cbn [Str.len String.length] in Hlen.
  destruct (Hbefore (Str.len a) ltac:(unfold Str.len in *; lia)) as [prev' Hnone].
  rewrite (take_drop n title), Hab, !app_assoc, drop_app_len in Hnone.
  rewrite app_cons in Hnone. exact (colon_is_matched _ _ _ Hnone).
Qed.

(** X23. [crop_title] returns as title a start of the title it is given,
    in which there is no colon, and as [unknown] a text that begins with
    the [unknown] it is given: what is cut off the title is added after
    it, and nothing collected before is lost. *)
Theorem crop_title_keeps_the_start (title unknown : string) :
  (exists rest, title = (fst (crop_title title unknown) ++ rest)%string)
  /\ Str.contains ":" (fst (crop_title title unknown)) = false
  /\ Str.startswith unknown (snd (crop_title title unknown)) = true.
Proof.
  unfold crop_title, split, finditer. cbn [finditer_at].
  pose proof (search_at_leftmost TITLE_TOKENIZER title None 0) as Hsearch.
  destruct (search_at TITLE_TOKENIZER None title 0) as [m |].
  - destruct Hsearch as (n & Hn & Hbefore). cbn [Nat.add] in Hn.
    assert (Hparts : forall ms,
              (if (1 <? length (split_go true (m :: ms) title 0))%nat
               then (nth 0 (split_go true (m :: ms) title 0) "",
                     concatenate unknown (Str.join " " (tl (split_go true (m :: ms) title 0))))
               else (title, unknown))
              = (Str.take n title,
                 concatenate unknown (Str.join " " (tl (split_go true (m :: ms) title 0))))).
    { intros ms. cbn [split_go app length nth]. rewrite Hn, !Nat.sub_0_r. reflexivity. }
    match goal with
    | |- context [if (Str.len title <? ?step)%nat then _ else _] =>
        destruct (Str.len title <? step)%nat
    end.
    + rewrite Hparts. cbn [fst snd]. split; [| split].
      * exists (Str.drop n title). apply take_drop.
      * exact (no_colon_before title n 0 Hbefore).
      * apply UnknownFacts.concatenate_extends.
    + destruct (advance _ None title) as [prev' s']. rewrite Hparts. cbn [fst snd].
      split; [| split].
      * exists (Str.drop n title). apply take_drop.
      * exact (no_colon_before title n 0 Hbefore).
      * apply UnknownFacts.concatenate_extends.
  - cbn [split_go length Nat.ltb Nat.leb fst snd]. split; [| split].
    + exists "". rewrite app_nil_r. reflexivity.
    + rewrite <- (take_all (S (Str.len title)) title) by lia.
      apply (no_colon_before title (S (Str.len title)) 0).
      intros j Hj. apply Hsearch. lia.
    + apply UnknownFacts.prefix_refl.
Qed.

End TitleProofs.
